(** * Placeholder extraction and template validation of the document editor

    A shallow embedding of the functions of
    [src/components/document-editor.jsx] that carry the template logic:
    [extractFieldsFromJson] (with its inner [processValue] and
    [processModel]), [getNestedValue] and [validateTemplate], and of what
    surrounds them: [extractTextFromSections], the text inserted from the
    palette, the file names and the handlers of the data source.

    JavaScript values are restricted to what [JSON.parse] can produce plus
    [undefined].  A thrown [TypeError] (or, for the asynchronous
    [validateTemplate], a rejected promise) is the [Throw] result.  Strings
    are sequences of code units below 256.  Property reads and the [in]
    operator see the own properties of the data; what the built-in
    prototypes would add ([constructor], [toString], ...) is left out of
    them.  The conversion to a string does go through the inherited
    [toString]. *)

From Stdlib Require Import String Ascii List Arith Lia Bool QArith.
From Stdlib Require Import DecimalNat DecimalString.
Import ListNotations.
Close Scope Q_scope.
Open Scope string_scope.
Open Scope list_scope.

(** ** JavaScript values and the runtime operations the code relies on *)

Module JS.

(** A parsed JSON document.  An object is the list of its own properties in
    the order [Object.keys] enumerates them. *)
#[local] Unset Elimination Schemes.
Inductive json : Type :=
| JNull
| JBool (b : bool)
| JNum (n : Q)
| JStr (s : string)
| JArr (items : list json)
| JObj (props : list (string * json)).
#[local] Set Elimination Schemes.

(** What an expression can evaluate to: [undefined] or a JSON value. *)
Inductive value : Type :=
| Undefined
| Val (j : json).

Inductive error : Type :=
| TypeError.

Inductive result (A : Type) : Type :=
| Ok (a : A)
| Throw (e : error).
Arguments Ok {A} a.
Arguments Throw {A} e.

Definition bind {A B : Type} (r : result A) (k : A -> result B) : result B :=
  match r with
  | Ok a => k a
  | Throw e => Throw e
  end.

(** [typeof v] *)
Definition typeof (v : value) : string :=
  match v with
  | Undefined => "undefined"
  | Val JNull => "object"
  | Val (JBool _) => "boolean"
  | Val (JNum _) => "number"
  | Val (JStr _) => "string"
  | Val (JArr _) => "object"
  | Val (JObj _) => "object"
  end.

(** [Array.isArray(v)] *)
Definition isArray (v : value) : bool :=
  match v with
  | Val (JArr _) => true
  | _ => false
  end.

(** [v === undefined], [v === null] *)
Definition isUndefined (v : value) : bool :=
  match v with Undefined => true | _ => false end.

Definition isNull (v : value) : bool :=
  match v with Val JNull => true | _ => false end.

(** ToBoolean, as used by [&&] and the conditional operator. *)
Definition truthy (v : value) : bool :=
  match v with
  | Undefined => false
  | Val JNull => false
  | Val (JBool b) => b
  | Val (JNum n) => negb (Qeq_bool n 0)
  | Val (JStr s) => negb (s =? "")
  | Val (JArr _) => true
  | Val (JObj _) => true
  end.

(** Decimal rendering of an array index, and the test that a property key
    is a canonical array index. *)
Definition string_of_nat (n : nat) : string :=
  NilEmpty.string_of_uint (Nat.to_uint n).

Definition array_index (k : string) : option nat :=
  match NilEmpty.uint_of_string k with
  | Some u =>
      let n := Nat.of_uint u in
      if string_of_nat n =? k then Some n else None
  | None => None
  end.

Fixpoint assoc (k : string) (props : list (string * json)) : option json :=
  match props with
  | [] => None
  | (k', v) :: rest => if k' =? k then Some v else assoc k rest
  end.

Definition of_option (o : option json) : value :=
  match o with
  | Some j => Val j
  | None => Undefined
  end.

Definition char_at (s : string) (i : nat) : option json :=
  match String.get i s with
  | Some c => Some (JStr (String c EmptyString))
  | None => None
  end.

(** Own property [j[k]] of a value that is neither [null] nor [undefined].
    Properties inherited from the built-in prototypes ([constructor],
    [toString], the array methods, ...) are not part of the data and are not
    modelled: for a key that names one of them the read here is that of the
    data alone. *)
Definition ownProp (j : json) (k : string) : value :=
  match j with
  | JObj props => of_option (assoc k props)
  | JArr items =>
      if k =? "length" then Val (JNum (inject_Z (Z.of_nat (List.length items))))
      else match array_index k with
           | Some i => of_option (nth_error items i)
           | None => Undefined
           end
  | JStr s =>
      if k =? "length" then Val (JNum (inject_Z (Z.of_nat (String.length s))))
      else match array_index k with
           | Some i => of_option (char_at s i)
           | None => Undefined
           end
  | _ => Undefined
  end.

(** Property read [v[k]] (or [v.k]): reading from [null] or [undefined]
    throws a [TypeError]. *)
Definition getProp (v : value) (k : string) : result value :=
  match v with
  | Undefined => Throw TypeError
  | Val JNull => Throw TypeError
  | Val j => Ok (ownProp j k)
  end.

(** [k in v]: throws unless [v] is an object.  Like [ownProp], the test
    looks at the properties of the data, not at inherited ones. *)
Definition hasProp (k : string) (v : value) : result bool :=
  match v with
  | Val (JObj props) =>
      Ok (match assoc k props with Some _ => true | None => false end)
  | Val (JArr items) =>
      Ok (if k =? "length" then true
          else match array_index k with
               | Some i => Nat.ltb i (List.length items)
               | None => false
               end)
  | _ => Throw TypeError
  end.

(** Effectful iteration: [xs.forEach(f)] where [f] updates a state and may
    throw. *)
Definition forEach {A St : Type} (f : A -> St -> result St)
  : list A -> St -> result St :=
  fix go (xs : list A) (s : St) : result St :=
    match xs with
    | [] => Ok s
    | x :: rest =>
        match f x s with
        | Ok s' => go rest s'
        | Throw e => Throw e
        end
    end.

(** The same over the elements of an array with their index keys:
    [Object.keys(arr).forEach(k => f(arr[k], k))]. *)
Definition forEachIndexed {A St : Type} (f : nat -> A -> St -> result St)
  : nat -> list A -> St -> result St :=
  fix go (i : nat) (xs : list A) (s : St) : result St :=
    match xs with
    | [] => Ok s
    | x :: rest =>
        match f i x s with
        | Ok s' => go (S i) rest s'
        | Throw e => Throw e
        end
    end.

(** *** Strings *)

Definition dq : string := String "034"%char EmptyString.

(** [s.repeat(n)] *)
Fixpoint repeat_str (s : string) (n : nat) : string :=
  match n with
  | O => ""
  | S n' => s ++ repeat_str s n'
  end.

(** [s.startsWith(c)] for a one-character [c] *)
Definition startsWith (s : string) (c : ascii) : bool :=
  match s with
  | String c' _ => Ascii.eqb c' c
  | EmptyString => false
  end.

(** [s.substring(1)] *)
Definition substring1 (s : string) : string :=
  match s with
  | String _ rest => rest
  | EmptyString => ""
  end.

(** [s.includes(c)] for a one-character [c] *)
Fixpoint includes (s : string) (c : ascii) : bool :=
  match s with
  | EmptyString => false
  | String c' rest => Ascii.eqb c' c || includes rest c
  end.

(** [s.split(".")] *)
Fixpoint split_dot (s : string) : list string :=
  match s with
  | EmptyString => [""]
  | String c rest =>
      if Ascii.eqb c "."%char then "" :: split_dot rest
      else match split_dot rest with
           | seg :: segs => String c seg :: segs
           | [] => [String c ""]
           end
  end.

(** White space removed by [trim], among the code units below 256: TAB, LF,
    VT, FF, CR, SPACE and NBSP. *)
Definition is_space (c : ascii) : bool :=
  let n := nat_of_ascii c in
  (Nat.leb 9 n && Nat.leb n 13) || Nat.eqb n 32 || Nat.eqb n 160.

Fixpoint trimStart (s : string) : string :=
  match s with
  | EmptyString => ""
  | String c rest => if is_space c then trimStart rest else s
  end.

Fixpoint trimEnd (s : string) : string :=
  match s with
  | EmptyString => ""
  | String c rest =>
      match trimEnd rest with
      | EmptyString => if is_space c then "" else String c ""
      | kept => String c kept
      end
  end.

Definition trim (s : string) : string := trimEnd (trimStart s).

End JS.
Import JS.

Notation "x <- c ;; k" := (bind c (fun x => k))
  (at level 61, c at next level, right associativity).

(** Arrays used as stacks: [push] appends, the top is the last element,
    [pop] drops it. *)
Definition push {A : Type} (xs : list A) (x : A) : list A := xs ++ [x].
Definition pop {A : Type} (xs : list A) : list A := removelast xs.

(** ** extractFieldsFromJson *)

Inductive FieldType : Type :=
| Simple
| ArraySimple
| LoopStart
| LoopEnd
| ObjectStart
| ObjectEnd.

(** A field descriptor.  The flags [isLoopStart], [isLoopEnd], [isObjectStart]
    and [isObjectEnd] of the source are set exactly on the descriptor of the
    corresponding [type] and are read nowhere; [type] stands for them. *)
Record Field : Type := mkField {
  name : string;
  label : string;
  placeholder : string;
  indentLevel : nat;
  type : FieldType
}.

(** [parentPath ? `${parentPath}.${key}` : key] *)
Definition joinPath (parentPath key : string) : string :=
  if truthy (Val (JStr parentPath)) then parentPath ++ "." ++ key else key.

Fixpoint processValue (value : json) (key parentPath : string) (indentLevel : nat)
  (fields : list Field) {struct value} : result (list Field) :=
  let currentPath := joinPath parentPath key in
  let indent := repeat_str "  " indentLevel in
  match value with
  | JNull =>
      Ok (push fields
            (mkField currentPath (indent ++ key) ("{{" ++ key ++ "}}")
               indentLevel Simple))
  | JArr items =>
      match items with
      | firstItem :: _ =>
          if typeof (Val firstItem) =? "object" then
            let fields1 :=
              push fields
                (mkField ("#" ++ currentPath) (indent ++ key ++ " (Loop Start)")
                   ("{{#" ++ key ++ "}}") indentLevel LoopStart) in
            fields2 <-
              match firstItem with
              | JObj props =>
                  forEach
                    (fun kv fs =>
                       processValue (snd kv) (fst kv) key (S indentLevel) fs)
                    props fields1
              | JArr elems =>
                  forEachIndexed
                    (fun i child fs =>
                       processValue child (string_of_nat i) key (S indentLevel) fs)
                    0 elems fields1
              | JNull => Throw TypeError (* Object.keys(null) *)
              | _ => Ok fields1 (* not reached: typeof is "object" *)
              end ;;
            Ok (push fields2
                  (mkField ("/" ++ currentPath) (indent ++ key ++ " (Loop End)")
                     ("{{/" ++ key ++ "}}") indentLevel LoopEnd))
          else
            Ok (push fields
                  (mkField currentPath (indent ++ key) ("{{" ++ key ++ "}}")
                     indentLevel ArraySimple))
      | [] =>
          Ok (push fields
                (mkField currentPath (indent ++ key) ("{{" ++ key ++ "}}")
                   indentLevel ArraySimple))
      end
  | JObj props =>
      let fields1 :=
        push fields
          (mkField ("#" ++ currentPath) (indent ++ key ++ " (Object Start)")
             ("{{#" ++ key ++ "}}") indentLevel ObjectStart) in
      fields2 <-
        forEach
          (fun kv fs =>
             processValue (snd kv) (fst kv) currentPath (S indentLevel) fs)
          props fields1 ;;
      Ok (push fields2
            (mkField ("/" ++ currentPath) (indent ++ key ++ " (Object End)")
               ("{{/" ++ key ++ "}}") indentLevel ObjectEnd))
  | _ =>
      Ok (push fields
            (mkField currentPath (indent ++ key) ("{{" ++ key ++ "}}")
               indentLevel Simple))
  end.

(** [Object.keys(obj).forEach(key => processValue(obj[key], key, "", 0))].
    [Object.keys] throws on [null]; a string enumerates its indices; numbers
    and booleans have no own keys. *)
Definition processModel (obj : json) (fields : list Field) : result (list Field) :=
  match obj with
  | JObj props =>
      forEach (fun kv fs => processValue (snd kv) (fst kv) "" 0 fs) props fields
  | JArr elems =>
      forEachIndexed (fun i child fs => processValue child (string_of_nat i) "" 0 fs)
        0 elems fields
  | JStr s =>
      forEachIndexed (fun i c fs =>
                        processValue (JStr (String c "")) (string_of_nat i) "" 0 fs)
        0 (list_ascii_of_string s) fields
  | JNull => Throw TypeError
  | _ => Ok fields
  end.

Definition extractFieldsFromJson (data : json) : result (list Field) :=
  let fields := [] in
  if isArray (Val data) then
    match data with
    | JArr (first :: _) =>
        if typeof (Val first) =? "object" then processModel first fields
        else Ok fields
    | _ => Ok fields
    end
  else if (typeof (Val data) =? "object") && negb (isNull (Val data)) then
    match ownProp data "model" with
    | Val m =>
        if truthy (Val m) && (typeof (Val m) =? "object")
        then processModel m fields
        else processModel data fields
    | Undefined => processModel data fields
    end
  else Ok fields.

(** ** getNestedValue *)

(** The [for (const key of keys)] loop with its early [return undefined]. *)
Fixpoint descend (keys : list string) (current : value) : result value :=
  match keys with
  | [] => Ok current
  | key :: rest =>
      if isNull current || isUndefined current then Ok Undefined
      else next <- getProp current key ;; descend rest next
  end.

Definition getNestedValue (obj : value) (path : string) : result value :=
  model <- getProp obj "model" ;;
  let data :=
    if truthy model && (typeof model =? "object") then model else obj in
  let keys := split_dot path in
  descend keys data.

(** ** validateTemplate *)

Record Placeholder : Type := mkPlaceholder {
  full : string;
  field : string;
  position : nat
}.

Record Report : Type := mkReport {
  issues : list string;
  warnings : list string;
  placeholderCount : nat
}.

(** *** The placeholder regular expression [/\{\{([^}]+)\}\}/g] *)

(** The longest prefix without a closing brace, and what follows it. *)
Fixpoint span_not_close (s : string) : string * string :=
  match s with
  | EmptyString => ("", "")
  | String c rest =>
      if Ascii.eqb c "}"%char then ("", s)
      else let (run, tl) := span_not_close rest in (String c run, tl)
  end.

(** One attempt of the pattern at the start of [s]: the capture group and the
    input after the match.  The greedy [[^}]+] takes the whole run; a shorter
    run would be followed by a character that is not a closing brace, so
    backtracking never finds another match. *)
Definition match_here (s : string) : option (string * string) :=
  match s with
  | String c1 (String c2 body) =>
      if Ascii.eqb c1 "{"%char && Ascii.eqb c2 "{"%char then
        match span_not_close body with
        | (String c inner, String d1 (String d2 rest)) =>
            if Ascii.eqb d1 "}"%char && Ascii.eqb d2 "}"%char
            then Some (String c inner, rest)
            else None
        | _ => None
        end
      else None
  | _ => None
  end.

(** The result of one [placeholderRegex.exec(documentText)]: [match[0]],
    [match[1]], [match.index], and the input from the new [lastIndex] on. *)
Record RegExpMatch : Type := mkMatch {
  m_0 : string;
  m_1 : string;
  m_index : nat;
  m_rest : string
}.

(** [exec] searches from [lastIndex]; [s] is the input from there on and
    [idx] is [lastIndex]. *)
Fixpoint exec (s : string) (idx : nat) : option RegExpMatch :=
  match match_here s with
  | Some (group, rest) =>
      Some (mkMatch ("{{" ++ group ++ "}}") group idx rest)
  | None =>
      match s with
      | EmptyString => None
      | String _ s' => exec s' (S idx)
      end
  end.

(** The [while ((match = placeholderRegex.exec(documentText)) !== null)]
    loop.  Every match consumes input, so the length of the input bounds the
    number of iterations. *)
Fixpoint scan (fuel : nat) (s : string) (lastIndex : nat) : list Placeholder :=
  match fuel with
  | O => []
  | S fuel' =>
      match exec s lastIndex with
      | None => []
      | Some m =>
          mkPlaceholder (m_0 m) (trim (m_1 m)) (m_index m)
            :: scan fuel' (m_rest m) (m_index m + String.length (m_0 m))
      end
  end.

Definition scanPlaceholders (documentText : string) : list Placeholder :=
  scan (String.length documentText) documentText 0.

(** *** The scan over the placeholders *)

(** The arrays the [forEach] callback mutates. *)
Record State : Type := mkState {
  contextStack : list value;
  loopStack : list string;
  issuesSoFar : list string;
  warningsSoFar : list string
}.

Definition addIssue (st : State) (msg : string) : State :=
  mkState (contextStack st) (loopStack st) (push (issuesSoFar st) msg)
    (warningsSoFar st).

Definition addWarning (st : State) (msg : string) : State :=
  mkState (contextStack st) (loopStack st) (issuesSoFar st)
    (push (warningsSoFar st) msg).

(** [contextStack.push(ctx); loopStack.push(fieldName)] *)
Definition enter (st : State) (ctx : value) (fieldName : string) : State :=
  mkState (push (contextStack st) ctx) (push (loopStack st) fieldName)
    (issuesSoFar st) (warningsSoFar st).

(** [contextStack.pop(); loopStack.pop()] *)
Definition leave (st : State) : State :=
  mkState (pop (contextStack st)) (pop (loopStack st)) (issuesSoFar st)
    (warningsSoFar st).

(** [xs[xs.length - 1]] *)
Definition top (xs : list value) : value := last xs Undefined.

Definition topName (xs : list string) : option string :=
  last (map Some xs) None.

(** [typeof v === "object" && v !== null] *)
Definition isObject (v : value) : bool :=
  (typeof v =? "object") && negb (isNull v).

(** [value.length > 0 ? value[0] : {}] for an array [value] *)
Definition itemContext (v : value) : value :=
  match v with
  | Val (JArr (first :: _)) => Val first
  | _ => Val (JObj [])
  end.

Definition msgMissingLoop (field fieldName : string) : string :=
  "Loop/Section marker " ++ dq ++ "{{" ++ field ++ "}}" ++ dq
  ++ " references missing data: " ++ dq ++ fieldName ++ dq.

Definition msgNotLoop (field fieldName : string) (v : value) : string :=
  "Loop marker " ++ dq ++ "{{" ++ field ++ "}}" ++ dq ++ " points to " ++ dq
  ++ fieldName ++ dq ++ " which is not an array or object (it's a "
  ++ typeof v ++ "). This may cause unexpected behavior.".

Definition msgNoStart (field : string) : string :=
  "Loop end marker " ++ dq ++ "{{" ++ field ++ "}}" ++ dq
  ++ " found without a matching start marker.".

Definition msgMismatch (field expectedLoop : string) : string :=
  "Loop end marker " ++ dq ++ "{{" ++ field ++ "}}" ++ dq
  ++ " doesn't match the most recent loop start " ++ dq ++ "{{#"
  ++ expectedLoop ++ "}}" ++ dq ++ ". Loops may be improperly nested.".

Definition msgNotInLoop (field loopName : string) : string :=
  "Placeholder " ++ dq ++ "{{" ++ field ++ "}}" ++ dq ++ " in loop " ++ dq
  ++ "{{#" ++ loopName ++ "}}" ++ dq
  ++ " has no corresponding field in the loop items.".

Definition msgNoData (field : string) : string :=
  "Placeholder " ++ dq ++ "{{" ++ field ++ "}}" ++ dq
  ++ " has no corresponding data. Please ensure your data source includes a "
  ++ dq ++ field ++ dq ++ " field.".

Definition msgNull (field : string) : string :=
  "Placeholder " ++ dq ++ "{{" ++ field ++ "}}" ++ dq
  ++ " has a null value in the data source.".

Definition msgUnclosed (loopName : string) : string :=
  "Loop " ++ dq ++ "{{#" ++ loopName ++ "}}" ++ dq
  ++ " was started but never closed with " ++ dq ++ "{{/" ++ loopName ++ "}}"
  ++ dq ++ ".".

Definition msgNoPlaceholders : string :=
  "No template placeholders found in the document. The document will be generated as-is without any data population.".

(** A [{{#name}}] marker. *)
Definition openMarker (field : string) (st : State) : result State :=
  let fieldName := substring1 field in
  let currentContext := top (contextStack st) in
  value <- getNestedValue currentContext fieldName ;;
  if isUndefined value then
    Ok (enter (addIssue st (msgMissingLoop field fieldName)) Undefined fieldName)
  else if isArray value then
    Ok (enter st (itemContext value) fieldName)
  else if isObject value then
    Ok (enter st value fieldName)
  else
    Ok (enter (addWarning st (msgNotLoop field fieldName value)) value fieldName).

(** A [{{/name}}] marker. *)
Definition closeMarker (field : string) (st : State) : result State :=
  let fieldName := substring1 field in
  let expectedLoop := topName (loopStack st) in
  if Nat.eqb (List.length (loopStack st)) 0 then
    Ok (addWarning st (msgNoStart field))
  else
    match expectedLoop with
    | Some expected =>
        if negb (expected =? fieldName) then
          Ok (addWarning st (msgMismatch field expected))
        else Ok (leave st)
    | None => Ok (addWarning st (msgMismatch field "undefined"))
    end.

(** A regular field placeholder. *)
Definition plainField (data : json) (field : string) (st : State) : result State :=
  let currentContext := top (contextStack st) in
  if isUndefined currentContext then Ok st
  else
    value <-
      (if includes field "."%char then getNestedValue currentContext field
       else if isObject currentContext then
         found <- hasProp field currentContext ;;
         if found then getProp currentContext field
         else getNestedValue (Val data) field
       else getNestedValue (Val data) field) ;;
    if isUndefined value then
      if Nat.ltb 0 (List.length (loopStack st)) then
        if isObject currentContext then
          found <- hasProp field currentContext ;;
          if negb found then
            Ok (addIssue st
                  (msgNotInLoop field
                     (match topName (loopStack st) with
                      | Some loopName => loopName
                      | None => "undefined"
                      end)))
          else Ok st
        else Ok st
      else
        rootValue <- getNestedValue (Val data) field ;;
        if isUndefined rootValue then Ok (addIssue st (msgNoData field))
        else Ok st
    else if isNull value then Ok (addWarning st (msgNull field))
    else Ok st.

(** The body of [placeholders.forEach((placeholder) => ...)]. *)
Definition visit (data : json) (placeholder : Placeholder) (st : State)
  : result State :=
  let field := field placeholder in
  if startsWith field "#"%char then openMarker field st
  else if startsWith field "/"%char then closeMarker field st
  else plainField data field st.

Definition initialState (data : json) : State :=
  mkState [Val data] [] [] [].

(** The check for unclosed loops after the scan. *)
Definition reportUnclosed (st : State) : list string :=
  if Nat.ltb 0 (List.length (loopStack st)) then
    fold_left (fun ws loopName => push ws (msgUnclosed loopName))
      (loopStack st) (warningsSoFar st)
  else warningsSoFar st.

Definition validateTemplate (documentText : string) (data : json) : result Report :=
  let placeholders := scanPlaceholders documentText in
  if Nat.eqb (List.length placeholders) 0 then
    Ok (mkReport [] [msgNoPlaceholders] 0)
  else
    st <- forEach (visit data) placeholders (initialState data) ;;
    Ok (mkReport (issuesSoFar st) (reportUnclosed st) (List.length placeholders)).

(** ** insertFieldAtCursor *)

(** The text [insertFieldAtCursor] hands to the editor:
    [field.placeholder || `{{${field.name}}}`]. *)
Definition insertedText (f : Field) : string :=
  if truthy (Val (JStr (placeholder f))) then placeholder f
  else "{{" ++ name f ++ "}}".


(** ** extractTextFromSections *)

(** String concatenation converts its operand with ToString.  The decimal
    rendering of numbers is the runtime's; it is a parameter here. *)
Section TextExtraction.
Local Open Scope string_scope.
Variable numberToString : Q -> string.

(** ToString of a JSON value.  An array joins the conversions of its
    elements with commas, with nothing for [null].  An object is converted
    by its [valueOf] and [toString] methods: those of [Object.prototype]
    give [[object Object]], unless the object has a [toString] property of
    its own, which hides the inherited method and, being data, cannot be
    called; then no conversion is left and a TypeError is thrown. *)
Fixpoint toStringJs (j : json) : result string :=
  match j with
  | JNull => Ok "null"
  | JBool true => Ok "true"
  | JBool false => Ok "false"
  | JNum n => Ok (numberToString n)
  | JStr s => Ok s
  | JArr items =>
      parts <-
        (fix convert (l : list json) : result (list string) :=
           match l with
           | [] => Ok []
           | x :: rest =>
               part <- match x with
                       | JNull => Ok ""
                       | _ => toStringJs x
                       end ;;
               parts <- convert rest ;;
               Ok (part :: parts)
           end) items ;;
      Ok (String.concat "," parts)
  | JObj _ =>
      if isUndefined (ownProp j "toString") then Ok "[object Object]"
      else Throw TypeError
  end.

Definition toStringValue (v : value) : result string :=
  match v with
  | Undefined => Ok "undefined"
  | Val j => toStringJs j
  end.

(** The elements of an array; nothing for any other value. *)
Definition itemsOf (v : value) : list json :=
  match v with
  | Val (JArr items) => items
  | _ => []
  end.

(** [v === s] for a string literal [s] *)
Definition strictEquals (v : value) (s : string) : bool :=
  match v with
  | Val (JStr s') => s' =? s
  | _ => false
  end.

Definition newline : string := String "010"%char EmptyString.

Definition pageBreak : string :=
  newline ++ newline ++ "--- PAGE BREAK ---" ++ newline ++ newline.

(** The callback over the inline elements of a paragraph. *)
Definition addInline (inline : json) (paragraphText : string) : result string :=
  type1 <- getProp (Val inline) "type" ;;
  isRun <- (if strictEquals type1 "r"
            then text <- getProp (Val inline) "text" ;; Ok (truthy text)
            else Ok false) ;;
  if isRun then
    text <- getProp (Val inline) "text" ;;
    converted <- toStringValue text ;;
    Ok (paragraphText ++ converted)
  else
    type2 <- getProp (Val inline) "type" ;;
    if strictEquals type2 "break/line" then Ok (paragraphText ++ newline)
    else
      type3 <- getProp (Val inline) "type" ;;
      if strictEquals type3 "break/page" then Ok (paragraphText ++ pageBreak)
      else Ok paragraphText.

(** The callback over the elements of a section. *)
Definition addElement (element : json) (extractedText : string) : result string :=
  type1 <- getProp (Val element) "type" ;;
  if strictEquals type1 "p" then
    inlines <- getProp (Val element) "elements" ;;
    paragraphText <-
      (if isArray inlines then forEach addInline (itemsOf inlines) ""
       else Ok "") ;;
    Ok ((extractedText ++ paragraphText) ++ newline)
  else Ok extractedText.

(** The callback over the sections. *)
Definition addSection (section : json) (extractedText : string) : result string :=
  elements <- getProp (Val section) "elements" ;;
  if isArray elements then forEach addElement (itemsOf elements) extractedText
  else Ok extractedText.

Definition extractTextFromSections (sections : value) : result string :=
  if negb (isArray sections) then Ok ""
  else forEach addSection (itemsOf sections) "".

(** ** The document text in handleGenerateDocument *)

(** [v?.k] *)
Definition optionalProp (v : value) (k : string) : result value :=
  if isNull v || isUndefined v then Ok Undefined else getProp v k.

(** [docObj?.container?.document?.body?.sections] *)
Definition optionalSections (docObj : value) : result value :=
  container <- optionalProp docObj "container" ;;
  document <- optionalProp container "document" ;;
  body <- optionalProp document "body" ;;
  optionalProp body "sections".

(** The text handed to the validator: the extraction of
    [docObj.container.document.body.sections] when the optional chain is
    truthy, the empty string otherwise. *)
Definition documentTextOf (docObj : value) : result string :=
  present <- optionalSections docObj ;;
  if truthy present then
    container <- getProp docObj "container" ;;
    document <- getProp container "document" ;;
    body <- getProp document "body" ;;
    sections <- getProp body "sections" ;;
    extractTextFromSections sections
  else Ok "".

(** Extraction and validation as [handleGenerateDocument] chains them. *)
Definition validateDocument (docObj : value) (data : json) : result Report :=
  documentText <- documentTextOf docObj ;;
  validateTemplate documentText data.

End TextExtraction.


(** ** File names: handleFileChange and the export handlers *)

(** [toLowerCase] on the code units below 256: the letters A-Z and the
    accented capitals U+00C0-U+00DE other than the multiplication sign. *)
Definition toLowerChar (c : ascii) : ascii :=
  let n := nat_of_ascii c in
  if (Nat.leb 65 n && Nat.leb n 90)
     || (Nat.leb 192 n && Nat.leb n 222 && negb (Nat.eqb n 215))
  then ascii_of_nat (n + 32)
  else c.

Fixpoint toLowerCase (s : string) : string :=
  match s with
  | EmptyString => EmptyString
  | String c rest => String (toLowerChar c) (toLowerCase rest)
  end.

(** [file.name.split(".").pop().toLowerCase()] *)
Definition fileExtension (fileName : string) : string :=
  toLowerCase (last (split_dot fileName) EmptyString).

(** How [handleFileChange] treats a file of the given name. *)
Inductive ImportKind : Type :=
| ImportDocx
| ImportDocJson
| ImportRefused.

Definition importKind (fileName : string) : ImportKind :=
  let fileExtension := fileExtension fileName in
  if fileExtension =? "docx" then ImportDocx
  else if (fileExtension =? "json") || (fileExtension =? "docjson")
       then ImportDocJson
       else ImportRefused.

(** [s.replace(/:/g, "-")] *)
Fixpoint replaceColons (s : string) : string :=
  match s with
  | EmptyString => EmptyString
  | String c rest =>
      String (if Ascii.eqb c ":"%char then "-"%char else c) (replaceColons rest)
  end.

(** [isoString.slice(0, 19).replace(/:/g, "-")], where [isoString] is what
    [new Date().toISOString()] returned. *)
Definition timestampOf (isoString : string) : string :=
  replaceColons (substring 0 19 isoString).

(** [`nutrient-document-${timestamp}.${extension}`] for the extensions
    [docjson], [pdf] and [docx] of the three export handlers. *)
Definition exportFilename (extension isoString : string) : string :=
  ("nutrient-document-" ++ timestampOf isoString ++ "." ++ extension)%string.

(** ** The data source of the template designer *)

(** The [dataSource] state: [type], [data] ([null] when none is loaded) and
    the [filename] of [config], when there is one. *)
Record DataSource : Type := mkDataSource {
  sourceType : string;
  sourceData : json;
  sourceFilename : option string
}.

(** The state the data source handlers write. *)
Record Designer : Type := mkDesigner {
  templateFields : list Field;
  dataSource : DataSource;
  showConfigModal : bool
}.

Definition initialDesigner : Designer :=
  mkDesigner [] (mkDataSource "none" JNull None) false.

(** The body of the [try] blocks that load JSON data: extract the fields,
    then set both states.  [loaded] is the outcome of reading and parsing
    (a rejected fetch or a parse error is a [Throw]); any throw is caught and
    leaves the state as it was. *)
Definition loadData (kind filename : string) (loaded : result json)
  (d : Designer) : Designer :=
  match loaded with
  | Ok jsonData =>
      match extractFieldsFromJson jsonData with
      | Ok fields =>
          mkDesigner fields (mkDataSource kind jsonData (Some filename))
            (showConfigModal d)
      | Throw _ => d
      end
  | Throw _ => d
  end.

(** [handleJsonFileChange], for a chosen file. *)
Definition handleJsonFileChange (filename : string) (loaded : result json)
  (d : Designer) : Designer :=
  loadData "json-file" filename loaded d.

(** [loadStaticJson] *)
Definition loadStaticJson (filename : string) (loaded : result json)
  (d : Designer) : Designer :=
  loadData "json-static" filename loaded d.

(** [handleDataSourceChange]: [prompted] is what the prompt for a file name
    returned ([None] when it was cancelled), [loaded] the outcome of loading
    that file. *)
Definition handleDataSourceChange (type : string) (prompted : option string)
  (loaded : result json) (d : Designer) : Designer :=
  if type =? "json-file" then d
  else if type =? "json-static" then
    match prompted with
    | Some filename =>
        if truthy (Val (JStr filename)) then loadStaticJson filename loaded d
        else d
    | None => d
    end
  else if (type =? "api") || (type =? "database") then
    mkDesigner (templateFields d) (dataSource d) true
  else
    mkDesigner [] (mkDataSource "none" JNull None) (showConfigModal d).


(** * Vocabulary of the properties *)

(** Structural induction on JSON values, with the elements of an array and
    the property values of an object as the smaller values. *)
Section JsonInduction.
Variable P : json -> Prop.
Hypothesis P_null : P JNull.
Hypothesis P_bool : forall b, P (JBool b).
Hypothesis P_num : forall n, P (JNum n).
Hypothesis P_str : forall s, P (JStr s).
Hypothesis P_arr : forall items, (forall x, In x items -> P x) -> P (JArr items).
Hypothesis P_obj :
  forall props, (forall k v, In (k, v) props -> P v) -> P (JObj props).

Fixpoint json_ind (j : json) : P j :=
  match j with
  | JNull => P_null
  | JBool b => P_bool b
  | JNum n => P_num n
  | JStr s => P_str s
  | JArr items =>
      P_arr items
        ((fix elems (l : list json) : forall x, In x l -> P x :=
            match l with
            | [] => fun x (H : In x []) => match H with end
            | y :: l' =>
                fun x (H : In x (y :: l')) =>
                  match H with
                  | or_introl e => eq_ind y P (json_ind y) x e
                  | or_intror H' => elems l' x H'
                  end
            end) items)
  | JObj props =>
      P_obj props
        ((fix vals (l : list (string * json))
            : forall k v, In (k, v) l -> P v :=
            match l with
            | [] => fun k v (H : In (k, v) []) => match H with end
            | kv :: l' =>
                fun k v (H : In (k, v) (kv :: l')) =>
                  match H with
                  | or_introl e =>
                      eq_ind (snd kv) P (json_ind (snd kv)) v
                        (f_equal snd e)
                  | or_intror H' => vals l' k v H'
                  end
            end) props)
  end.
End JsonInduction.

(** The values [processValue] is called on when it walks [j]. *)
Definition children (j : json) : list json :=
  match j with
  | JArr items => items
  | JObj props => map snd props
  | _ => []
  end.

(** No array inside [j], nor [j] itself, has [null] as its first element. *)
Fixpoint noNullHead (j : json) : bool :=
  match j with
  | JArr items =>
      match items with
      | JNull :: _ => false
      | _ => true
      end
      && forallb noNullHead items
  | JObj props => forallb (fun kv => noNullHead (snd kv)) props
  | _ => true
  end.

(** A call of [processValue] on [v] returns. *)
Definition returns (v : json) : Prop :=
  forall key parentPath lvl fs,
    exists fs', processValue v key parentPath lvl fs = Ok fs'.

(** [hay] contains [needle]. *)
Fixpoint contains (hay needle : string) : bool :=
  String.prefix needle hay
  || match hay with
     | EmptyString => false
     | String _ rest => contains rest needle
     end.

(** *** Scope markers among the descriptors *)

(** The prefix a descriptor of the given type carries in front of its path. *)
Definition marker (t : FieldType) : string :=
  match t with
  | Simple | ArraySimple => ""
  | LoopStart | ObjectStart => "#"
  | LoopEnd | ObjectEnd => "/"
  end.

(** The path of a descriptor: its name without the marker. *)
Definition pathOf (f : Field) : string :=
  match type f with
  | Simple | ArraySimple => name f
  | _ => substring1 (name f)
  end.

(** [closes t t'] : an end descriptor of type [t'] closes a start of type [t]. *)
Definition closes (t t' : FieldType) : bool :=
  match t, t' with
  | LoopStart, LoopEnd => true
  | ObjectStart, ObjectEnd => true
  | _, _ => false
  end.

(** The stack-based bracket matcher: a start descriptor pushes its type and
    path; an end descriptor must find a start of the matching type and the
    same path on top and pops it.  [None] is an underflow or a mismatch;
    otherwise the result is the stack left at the end. *)
Fixpoint matchBrackets (stack : list (FieldType * string)) (fs : list Field)
  : option (list (FieldType * string)) :=
  match fs with
  | [] => Some stack
  | f :: rest =>
      match type f with
      | Simple | ArraySimple => matchBrackets stack rest
      | LoopStart | ObjectStart => matchBrackets ((type f, pathOf f) :: stack) rest
      | LoopEnd | ObjectEnd =>
          match stack with
          | (t, p) :: stack' =>
              if closes t (type f) && (p =? pathOf f)
              then matchBrackets stack' rest
              else None
          | [] => None
          end
      end
  end.

(** Well-nested descriptor sequences: a start descriptor at path [p] is
    followed by a well-nested body and then by the end descriptor of the
    matching type for the same [p]. *)
Inductive WellNested : list Field -> Prop :=
| WN_nil : WellNested []
| WN_leaf f rest :
    marker (type f) = "" -> WellNested rest -> WellNested (f :: rest)
| WN_scope s e (p : string) body rest :
    closes (type s) (type e) = true ->
    name s = ("#" ++ p)%string -> name e = ("/" ++ p)%string ->
    WellNested body -> WellNested rest ->
    WellNested (s :: body ++ e :: rest).

(** The shape of what one call [processValue value key parentPath indentLevel]
    appends, whatever the value: one descriptor, or a start descriptor, the
    output of the calls on the children, and the end descriptor. *)
Inductive Emitted : string -> string -> nat -> list Field -> Prop :=
| Em_leaf key parentPath lvl t :
    marker t = "" ->
    Emitted key parentPath lvl
      [mkField (joinPath parentPath key) (repeat_str "  " lvl ++ key)%string
         ("{{" ++ key ++ "}}")%string lvl t]
| Em_scope key parentPath lvl childPath t t' l l' body :
    closes t t' = true ->
    EmittedAll childPath (S lvl) body ->
    Emitted key parentPath lvl
      (mkField ("#" ++ joinPath parentPath key)%string l
         ("{{#" ++ key ++ "}}")%string lvl t
         :: body
         ++ [mkField ("/" ++ joinPath parentPath key)%string l'
               ("{{/" ++ key ++ "}}")%string lvl t'])
with EmittedAll : string -> nat -> list Field -> Prop :=
| EmAll_nil parentPath lvl : EmittedAll parentPath lvl []
| EmAll_cons key parentPath lvl out rest :
    Emitted key parentPath lvl out ->
    EmittedAll parentPath lvl rest ->
    EmittedAll parentPath lvl (out ++ rest).

Scheme Emitted_mut := Induction for Emitted Sort Prop
  with EmittedAll_mut := Induction for EmittedAll Sort Prop.

(** What a call of [processValue] on [v] appends. *)
Definition appendsEmitted (v : json) : Prop :=
  forall key parentPath lvl fs fs',
    processValue v key parentPath lvl fs = Ok fs' ->
    exists out, fs' = fs ++ out /\ Emitted key parentPath lvl out.

(** *** The placeholder grammar *)

(** [s] is a placeholder: two opening braces, one or more characters other
    than a closing brace, two closing braces. *)
Definition isPlaceholder (s : string) : Prop :=
  exists inner,
    s = ("{{" ++ inner ++ "}}")%string /\ inner <> "" /\ includes inner "}"%char = false.

(** [documentText] has a substring that is a placeholder. *)
Definition hasPlaceholder (documentText : string) : Prop :=
  exists before p after,
    documentText = (before ++ p ++ after)%string /\ isPlaceholder p.

(** *** Vocabulary for the scan and the validator state *)

(** The placeholders lie one after the other from offset [from] on: each
    starts at or after the end of the one before. *)
Fixpoint inOrderFrom (from : nat) (ps : list Placeholder) : Prop :=
  match ps with
  | [] => True
  | p :: rest =>
      from <= position p
      /\ inOrderFrom (position p + String.length (full p)) rest
  end.

(** The two stacks of the validator move together: the context stack holds
    the data and one context per open scope. *)
Definition aligned (st : State) : Prop :=
  List.length (contextStack st) = S (List.length (loopStack st)).

(** [v === null || v === undefined] *)
Definition nullish (v : value) : bool := isNull v || isUndefined v.


(** *** The descriptor of a key *)

(** What the palette shows for a descriptor of type [t] of the key [key]. *)
Definition labelText (t : FieldType) (key : string) : string :=
  match t with
  | Simple | ArraySimple => key
  | LoopStart => key ++ " (Loop Start)"
  | LoopEnd => key ++ " (Loop End)"
  | ObjectStart => key ++ " (Object Start)"
  | ObjectEnd => key ++ " (Object End)"
  end.

(** The descriptor of type [t] for the key [key] below [parentPath] at
    nesting level [lvl]. *)
Definition descriptorOf (key parentPath : string) (lvl : nat) (t : FieldType)
  : Field :=
  mkField (marker t ++ joinPath parentPath key)
    (repeat_str "  " lvl ++ labelText t key)
    ("{{" ++ marker t ++ key ++ "}}") lvl t.


(** *** Templates built from the palette *)

(** A key that reads back from its placeholder as itself and names one
    property: not empty, not [model], without dot or closing brace, not
    starting like a scope marker, without white space at either end. *)
Definition tidyKey (k : string) : bool :=
  negb (k =? "") && negb (k =? "model")
  && negb (includes k "."%char) && negb (includes k "}"%char)
  && negb (startsWith k "#"%char) && negb (startsWith k "/"%char)
  && (trimStart k =? k) && (trimEnd k =? k).

Fixpoint distinct (ks : list string) : bool :=
  match ks with
  | [] => true
  | k :: rest => negb (existsb (String.eqb k) rest) && distinct rest
  end.

(** Data whose objects have distinct tidy keys and whose arrays do not start
    with [null]. *)
Fixpoint tidy (j : json) : bool :=
  match j with
  | JObj props =>
      distinct (map fst props)
      && forallb (fun kv => tidyKey (fst kv) && tidy (snd kv)) props
  | JArr items =>
      match items with
      | JNull :: _ => false
      | _ => true
      end
      && forallb tidy items
  | _ => true
  end.

(** What the scan reads back as the field of the placeholder of [f]: the
    text between the braces, trimmed. *)
Definition tokenField (f : Field) : string :=
  trim (substring 2 (String.length (placeholder f) - 4) (placeholder f)).

(** The placeholder of [f] as the validator sees it. *)
Definition asPlaceholder (f : Field) : Placeholder :=
  mkPlaceholder (placeholder f) (tokenField f) 0.

(** The template that holds the placeholders of the palette in their order,
    with [sep] between them. *)
Definition paletteTemplate (sep : string) (fields : list Field) : string :=
  String.concat sep (map placeholder fields).

(** [st'] differs from [st] by warnings about null values only. *)
Definition onlyNullWarnings (st st' : State) : Prop :=
  contextStack st' = contextStack st
  /\ loopStack st' = loopStack st
  /\ issuesSoFar st' = issuesSoFar st
  /\ exists ws,
       warningsSoFar st' = warningsSoFar st ++ ws
       /\ Forall (fun w => exists fld, w = msgNull fld) ws.

(** The property [key] of the context [ctx] is [v], and lookups in [ctx] are
    not diverted to a [model] property. *)
Definition holds (ctx : json) (key : string) (v : json) : Prop :=
  isObject (Val ctx) = true
  /\ hasProp key (Val ctx) = Ok true
  /\ ownProp ctx key = Val v
  /\ isObject (ownProp ctx "model") = false.


(** A string of decimal digits. *)
Fixpoint digits (s : string) : bool :=
  match s with
  | EmptyString => true
  | String c rest =>
      Nat.leb 48 (nat_of_ascii c) && Nat.leb (nat_of_ascii c) 57 && digits rest
  end.

(** The placeholder of [f] is a token the scan finds: braces around a
    non-empty text without a closing brace. *)
Definition tokenOk (f : Field) : Prop :=
  exists inner,
    placeholder f = ("{{" ++ inner ++ "}}")%string
    /\ inner <> ""
    /\ includes inner "}"%char = false.

(** Walking [v] as the property [key] of the current context appends
    descriptors whose placeholders the validator passes, in their order,
    without an issue and back to the stacks it started with. *)
Definition validatesInPlace (data v : json) : Prop :=
  forall key parentPath lvl fs fs' ctx st,
    processValue v key parentPath lvl fs = Ok fs' ->
    tidyKey key = true ->
    top (contextStack st) = Val ctx ->
    holds ctx key v ->
    exists out st',
      fs' = fs ++ out
      /\ Forall tokenOk out
      /\ forEach (visit data) (map asPlaceholder out) st = Ok st'
      /\ onlyNullWarnings st st'.


(** *** Documents whose nodes are all present *)

(** ToString of [j] returns: neither [j] nor, through arrays, an element of
    it other than [null] is an object with a [toString] property of its
    own. *)
Fixpoint convertible (j : json) : bool :=
  match j with
  | JArr items => forallb convertible items
  | JObj _ => isUndefined (ownProp j "toString")
  | _ => true
  end.

(** The text that the inline element [i] adds by string concatenation: the
    [text] of a run when it is truthy. *)
Definition runText (i : json) : option json :=
  if strictEquals (ownProp i "type") "r" && truthy (ownProp i "text")
  then match ownProp i "text" with
       | Val text => Some text
       | Undefined => None
       end
  else None.

(** The inline element [i] is not [null], and the text it adds converts to
    a string. *)
Definition inlinePresent (i : json) : bool :=
  negb (isNull (Val i))
  && match runText i with
     | Some text => convertible text
     | None => true
     end.

(** Every inline element of the paragraph [e] is present. *)
Definition inlinesPresent (e : json) : bool :=
  forallb inlinePresent (itemsOf (ownProp e "elements")).

(** The element [e] is not [null], and every inline element of it is present
    if it is a paragraph. *)
Definition elementPresent (e : json) : bool :=
  negb (isNull (Val e))
  && (if strictEquals (ownProp e "type") "p" then inlinesPresent e else true).

Definition sectionPresent (s : json) : bool :=
  negb (isNull (Val s))
  && forallb elementPresent (itemsOf (ownProp s "elements")).

(** No section, no element of a section and no inline element of a
    paragraph is [null], and the text of every run converts to a string. *)
Definition nodesPresent (sections : value) : bool :=
  forallb sectionPresent (itemsOf sections).

(** [s] occurs in [t]. *)
Definition occursIn (s t : string) : Prop :=
  exists before after, t = (before ++ s ++ after)%string.


(** [v?.k] as a value: the property when [v] is an object, [undefined]
    when [v] is [null] or [undefined]. *)
Definition readOptional (v : value) (k : string) : value :=
  match v with
  | Undefined => Undefined
  | Val JNull => Undefined
  | Val j => ownProp j k
  end.

(** [run] is a text run with the text [s] in a paragraph of a section of
    [sections]. *)
Definition runIn (sections : value) (run : json) (s : string) : Prop :=
  exists section paragraph,
    In section (itemsOf sections)
    /\ In paragraph (itemsOf (ownProp section "elements"))
    /\ strictEquals (ownProp paragraph "type") "p" = true
    /\ In run (itemsOf (ownProp paragraph "elements"))
    /\ strictEquals (ownProp run "type") "r" = true
    /\ ownProp run "text" = Val (JStr s).


(** *** The shape of the data *)

(** The keys and the nesting of [j]: every scalar other than [null] becomes
    [true], and an array keeps its first element only (with all the elements
    of that first element when it is an array itself, since they are its
    properties). *)
Fixpoint shapeOf (j : json) : json :=
  match j with
  | JNull => JNull
  | JBool _ | JNum _ | JStr _ => JBool true
  | JArr items =>
      match items with
      | [] => JArr []
      | JArr elems :: _ => JArr [JArr (map shapeOf elems)]
      | first :: _ => JArr [shapeOf first]
      end
  | JObj props => JObj (map (fun kv => (fst kv, shapeOf (snd kv))) props)
  end.

(** *** Events of the template designer *)

(** What happens to the data source: a JSON file is chosen, the default
    data arrives after start-up, or the source type is changed. *)
Inductive DesignerEvent : Type :=
| JsonFileChosen (filename : string) (loaded : result json)
| DefaultDataLoaded (loaded : result json)
| SourceTypeChosen (type : string) (prompted : option string)
    (loaded : result json).

Definition handleEvent (d : Designer) (e : DesignerEvent) : Designer :=
  match e with
  | JsonFileChosen filename loaded => handleJsonFileChange filename loaded d
  | DefaultDataLoaded loaded => loadData "json-static" "invoice.json" loaded d
  | SourceTypeChosen type prompted loaded =>
      handleDataSourceChange type prompted loaded d
  end.

(** The palette is the one extracted from the loaded data. *)
Definition paletteCurrent (d : Designer) : Prop :=
  extractFieldsFromJson (sourceData (dataSource d)) = Ok (templateFields d).


(** *** The walk of the data *)

(** The elements of an array as its properties: the index is the key. *)
Fixpoint indexed (i : nat) (elems : list json) : list (string * json) :=
  match elems with
  | [] => []
  | x :: rest => (string_of_nat i, x) :: indexed (S i) rest
  end.

(** [Object.keys(j)] with the values: the properties of an object in their
    order, the elements of an array and the characters of a string by index,
    nothing for a number or a boolean.  There are none for [null], on which
    [Object.keys] throws. *)
Definition entriesOf (j : json) : option (list (string * json)) :=
  match j with
  | JNull => None
  | JObj props => Some props
  | JArr elems => Some (indexed 0 elems)
  | JStr s =>
      Some (indexed 0 (map (fun c => JStr (String c "")) (list_ascii_of_string s)))
  | _ => Some []
  end.

(** The type of the one descriptor of a value that opens no scope: a scalar,
    [null], the empty array, an array that starts with a scalar. *)
Definition leafType (v : json) : option FieldType :=
  match v with
  | JObj _ => None
  | JArr [] => Some ArraySimple
  | JArr (firstItem :: _) =>
      if typeof (Val firstItem) =? "object" then None else Some ArraySimple
  | _ => Some Simple
  end.

(** The scope a value opens as the property [key] below [parentPath]: the
    types of its start and end descriptors, the object whose properties are
    walked inside the scope (the object itself, the first element of an
    array), and the parent path handed to them (the path of the object, the
    key alone of the array). *)
Definition scopeOf (v : json) (key parentPath : string)
  : option (FieldType * FieldType * json * string) :=
  match v with
  | JObj _ => Some (ObjectStart, ObjectEnd, v, joinPath parentPath key)
  | JArr (firstItem :: _) =>
      if typeof (Val firstItem) =? "object"
      then Some (LoopStart, LoopEnd, firstItem, key)
      else None
  | _ => None
  end.

(** The types of the descriptors of a value. *)
Definition descriptorTypes (v : json) : list FieldType :=
  match leafType v, scopeOf v "" "" with
  | Some t, _ => [t]
  | None, Some (t, t', _, _) => [t; t']
  | None, None => []
  end.

(** [Walk v key parentPath lvl out]: [out] is the descriptor sequence of the
    value [v] held by the property [key] below [parentPath] at level [lvl].
    It is the one descriptor of a value that opens no scope; for a value that
    opens a scope it is the start descriptor, then the sequences of all the
    properties walked inside the scope, one after the other in their order
    and one level deeper, then the end descriptor of the same key and path,
    and nothing else.  [WalkAll entries parentPath lvl out]: [out] is the
    sequences of the properties [entries], one after the other. *)
Inductive Walk : json -> string -> string -> nat -> list Field -> Prop :=
| Walk_leaf v key parentPath lvl t :
    leafType v = Some t ->
    Walk v key parentPath lvl [descriptorOf key parentPath lvl t]
| Walk_scope v key parentPath lvl t t' obj childPath entries body :
    scopeOf v key parentPath = Some (t, t', obj, childPath) ->
    entriesOf obj = Some entries ->
    WalkAll entries childPath (S lvl) body ->
    Walk v key parentPath lvl
      (descriptorOf key parentPath lvl t
         :: body ++ [descriptorOf key parentPath lvl t'])
with WalkAll : list (string * json) -> string -> nat -> list Field -> Prop :=
| WalkAll_nil parentPath lvl : WalkAll [] parentPath lvl []
| WalkAll_cons key v rest parentPath lvl out outs :
    Walk v key parentPath lvl out ->
    WalkAll rest parentPath lvl outs ->
    WalkAll ((key, v) :: rest) parentPath lvl (out ++ outs).

Scheme Walk_mut := Induction for Walk Sort Prop
  with WalkAll_mut := Induction for WalkAll Sort Prop.

(** The properties the extractor walks at level 0: those of the first
    element of a root array when that is an object, those of the [model]
    property of a root object when that is an object, else those of the root
    object itself; none for any other root. *)
Definition rootEntries (data : json) : option (list (string * json)) :=
  match data with
  | JArr (first :: _) =>
      if typeof (Val first) =? "object" then entriesOf first else Some []
  | JObj _ =>
      match ownProp data "model" with
      | Val m =>
          if truthy (Val m) && (typeof (Val m) =? "object")
          then entriesOf m
          else entriesOf data
      | Undefined => entriesOf data
      end
  | _ => Some []
  end.

(** [Reached entries parentPath lvl key v parent l]: the walk of the
    properties [entries] below [parentPath] at level [lvl] comes to the
    property [key] with the value [v], either among [entries] themselves or
    inside the scope that one of them opens; [parent] is the parent path and
    [l] the level the walk has there. *)
Inductive Reached
  : list (string * json) -> string -> nat -> string -> json -> string -> nat
    -> Prop :=
| Reached_here entries parentPath lvl key v :
    In (key, v) entries ->
    Reached entries parentPath lvl key v parentPath lvl
| Reached_inside entries parentPath lvl key0 v0 t t' obj childPath inner
    key v parent l :
    In (key0, v0) entries ->
    scopeOf v0 key0 parentPath = Some (t, t', obj, childPath) ->
    entriesOf obj = Some inner ->
    Reached inner childPath (S lvl) key v parent l ->
    Reached entries parentPath lvl key v parent l.

(** What a call of [processValue] on [v] appends is the walk of [v]. *)
Definition appendsWalk (v : json) : Prop :=
  forall key parentPath lvl fs fs',
    processValue v key parentPath lvl fs = Ok fs' ->
    exists out, fs' = fs ++ out /\ Walk v key parentPath lvl out.


(** * Checks on concrete inputs *)

Example scan_two_markers :
  scanPlaceholders "{{#a}}{{/b}}"
  = [mkPlaceholder "{{#a}}" "#a" 0; mkPlaceholder "{{/b}}" "/b" 6].
Proof. reflexivity. Qed.

Example scan_trims_and_skips :
  scanPlaceholders "x {{ a.b }} {} {{}} {{{c}}}"
  = [mkPlaceholder "{{ a.b }}" "a.b" 2; mkPlaceholder "{{{c}}" "{c" 20].
Proof. reflexivity. Qed.

Example validate_plain_field_in_missing_scope :
  validateTemplate "{{#a}}{{b}}{{/a}}" (JObj [])
  = Ok (mkReport [msgMissingLoop "#a" "a"] [] 3).
Proof. reflexivity. Qed.

Example validate_null_value :
  validateTemplate "{{a.b}} {{/c}}" (JObj [("a", JObj [("b", JNull)])])
  = Ok (mkReport [] [msgNull "a.b"; msgNoStart "/c"] 2).
Proof. reflexivity. Qed.

Example extract_loop :
  extractFieldsFromJson (JObj [("items", JArr [JObj [("n", JNum 1)]])])
  = Ok [mkField "#items" "items (Loop Start)" "{{#items}}" 0 LoopStart;
        mkField "items.n" "  n" "{{n}}" 1 Simple;
        mkField "/items" "items (Loop End)" "{{/items}}" 0 LoopEnd].
Proof. reflexivity. Qed.

Example extract_empty_array :
  extractFieldsFromJson (JObj [("items", JArr [])])
  = Ok [mkField "items" "items" "{{items}}" 0 ArraySimple].
Proof. reflexivity. Qed.

Example extract_object_in_object_keeps_path :
  exists fields,
    extractFieldsFromJson
      (JObj [("a", JObj [("b", JObj [("n", JNum 1)])])])
    = Ok fields
    /\ map name fields = ["#a"; "#a.b"; "a.b.n"; "/a.b"; "/a"].
Proof. eexists. split; reflexivity. Qed.

Example extract_model_unwrapped :
  extractFieldsFromJson (JObj [("model", JObj [("x", JNum 1)]); ("y", JNum 2)])
  = Ok [mkField "x" "x" "{{x}}" 0 Simple].
Proof. reflexivity. Qed.

Example extract_round_trip :
  extractFieldsFromJson
    (JObj [("a", JStr "x"); ("b", JObj [("c", JNum 1)])])
  = Ok [mkField "a" "a" "{{a}}" 0 Simple;
        mkField "#b" "b (Object Start)" "{{#b}}" 0 ObjectStart;
        mkField "b.c" "  c" "{{c}}" 1 Simple;
        mkField "/b" "b (Object End)" "{{/b}}" 0 ObjectEnd].
Proof. reflexivity. Qed.

(** * The validator on the examples of the specification *)

(** C8: on the text [{{foo}}] with the data [{}] the report has exactly one
    issue, which mentions [foo], no warnings, and placeholderCount 1. *)
Theorem C8_missing_root_field :
  validateTemplate "{{foo}}" (JObj [])
  = Ok (mkReport [msgNoData "foo"] [] 1)
  /\ contains (msgNoData "foo") "foo" = true.
Proof. split; reflexivity. Qed.

(** C9: on the text [{{#items}}{{name}}{{/items}}] with the data
    [{"items":[{"name":"x"}]}] the report has no issues, no warnings, and
    placeholderCount 3. *)
Theorem C9_loop_over_items :
  validateTemplate "{{#items}}{{name}}{{/items}}"
    (JObj [("items", JArr [JObj [("name", JStr "x")]])])
  = Ok (mkReport [] [] 3).
Proof. reflexivity. Qed.

(** C1: the validator does not always return a report.  A scope marker
    inside a scope whose data is missing reads a property of [undefined]:
    on the text [{{#a}}{{#b}}] with the data [{}] the call ends in a
    [TypeError]. *)
Theorem C1_open_marker_in_missing_scope_throws :
  validateTemplate "{{#a}}{{#b}}" (JObj []) = Throw TypeError.
Proof. reflexivity. Qed.

(** * getNestedValue *)

Lemma truthy_object (v : value) :
  truthy v && (typeof v =? "object") = isObject v.
Proof. destruct v as [|[]]; simpl; try reflexivity; now rewrite andb_false_r. Qed.

(** The descent guards every property read, so it never throws. *)
Lemma descend_returns (keys : list string) :
  forall current, exists v, descend keys current = Ok v.
Proof.
  induction keys as [|key rest IH]; intros current; simpl.
  - now exists current.
  - destruct current as [|j]; simpl; [now exists Undefined|].
    destruct j; simpl; try apply IH.
    now exists Undefined.
Qed.

(** On anything but [null] and [undefined] the lookup returns. *)
Lemma getNestedValue_returns (j : json) (path : string) :
  j <> JNull -> exists v, getNestedValue (Val j) path = Ok v.
Proof.
  intros Hj. unfold getNestedValue.
  destruct j; try congruence; simpl; apply descend_returns.
Qed.

(** C5 as stated fails: when [data.model] has an object [model] property of
    its own, the lookup through [data.model] unwraps a second time. *)
Lemma C5_counterexample :
  ~ (forall (data m : json) (x : string),
        ownProp data "model" = Val m ->
        isObject (Val m) = true ->
        getNestedValue (Val data) x = getNestedValue (Val m) x).
Proof.
  intros H.
  specialize
    (H (JObj [("model", JObj [("model", JObj [("x", JNum 1)]); ("x", JNum 2)])])
       (JObj [("model", JObj [("x", JNum 1)]); ("x", JNum 2)])
       "x" eq_refl eq_refl).
  vm_compute in H. discriminate H.
Qed.

(** C5, amended: when [data.model] is an object that has no object [model]
    property of its own, [getNestedValue(data, x)] equals
    [getNestedValue(data.model, x)] for every path [x]. *)
Theorem C5_model_unwrapping_transparent (data m : json) (x : string) :
  ownProp data "model" = Val m ->
  isObject (Val m) = true ->
  isObject (ownProp m "model") = false ->
  getNestedValue (Val data) x = getNestedValue (Val m) x.
Proof.
  intros Hmodel Hobj Hinner.
  assert (Hdata : getProp (Val data) "model" = Ok (Val m)).
  { destruct data; simpl in *; try discriminate; now rewrite Hmodel. }
  assert (Hm : getProp (Val m) "model" = Ok (ownProp m "model")).
  { destruct m; simpl in *; try discriminate; reflexivity. }
  unfold getNestedValue.
  rewrite Hdata, Hm. cbn [bind].
  now rewrite !truthy_object, Hobj, Hinner.
Qed.

Lemma C5_model_unwrapping_transparent_witness :
  getNestedValue
    (Val (JObj [("model", JObj [("address", JObj [("city", JStr "Oslo")])])]))
    "address.city"
  = getNestedValue (Val (JObj [("address", JObj [("city", JStr "Oslo")])]))
      "address.city".
Proof.
  apply C5_model_unwrapping_transparent; reflexivity.
Defined.

(** * The validator: mismatched close marker *)

Lemma openMarker_enters (data : json) (field : string) :
  data <> JNull ->
  exists st ctx,
    openMarker field (initialState data) = Ok st
    /\ contextStack st = [Val data; ctx]
    /\ loopStack st = [substring1 field].
Proof.
  intros Hdata. unfold openMarker. cbn [initialState contextStack top last].
  destruct (getNestedValue_returns data (substring1 field) Hdata) as [v ->].
  cbn [bind].
  destruct (isUndefined v); [|destruct (isArray v); [|destruct (isObject v)]];
    eexists; eexists; (split; [reflexivity|split; reflexivity]).
Qed.

(** C6: for data that is an object or an array, on the text [{{#a}}{{/b}}]
    the close marker adds the mismatch warning and leaves both stacks as they
    were, and the report ends with the never-closed warning for [a]. *)
Theorem C6_mismatched_close_marker (data : json) :
  isObject (Val data) = true ->
  exists st1 st2,
    scanPlaceholders "{{#a}}{{/b}}"
    = [mkPlaceholder "{{#a}}" "#a" 0; mkPlaceholder "{{/b}}" "/b" 6]
    /\ visit data (mkPlaceholder "{{#a}}" "#a" 0) (initialState data) = Ok st1
    /\ visit data (mkPlaceholder "{{/b}}" "/b" 6) st1 = Ok st2
    /\ loopStack st1 = ["a"]
    /\ contextStack st2 = contextStack st1
    /\ loopStack st2 = loopStack st1
    /\ issuesSoFar st2 = issuesSoFar st1
    /\ warningsSoFar st2 = warningsSoFar st1 ++ [msgMismatch "/b" "a"]
    /\ validateTemplate "{{#a}}{{/b}}" data
       = Ok (mkReport (issuesSoFar st2)
               (warningsSoFar st2 ++ [msgUnclosed "a"]) 2).
Proof.
  intros Hobj.
  assert (Hdata : data <> JNull) by (intros ->; discriminate Hobj).
  destruct (openMarker_enters data "#a" Hdata) as (st1 & ctx & Hopen & Hctx & Hloop).
  cbn [substring1] in Hloop.
  assert (Hclose :
            closeMarker "/b" st1 = Ok (addWarning st1 (msgMismatch "/b" "a"))).
  { unfold closeMarker. rewrite Hloop. reflexivity. }
  exists st1, (addWarning st1 (msgMismatch "/b" "a")).
  repeat split; try assumption; try reflexivity.
  unfold validateTemplate.
  change (scanPlaceholders "{{#a}}{{/b}}")
    with [mkPlaceholder "{{#a}}" "#a" 0; mkPlaceholder "{{/b}}" "/b" 6].
  cbn [List.length Nat.eqb forEach].
  change (visit data (mkPlaceholder "{{#a}}" "#a" 0) (initialState data))
    with (openMarker "#a" (initialState data)).
  rewrite Hopen.
  change (visit data (mkPlaceholder "{{/b}}" "/b" 6) st1)
    with (closeMarker "/b" st1).
  rewrite Hclose. cbn [bind].
  unfold reportUnclosed.
  cbn [addWarning loopStack warningsSoFar issuesSoFar].
  rewrite Hloop. reflexivity.
Qed.

Lemma C6_mismatched_close_marker_witness :
  exists st1 st2,
    scanPlaceholders "{{#a}}{{/b}}"
    = [mkPlaceholder "{{#a}}" "#a" 0; mkPlaceholder "{{/b}}" "/b" 6]
    /\ visit (JObj [("a", JArr [])]) (mkPlaceholder "{{#a}}" "#a" 0)
         (initialState (JObj [("a", JArr [])])) = Ok st1
    /\ visit (JObj [("a", JArr [])]) (mkPlaceholder "{{/b}}" "/b" 6) st1 = Ok st2
    /\ loopStack st1 = ["a"]
    /\ contextStack st2 = contextStack st1
    /\ loopStack st2 = loopStack st1
    /\ issuesSoFar st2 = issuesSoFar st1
    /\ warningsSoFar st2 = warningsSoFar st1 ++ [msgMismatch "/b" "a"]
    /\ validateTemplate "{{#a}}{{/b}}" (JObj [("a", JArr [])])
       = Ok (mkReport (issuesSoFar st2)
               (warningsSoFar st2 ++ [msgUnclosed "a"]) 2).
Proof.
  apply (C6_mismatched_close_marker (JObj [("a", JArr [])])). reflexivity.
Defined.

(** * The placeholder scan *)

Section Scan.
Local Open Scope string_scope.

Lemma append_assoc (a b c : string) : (a ++ b) ++ c = a ++ (b ++ c).
Proof. induction a as [|x a IH]; simpl; [reflexivity|now rewrite IH]. Qed.

Lemma length_append (a b : string) :
  String.length (a ++ b) = String.length a + String.length b.
Proof. induction a as [|x a IH]; simpl; [reflexivity|now rewrite IH]. Qed.

Lemma includes_append (a b : string) (c : ascii) :
  includes (a ++ b) c = includes a c || includes b c.
Proof.
  induction a as [|x a IH]; simpl; [reflexivity|].
  now rewrite IH, orb_assoc.
Qed.

(** [span_not_close] cuts the input at its first closing brace. *)
Lemma span_not_close_spec (s : string) :
  forall run tl,
    span_not_close s = (run, tl) ->
    s = run ++ tl
    /\ includes run "}"%char = false
    /\ (tl = "" \/ exists tl', tl = String "}"%char tl').
Proof.
  induction s as [|c s IH]; simpl; intros run tl H.
  - injection H as <- <-. auto.
  - destruct (Ascii.eqb_spec c "}"%char) as [->|Hc].
    + injection H as <- <-. simpl. eauto.
    + destruct (span_not_close s) as [run' tl'] eqn:E.
      injection H as <- <-.
      destruct (IH _ _ eq_refl) as (-> & Hrun & Htl).
      simpl. rewrite Hrun.
      destruct (Ascii.eqb_spec c "}"%char); [contradiction|auto].
Qed.

Lemma span_not_close_at_brace (run tl : string) :
  includes run "}"%char = false ->
  span_not_close (run ++ String "}"%char tl) = (run, String "}"%char tl).
Proof.
  induction run as [|c run IH]; simpl; intros H; [reflexivity|].
  apply orb_false_iff in H as [Hc Hrun].
  now rewrite Hc, (IH Hrun).
Qed.

(** An attempt at the start of [s] succeeds exactly when [s] starts with a
    placeholder, and then captures what stands between its braces. *)
Lemma match_here_sound (s group rest : string) :
  match_here s = Some (group, rest) ->
  s = "{{" ++ group ++ "}}" ++ rest
  /\ group <> ""
  /\ includes group "}"%char = false.
Proof.
  unfold match_here.
  destruct s as [|c1 [|c2 body]]; try discriminate.
  destruct (Ascii.eqb_spec c1 "{"%char) as [->|]; [|discriminate].
  destruct (Ascii.eqb_spec c2 "{"%char) as [->|]; [|discriminate].
  cbn [andb].
  destruct (span_not_close body) as [run tl] eqn:E.
  destruct (span_not_close_spec _ _ _ E) as (-> & Hrun & _).
  destruct run as [|c inner]; [discriminate|].
  destruct tl as [|d1 [|d2 tl]]; try discriminate.
  destruct (Ascii.eqb_spec d1 "}"%char) as [->|]; [|discriminate].
  destruct (Ascii.eqb_spec d2 "}"%char) as [->|]; [|discriminate].
  cbn [andb]. intros H. injection H as <- <-.
  split; [reflexivity|split; [discriminate|assumption]].
Qed.

Lemma match_here_complete (group rest : string) :
  group <> "" ->
  includes group "}"%char = false ->
  match_here ("{{" ++ group ++ "}}" ++ rest) = Some (group, rest).
Proof.
  intros Hne Hrun. simpl.
  change (group ++ String "}" (String "}" rest))
    with (group ++ String "}"%char (String "}"%char rest)).
  rewrite (span_not_close_at_brace group _ Hrun).
  destruct group; [contradiction|reflexivity].
Qed.

Lemma exec_unfold (s : string) (idx : nat) :
  exec s idx
  = match match_here s with
    | Some (group, rest) => Some (mkMatch ("{{" ++ group ++ "}}") group idx rest)
    | None =>
        match s with
        | EmptyString => None
        | String _ s' => exec s' (S idx)
        end
    end.
Proof. destruct s; reflexivity. Qed.

(** What [exec] finds is a placeholder of the input, at the reported index,
    and the rest is what follows it. *)
Lemma exec_sound (s : string) :
  forall idx m,
    exec s idx = Some m ->
    exists before,
      s = before ++ m_0 m ++ m_rest m
      /\ isPlaceholder (m_0 m)
      /\ m_0 m = "{{" ++ m_1 m ++ "}}"
      /\ m_index m = idx + String.length before.
Proof.
  induction s as [|c s IH]; intros idx m; rewrite exec_unfold.
  - discriminate.
  - destruct (match_here (String c s)) as [[group rest]|] eqn:E.
    + intros H. injection H as <-. cbn [m_0 m_1 m_index m_rest].
      destruct (match_here_sound _ _ _ E) as (Hs & Hne & Hrun).
      exists "". repeat split.
      * rewrite Hs. simpl. now rewrite append_assoc.
      * exists group. auto.
      * simpl. lia.
    + intros H. destruct (IH _ _ H) as (before & Hs & Hp & H0 & Hidx).
      exists (String c before). repeat split; try assumption.
      * simpl. now rewrite <- Hs.
      * simpl. lia.
Qed.

Lemma exec_complete (before p after : string) :
  isPlaceholder p ->
  forall idx, exec (before ++ p ++ after) idx <> None.
Proof.
  intros (inner & -> & Hne & Hrun).
  induction before as [|c before IH]; intros idx.
  - replace ("" ++ ("{{" ++ inner ++ "}}") ++ after)
      with ("{{" ++ inner ++ "}}" ++ after)
      by (simpl; now rewrite append_assoc).
    rewrite exec_unfold, (match_here_complete inner after Hne Hrun).
    discriminate.
  - rewrite exec_unfold.
    destruct (match_here _) as [[? ?]|]; [discriminate|apply IH].
Qed.

Lemma exec_consumes (s : string) (idx : nat) (m : RegExpMatch) :
  exec s idx = Some m -> String.length (m_rest m) < String.length s.
Proof.
  intros H. destruct (exec_sound _ _ _ H) as (before & Hs & _ & H0 & _).
  rewrite Hs, H0, !length_append. simpl. lia.
Qed.

(** The loop is over before the fuel is: more fuel than the length of the
    input changes nothing. *)
Lemma scan_fuel (n : nat) :
  forall n' s idx,
    String.length s <= n -> String.length s <= n' ->
    scan n s idx = scan n' s idx.
Proof.
  induction n as [|n IH]; intros n' s idx Hn Hn'.
  - destruct s; [|simpl in Hn; lia]. now destruct n'.
  - destruct n' as [|n'].
    + destruct s; [reflexivity|simpl in Hn'; lia].
    + simpl. destruct (exec s idx) as [m|] eqn:E; [|reflexivity].
      apply exec_consumes in E. f_equal. apply IH; lia.
Qed.

(** The scan finds nothing exactly when the text has no placeholder. *)
Lemma scanPlaceholders_nil_iff (documentText : string) :
  scanPlaceholders documentText = [] <-> ~ hasPlaceholder documentText.
Proof.
  unfold scanPlaceholders. split.
  - intros Hscan (before & p & after & -> & Hp).
    pose proof (exec_complete before p after Hp 0) as Hexec.
    destruct (String.length (before ++ p ++ after)) eqn:Hlen.
    + destruct Hp as (inner & -> & _).
      rewrite !length_append in Hlen. simpl in Hlen. lia.
    + simpl in Hscan.
      destruct (exec (before ++ p ++ after) 0); [discriminate|congruence].
  - intros Hno.
    destruct (String.length documentText); [reflexivity|]. simpl.
    destruct (exec documentText 0) as [m|] eqn:E; [|reflexivity].
    exfalso. apply Hno.
    destruct (exec_sound _ _ _ E) as (before & Hs & Hp & _).
    now exists before, (m_0 m), (m_rest m).
Qed.

End Scan.

(** C7: on a text without any placeholder the scan finds nothing and the
    report is returned at once, with placeholderCount 0, no issues and the
    single no-placeholders warning, whatever the data. *)
Theorem C7_no_placeholder_short_circuit (documentText : string) (data : json) :
  ~ hasPlaceholder documentText ->
  scanPlaceholders documentText = []
  /\ validateTemplate documentText data = Ok (mkReport [] [msgNoPlaceholders] 0).
Proof.
  intros Hno. apply scanPlaceholders_nil_iff in Hno.
  split; [assumption|].
  unfold validateTemplate. now rewrite Hno.
Qed.

Lemma C7_no_placeholder_short_circuit_witness :
  scanPlaceholders "Dear {name}, see {{}} and {{ }" = []
  /\ validateTemplate "Dear {name}, see {{}} and {{ }" JNull
     = Ok (mkReport [] [msgNoPlaceholders] 0).
Proof.
  apply C7_no_placeholder_short_circuit.
  apply scanPlaceholders_nil_iff. reflexivity.
Defined.

(** * The extractor on concrete inputs *)

(** C3: below an object, the fields of a loop body lose the path of the
    loop.  For [{"a":{"items":[{"n":1}]}}] the descriptor of [n] is named
    [items.n], not [a.items.n], while the loop markers around it carry the
    full path [a.items]. *)
Theorem C3_loop_body_name_drops_ancestors :
  exists fields,
    extractFieldsFromJson
      (JObj [("a", JObj [("items", JArr [JObj [("n", JNum 1)]])])])
    = Ok fields
    /\ map name fields = ["#a"; "#a.items"; "items.n"; "/a.items"; "/a"].
Proof. eexists. split; reflexivity. Qed.

(** C10: an array whose first element is [null] is not answered with the
    empty sequence: the call throws. *)
Theorem C10_array_of_null_throws :
  extractFieldsFromJson (JArr [JNull]) = Throw TypeError.
Proof. reflexivity. Qed.

(** The other roots of C10 give the empty sequence: a scalar, the empty
    array, and an array that starts with a scalar other than [null]. *)
Lemma extract_nothing_insertable (data : json) :
  match data with
  | JObj _ => False
  | JArr (first :: _) => typeof (Val first) <> "object"
  | _ => True
  end ->
  extractFieldsFromJson data = Ok [].
Proof.
  destruct data as [| | | |[|first rest]|]; try reflexivity; [|contradiction].
  intros H. unfold extractFieldsFromJson. cbn [isArray].
  destruct (String.eqb_spec (typeof (Val first)) "object"); [contradiction|reflexivity].
Qed.

(** C4 as stated fails: for a nested field the placeholder is built from
    the key alone, while the name is the dotted path. *)
Lemma C4_counterexample :
  ~ (forall data fields f,
        extractFieldsFromJson data = Ok fields ->
        In f fields ->
        placeholder f = ("{{" ++ name f ++ "}}")%string).
Proof.
  intros H.
  specialize
    (H (JObj [("address", JObj [("city", JStr "x")])]) _
       (mkField "address.city" "  city" "{{city}}" 1 Simple) eq_refl).
  cbn [placeholder name] in H.
  assert (Hin : "{{city}}" = "{{address.city}}") by (apply H; simpl; auto).
  discriminate Hin.
Qed.

(** * The shape of the descriptor sequence *)

Section Shape.

Lemma forEach_emitted {A : Type} (f : A -> list Field -> result (list Field))
  (parentPath : string) (lvl : nat) (xs : list A) :
  (forall x, In x xs ->
     forall fs fs', f x fs = Ok fs' ->
       exists key out, fs' = fs ++ out /\ Emitted key parentPath lvl out) ->
  forall fs fs',
    forEach f xs fs = Ok fs' ->
    exists body, fs' = fs ++ body /\ EmittedAll parentPath lvl body.
Proof.
  induction xs as [|x xs IH]; intros Hf fs fs' H; simpl in H.
  - injection H as <-. exists []. split; [now rewrite app_nil_r|constructor].
  - destruct (f x fs) as [fs1|] eqn:E; [|discriminate].
    destruct (Hf x (or_introl eq_refl) _ _ E) as (key & out & -> & Hout).
    destruct (IH (fun y Hy => Hf y (or_intror Hy)) _ _ H) as (body & -> & Hbody).
    exists (out ++ body). split; [now rewrite app_assoc|].
    econstructor; eassumption.
Qed.

Lemma forEachIndexed_emitted {A : Type}
  (f : nat -> A -> list Field -> result (list Field))
  (parentPath : string) (lvl : nat) (xs : list A) :
  (forall i x, In x xs ->
     forall fs fs', f i x fs = Ok fs' ->
       exists key out, fs' = fs ++ out /\ Emitted key parentPath lvl out) ->
  forall i fs fs',
    forEachIndexed f i xs fs = Ok fs' ->
    exists body, fs' = fs ++ body /\ EmittedAll parentPath lvl body.
Proof.
  induction xs as [|x xs IH]; intros Hf i fs fs' H; simpl in H.
  - injection H as <-. exists []. split; [now rewrite app_nil_r|constructor].
  - destruct (f i x fs) as [fs1|] eqn:E; [|discriminate].
    destruct (Hf i x (or_introl eq_refl) _ _ E) as (key & out & -> & Hout).
    destruct (IH (fun j y Hy => Hf j y (or_intror Hy)) _ _ _ H)
      as (body & -> & Hbody).
    exists (out ++ body). split; [now rewrite app_assoc|].
    econstructor; eassumption.
Qed.

Lemma appendsEmitted_leaf (key parentPath : string) (lvl : nat) (t : FieldType)
  (fs : list Field) :
  marker t = "" ->
  exists out,
    push fs (mkField (joinPath parentPath key) (repeat_str "  " lvl ++ key)
               ("{{" ++ key ++ "}}") lvl t) = fs ++ out
    /\ Emitted key parentPath lvl out.
Proof. intros Ht. eexists. split; [reflexivity|now constructor]. Qed.

Lemma appendsEmitted_scope (key parentPath childPath : string) (lvl : nat)
  (t t' : FieldType) (l l' : string) (fs body : list Field) :
  closes t t' = true ->
  EmittedAll childPath (S lvl) body ->
  exists out,
    push (push fs (mkField ("#" ++ joinPath parentPath key) l
                     ("{{#" ++ key ++ "}}") lvl t) ++ body)
      (mkField ("/" ++ joinPath parentPath key) l' ("{{/" ++ key ++ "}}") lvl t')
    = fs ++ out
    /\ Emitted key parentPath lvl out.
Proof.
  intros Ht Hbody. eexists. split.
  - unfold push. rewrite <- !app_assoc. reflexivity.
  - simpl. econstructor; eassumption.
Qed.

Lemma processValue_emitted_children (v : json) :
  appendsEmitted v /\ (forall c, In c (children v) -> appendsEmitted c).
Proof.
  induction v as [| b | n | s | items IH | props IH] using json_ind;
    (split; [|try (intros c []) ]).
  - intros key parentPath lvl fs fs' H. injection H as <-.
    now apply appendsEmitted_leaf.
  - intros key parentPath lvl fs fs' H. injection H as <-.
    now apply appendsEmitted_leaf.
  - intros key parentPath lvl fs fs' H. injection H as <-.
    now apply appendsEmitted_leaf.
  - intros key parentPath lvl fs fs' H. injection H as <-.
    now apply appendsEmitted_leaf.
  - intros key parentPath lvl fs fs' H.
    destruct items as [|firstItem rest].
    { injection H as <-. now apply appendsEmitted_leaf. }
    destruct (IH firstItem (or_introl eq_refl)) as [_ Hchildren].
    cbn [processValue] in H.
    destruct firstItem as [| b | n | s | elems | fprops]; cbn [typeof] in H;
      simpl String.eqb in H; cbv iota in H.
    + discriminate H.
    + injection H as <-. now apply appendsEmitted_leaf.
    + injection H as <-. now apply appendsEmitted_leaf.
    + injection H as <-. now apply appendsEmitted_leaf.
    + match type of H with
      | bind ?loop _ = _ => destruct loop as [fs2|] eqn:E; [|discriminate H]
      end.
      cbn [bind] in H. injection H as <-.
      apply forEachIndexed_emitted with (parentPath := key) (lvl := S lvl) in E.
      * destruct E as (body & -> & Hbody).
        eapply appendsEmitted_scope; [reflexivity|eassumption].
      * intros i x Hx fs0 fs0' H0.
        destruct (Hchildren x Hx _ _ _ _ _ H0) as (out & -> & Hout). eauto.
    + match type of H with
      | bind ?loop _ = _ => destruct loop as [fs2|] eqn:E; [|discriminate H]
      end.
      cbn [bind] in H. injection H as <-.
      apply forEach_emitted with (parentPath := key) (lvl := S lvl) in E.
      * destruct E as (body & -> & Hbody).
        eapply appendsEmitted_scope; [reflexivity|eassumption].
      * intros [k x] Hx fs0 fs0' H0.
        destruct (Hchildren x (in_map snd _ _ Hx) _ _ _ _ _ H0)
          as (out & -> & Hout). eauto.
  - intros c Hc. exact (proj1 (IH c Hc)).
  - intros key parentPath lvl fs fs' H.
    cbn [processValue] in H.
    match type of H with
    | bind ?loop _ = _ => destruct loop as [fs2|] eqn:E; [|discriminate H]
    end.
    cbn [bind] in H. injection H as <-.
    apply forEach_emitted
      with (parentPath := joinPath parentPath key) (lvl := S lvl) in E.
    + destruct E as (body & -> & Hbody).
      eapply appendsEmitted_scope; [reflexivity|eassumption].
    + intros [k x] Hx fs0 fs0' H0.
      destruct (IH k x Hx) as [Hv _].
      destruct (Hv _ _ _ _ _ H0) as (out & -> & Hout). eauto.
  - intros c Hc. apply in_map_iff in Hc as ([k x] & <- & Hx).
    exact (proj1 (IH k x Hx)).
Qed.

Lemma processValue_emitted (v : json) : appendsEmitted v.
Proof. apply processValue_emitted_children. Qed.

End Shape.

Section Extraction.

Lemma processModel_emitted (obj : json) (fs fs' : list Field) :
  processModel obj fs = Ok fs' ->
  exists body, fs' = fs ++ body /\ EmittedAll "" 0 body.
Proof.
  destruct obj as [| b | n | s | elems | props]; cbn [processModel]; intros H;
    try discriminate H;
    try (injection H as <-; exists []; split; [now rewrite app_nil_r|constructor]).
  - eapply forEachIndexed_emitted; [|exact H].
    intros i c _ fs0 fs0' H0.
    destruct (processValue_emitted _ _ _ _ _ _ H0) as (out & -> & Hout). eauto.
  - eapply forEachIndexed_emitted; [|exact H].
    intros i x _ fs0 fs0' H0.
    destruct (processValue_emitted _ _ _ _ _ _ H0) as (out & -> & Hout). eauto.
  - eapply forEach_emitted; [|exact H].
    intros [k x] _ fs0 fs0' H0.
    destruct (processValue_emitted _ _ _ _ _ _ H0) as (out & -> & Hout). eauto.
Qed.

(** Whatever the extractor returns is the output of calls of [processValue]
    at level 0 with an empty parent path. *)
Lemma extractFieldsFromJson_emitted (data : json) (fields : list Field) :
  extractFieldsFromJson data = Ok fields -> EmittedAll "" 0 fields.
Proof.
  assert (Hmodel : forall obj, processModel obj [] = Ok fields ->
                               EmittedAll "" 0 fields).
  { intros obj H. now destruct (processModel_emitted _ _ _ H) as (body & -> & Hb). }
  assert (Hnone : Ok (@nil Field) = Ok fields -> EmittedAll "" 0 fields).
  { intros H. injection H as <-. constructor. }
  unfold extractFieldsFromJson.
  destruct data as [| b | n | s | [|first rest] | props]; cbn [isArray];
    try exact Hnone.
  - destruct (typeof (Val first) =? "object")%string; [apply Hmodel|exact Hnone].
  - change ((typeof (Val (JObj props)) =? "object")%string
            && negb (isNull (Val (JObj props)))) with true.
    cbv iota.
    destruct (ownProp (JObj props) "model") as [|m]; [apply Hmodel|].
    destruct (truthy (Val m) && (typeof (Val m) =? "object")%string);
      apply Hmodel.
Qed.

Lemma WellNested_app (xs ys : list Field) :
  WellNested xs -> WellNested ys -> WellNested (xs ++ ys).
Proof.
  intros Hxs Hys. induction Hxs as [|f rest Hf _ IH|s e p body rest Hc Hs He Hb _ _ IH].
  - exact Hys.
  - simpl. now constructor.
  - simpl. rewrite <- app_assoc. simpl. econstructor; eassumption.
Qed.

Lemma closes_start (t t' : FieldType) :
  closes t t' = true -> marker t = "#" /\ marker t' = "/".
Proof. destruct t, t'; simpl; intros H; try discriminate H; auto. Qed.

Lemma Emitted_WellNested :
  forall key parentPath lvl out,
    Emitted key parentPath lvl out -> WellNested out.
Proof.
  apply (Emitted_mut
           (fun _ _ _ out _ => WellNested out)
           (fun _ _ body _ => WellNested body)).
  - intros key parentPath lvl t Ht. apply WN_leaf; [exact Ht|constructor].
  - intros key parentPath lvl childPath t t' l l' body Hc _ Hbody.
    eapply WN_scope with (p := joinPath parentPath key);
      try reflexivity; try assumption; constructor.
  - constructor.
  - intros key parentPath lvl out rest _ Hout _ Hrest.
    now apply WellNested_app.
Qed.

Lemma EmittedAll_WellNested (parentPath : string) (lvl : nat) (body : list Field) :
  EmittedAll parentPath lvl body -> WellNested body.
Proof.
  induction 1 as [|key parentPath lvl out rest Hout _ IH]; [constructor|].
  apply WellNested_app; [|exact IH].
  eapply Emitted_WellNested; eassumption.
Qed.

(** The matcher runs through a well-nested sequence and comes back to the
    stack it started with. *)
Lemma matchBrackets_WellNested (fs : list Field) :
  WellNested fs ->
  forall stack rest,
    matchBrackets stack (fs ++ rest) = matchBrackets stack rest.
Proof.
  induction 1 as [|f fs' Hf _ IH|s e p body fs' Hc Hs He _ IHbody _ IHrest];
    intros stack rest.
  - reflexivity.
  - simpl. destruct (type f); try discriminate Hf; apply IH.
  - destruct (closes_start _ _ Hc) as [Hms Hme].
    assert (Hps : pathOf s = p).
    { unfold pathOf. rewrite Hs. destruct (type s); try discriminate Hms; reflexivity. }
    assert (Hpe : pathOf e = p).
    { unfold pathOf. rewrite He. destruct (type e); try discriminate Hme; reflexivity. }
    assert (Hend : forall st,
               matchBrackets ((type s, p) :: st) (e :: fs' ++ rest)
               = matchBrackets st rest).
    { intros st. simpl. rewrite Hc, Hpe, String.eqb_refl. simpl.
      destruct (type e); try discriminate Hme; apply IHrest. }
    simpl. rewrite <- app_assoc, Hps. simpl.
    destruct (type s) eqn:Ets; try discriminate Hms;
      rewrite IHbody; apply Hend.
Qed.

End Extraction.

(** * The descriptor sequence is the walk of the data *)

Section Walks.
Local Open Scope string_scope.

Lemma forEach_walk (parentPath : string) (lvl : nat)
  (entries : list (string * json)) :
  (forall k v, In (k, v) entries -> appendsWalk v) ->
  forall fs fs',
    forEach (fun kv fs => processValue (snd kv) (fst kv) parentPath lvl fs)
      entries fs = Ok fs' ->
    exists body, fs' = (fs ++ body)%list /\ WalkAll entries parentPath lvl body.
Proof.
  induction entries as [|[k v] entries IH]; intros Hf fs fs' H; simpl in H.
  - injection H as <-. exists []. split; [now rewrite app_nil_r|constructor].
  - destruct (processValue v k parentPath lvl fs) as [fs1|] eqn:E; [|discriminate].
    destruct (Hf k v (or_introl eq_refl) _ _ _ _ _ E) as (out & -> & Hout).
    destruct (IH (fun k' v' Hin => Hf k' v' (or_intror Hin)) _ _ H)
      as (body & -> & Hbody).
    exists (out ++ body)%list. split; [now rewrite app_assoc|].
    now constructor.
Qed.

Lemma forEachIndexed_walk (parentPath : string) (lvl : nat) (elems : list json) :
  (forall x, In x elems -> appendsWalk x) ->
  forall i fs fs',
    forEachIndexed
      (fun i child fs => processValue child (string_of_nat i) parentPath lvl fs)
      i elems fs = Ok fs' ->
    exists body,
      fs' = (fs ++ body)%list /\ WalkAll (indexed i elems) parentPath lvl body.
Proof.
  induction elems as [|x elems IH]; intros Hf i fs fs' H; simpl in H.
  - injection H as <-. exists []. split; [now rewrite app_nil_r|constructor].
  - destruct (processValue x (string_of_nat i) parentPath lvl fs) as [fs1|] eqn:E;
      [|discriminate].
    destruct (Hf x (or_introl eq_refl) _ _ _ _ _ E) as (out & -> & Hout).
    destruct (IH (fun y Hin => Hf y (or_intror Hin)) _ _ _ H)
      as (body & -> & Hbody).
    exists (out ++ body)%list. split; [now rewrite app_assoc|].
    simpl. now constructor.
Qed.

Lemma appendsWalk_leaf (v : json) (key parentPath : string) (lvl : nat)
  (t : FieldType) (fs : list Field) :
  leafType v = Some t -> marker t = "" ->
  exists out,
    push fs (mkField (joinPath parentPath key) (repeat_str "  " lvl ++ key)
               ("{{" ++ key ++ "}}") lvl t) = (fs ++ out)%list
    /\ Walk v key parentPath lvl out.
Proof.
  intros Hv Ht. exists [descriptorOf key parentPath lvl t]. split.
  - unfold push, descriptorOf. rewrite Ht.
    destruct t; try discriminate Ht; reflexivity.
  - now constructor.
Qed.

Lemma appendsWalk_scope (v obj : json) (key parentPath childPath : string)
  (lvl : nat) (t t' : FieldType) (entries : list (string * json))
  (fs body : list Field) :
  scopeOf v key parentPath = Some (t, t', obj, childPath) ->
  entriesOf obj = Some entries ->
  WalkAll entries childPath (S lvl) body ->
  exists out,
    push (push fs (descriptorOf key parentPath lvl t) ++ body)
      (descriptorOf key parentPath lvl t') = (fs ++ out)%list
    /\ Walk v key parentPath lvl out.
Proof.
  intros Hv Hobj Hbody. eexists. split.
  - unfold push. rewrite <- !app_assoc. reflexivity.
  - simpl. econstructor; eassumption.
Qed.

Lemma processValue_walk_children (v : json) :
  appendsWalk v /\ (forall c, In c (children v) -> appendsWalk c).
Proof.
  induction v as [| b | n | s | items IH | props IH] using json_ind;
    (split; [|try (intros c []) ]).
  - intros key parentPath lvl fs fs' H. injection H as <-.
    now apply appendsWalk_leaf.
  - intros key parentPath lvl fs fs' H. injection H as <-.
    now apply appendsWalk_leaf.
  - intros key parentPath lvl fs fs' H. injection H as <-.
    now apply appendsWalk_leaf.
  - intros key parentPath lvl fs fs' H. injection H as <-.
    now apply appendsWalk_leaf.
  - intros key parentPath lvl fs fs' H.
    destruct items as [|firstItem rest].
    { injection H as <-. now apply appendsWalk_leaf. }
    destruct (IH firstItem (or_introl eq_refl)) as [_ Hchildren].
    cbn [processValue] in H.
    destruct firstItem as [| b | n | s | elems | fprops]; cbn [typeof] in H;
      simpl String.eqb in H; cbv iota in H.
    + discriminate H.
    + injection H as <-. now apply appendsWalk_leaf.
    + injection H as <-. now apply appendsWalk_leaf.
    + injection H as <-. now apply appendsWalk_leaf.
    + match type of H with
      | bind ?loop _ = _ => destruct loop as [fs2|] eqn:E; [|discriminate H]
      end.
      cbn [bind] in H. injection H as <-.
      apply forEachIndexed_walk in E; [|exact Hchildren].
      destruct E as (body & -> & Hbody).
      eapply (appendsWalk_scope (JArr (JArr elems :: rest)) (JArr elems)
                key parentPath key lvl LoopStart LoopEnd);
        [reflexivity|reflexivity|exact Hbody].
    + match type of H with
      | bind ?loop _ = _ => destruct loop as [fs2|] eqn:E; [|discriminate H]
      end.
      cbn [bind] in H. injection H as <-.
      apply forEach_walk in E;
        [|intros k x Hx; exact (Hchildren x (in_map snd _ _ Hx))].
      destruct E as (body & -> & Hbody).
      eapply (appendsWalk_scope (JArr (JObj fprops :: rest)) (JObj fprops)
                key parentPath key lvl LoopStart LoopEnd);
        [reflexivity|reflexivity|exact Hbody].
  - intros c Hc. exact (proj1 (IH c Hc)).
  - intros key parentPath lvl fs fs' H.
    cbn [processValue] in H.
    match type of H with
    | bind ?loop _ = _ => destruct loop as [fs2|] eqn:E; [|discriminate H]
    end.
    cbn [bind] in H. injection H as <-.
    apply forEach_walk in E; [|intros k x Hx; exact (proj1 (IH k x Hx))].
    destruct E as (body & -> & Hbody).
    eapply (appendsWalk_scope (JObj props) (JObj props)
              key parentPath (joinPath parentPath key) lvl ObjectStart ObjectEnd);
      [reflexivity|reflexivity|exact Hbody].
  - intros c Hc. apply in_map_iff in Hc as ([k x] & <- & Hx).
    exact (proj1 (IH k x Hx)).
Qed.

Lemma processValue_walk (v : json) : appendsWalk v.
Proof. apply processValue_walk_children. Qed.

Lemma forEachIndexed_over_map {A B St : Type} (g : A -> B)
  (f : nat -> B -> St -> result St) (xs : list A) :
  forall i st,
    forEachIndexed (fun i x st => f i (g x) st) i xs st
    = forEachIndexed f i (map g xs) st.
Proof.
  induction xs as [|x xs IH]; intros i st; simpl; [reflexivity|].
  destruct (f i (g x) st); simpl; [apply IH|reflexivity].
Qed.

(** [processModel] walks the properties of the object it is given at level
    0 with an empty parent path. *)
Lemma processModel_walk (obj : json) (fs fs' : list Field) :
  processModel obj fs = Ok fs' ->
  exists entries body,
    entriesOf obj = Some entries
    /\ fs' = (fs ++ body)%list /\ WalkAll entries "" 0 body.
Proof.
  destruct obj as [| b | n | s | elems | props]; cbn [processModel entriesOf];
    intros H; try discriminate H;
    try (injection H as <-; exists [], []; split; [reflexivity|];
         split; [now rewrite app_nil_r|constructor]).
  - rewrite (forEachIndexed_over_map (fun c => JStr (String c ""))
               (fun i child fs =>
                  processValue child (string_of_nat i) "" 0 fs)) in H.
    apply forEachIndexed_walk in H;
      [|intros x _; apply processValue_walk].
    destruct H as (body & -> & Hbody). eauto.
  - apply forEachIndexed_walk in H; [|intros x _; apply processValue_walk].
    destruct H as (body & -> & Hbody). eauto.
  - apply forEach_walk in H; [|intros k x _; apply processValue_walk].
    destruct H as (body & -> & Hbody). eauto.
Qed.

(** What the extractor returns is the walk of the properties it starts
    from. *)
Lemma extractFieldsFromJson_walk (data : json) (fields : list Field) :
  extractFieldsFromJson data = Ok fields ->
  exists entries, rootEntries data = Some entries /\ WalkAll entries "" 0 fields.
Proof.
  assert (Hmodel : forall obj, processModel obj [] = Ok fields ->
            exists entries, entriesOf obj = Some entries
                            /\ WalkAll entries "" 0 fields).
  { intros obj H.
    destruct (processModel_walk _ _ _ H) as (entries & body & He & -> & Hb).
    eauto. }
  assert (Hnone : Ok (@nil Field) = Ok fields ->
            exists entries, Some (@nil (string * json)) = Some entries
                            /\ WalkAll entries "" 0 fields).
  { intros H. injection H as <-. exists []. split; [reflexivity|constructor]. }
  unfold extractFieldsFromJson, rootEntries.
  destruct data as [| b | n | s | [|first rest] | props]; cbn [isArray];
    try exact Hnone.
  - destruct (typeof (Val first) =? "object"); [apply Hmodel|exact Hnone].
  - change ((typeof (Val (JObj props)) =? "object")
            && negb (isNull (Val (JObj props)))) with true.
    cbv iota.
    destruct (ownProp (JObj props) "model") as [|m]; [apply Hmodel|].
    destruct (truthy (Val m) && (typeof (Val m) =? "object"));
      apply Hmodel.
Qed.

Lemma Reached_level :
  forall entries parentPath lvl key v parent l,
    Reached entries parentPath lvl key v parent l ->
    lvl <= l /\ (l = lvl -> parent = parentPath).
Proof.
  induction 1 as [|entries parentPath lvl key0 v0 t t' obj childPath inner
                   key v parent l _ _ _ _ [IHle _]].
  - split; [lia|reflexivity].
  - split; [lia|intros ->; lia].
Qed.

Lemma descriptorTypes_leaf (v : json) (t : FieldType) :
  leafType v = Some t -> In t (descriptorTypes v).
Proof. unfold descriptorTypes. intros ->. now left. Qed.

Lemma descriptorTypes_scope (v obj : json) (key parentPath childPath : string)
  (t t' : FieldType) :
  scopeOf v key parentPath = Some (t, t', obj, childPath) ->
  In t (descriptorTypes v) /\ In t' (descriptorTypes v).
Proof.
  unfold descriptorTypes.
  destruct v as [| b | n | s | [|firstItem rest] | props]; cbn [scopeOf leafType];
    try discriminate.
  - destruct (typeof (Val firstItem) =? "object"); [|discriminate].
    intros H. injection H as <- <- _ _. simpl. auto.
  - intros H. injection H as <- <- _ _. simpl. auto.
Qed.

(** Every descriptor of a walk is the descriptor of a property the walk
    comes to, of one of the types of the value of that property. *)
Lemma Walk_reached :
  forall v key parentPath lvl out,
    Walk v key parentPath lvl out ->
    forall entries f,
      In (key, v) entries -> In f out ->
      exists key' v' parent,
        Reached entries parentPath lvl key' v' parent (indentLevel f)
        /\ In (type f) (descriptorTypes v')
        /\ f = descriptorOf key' parent (indentLevel f) (type f).
Proof.
  apply (Walk_mut
           (fun v key parentPath lvl out _ =>
              forall entries f,
                In (key, v) entries -> In f out ->
                exists key' v' parent,
                  Reached entries parentPath lvl key' v' parent (indentLevel f)
                  /\ In (type f) (descriptorTypes v')
                  /\ f = descriptorOf key' parent (indentLevel f) (type f))
           (fun inner parentPath lvl out _ =>
              forall entries f,
                incl inner entries -> In f out ->
                exists key' v' parent,
                  Reached entries parentPath lvl key' v' parent (indentLevel f)
                  /\ In (type f) (descriptorTypes v')
                  /\ f = descriptorOf key' parent (indentLevel f) (type f))).
  - intros v key parentPath lvl t Ht entries f Hin [<-|[]].
    exists key, v, parentPath. cbn [descriptorOf indentLevel type].
    split; [now constructor|]. split; [now apply descriptorTypes_leaf|reflexivity].
  - intros v key parentPath lvl t t' obj childPath inner body Hs He _ IH
      entries f Hin Hf.
    destruct (descriptorTypes_scope _ _ _ _ _ _ _ Hs) as [Ht Ht'].
    destruct Hf as [<-|Hf]; [|apply in_app_or in Hf as [Hf|[<-|[]]]].
    + exists key, v, parentPath. cbn [descriptorOf indentLevel type].
      split; [now constructor|]. split; [exact Ht|reflexivity].
    + destruct (IH inner f (incl_refl _) Hf) as (key' & v' & parent & Hr & Hty & Hd).
      exists key', v', parent. split; [|now split].
      eapply Reached_inside; eassumption.
    + exists key, v, parentPath. cbn [descriptorOf indentLevel type].
      split; [now constructor|]. split; [exact Ht'|reflexivity].
  - intros parentPath lvl entries f _ [].
  - intros key v rest parentPath lvl out outs _ IHout _ IHrest entries f Hincl Hf.
    apply in_app_or in Hf as [Hf|Hf].
    + apply IHout; [apply Hincl; now left|exact Hf].
    + apply IHrest; [|exact Hf].
      intros x Hx. apply Hincl. now right.
Qed.

Lemma WalkAll_reached (inner : list (string * json)) (parentPath : string)
  (lvl : nat) (out : list Field) :
  WalkAll inner parentPath lvl out ->
  forall entries f,
    incl inner entries -> In f out ->
    exists key v parent,
      Reached entries parentPath lvl key v parent (indentLevel f)
      /\ In (type f) (descriptorTypes v)
      /\ f = descriptorOf key parent (indentLevel f) (type f).
Proof.
  induction 1 as [|key v rest parentPath lvl out outs Hout _ IH];
    intros entries f Hincl Hf.
  - destruct Hf.
  - apply in_app_or in Hf as [Hf|Hf].
    + eapply Walk_reached; [exact Hout| |exact Hf]. apply Hincl. now left.
    + apply IH; [|exact Hf]. intros x Hx. apply Hincl. now right.
Qed.

End Walks.

(** C2: the descriptors the extractor returns are the walk of the data:
    every start descriptor of a key at a path is followed by the descriptors
    of all the properties walked inside its scope, each with its own
    descendants, one level deeper and in their order, and right after them
    by the one end descriptor of the same key, path and level.  So the
    sequence is well nested, and the bracket matcher started on the empty
    stack neither underflows nor ends with a non-empty stack. *)
Theorem C2_descriptors_well_nested (data : json) (fields : list Field) :
  extractFieldsFromJson data = Ok fields ->
  (exists entries,
      rootEntries data = Some entries /\ WalkAll entries "" 0 fields)
  /\ WellNested fields
  /\ matchBrackets [] fields = Some [].
Proof.
  intros H. split; [now apply extractFieldsFromJson_walk|].
  apply extractFieldsFromJson_emitted in H.
  apply EmittedAll_WellNested in H. split; [exact H|].
  rewrite <- (app_nil_r fields).
  now rewrite (matchBrackets_WellNested fields H).
Qed.

Lemma C2_descriptors_well_nested_witness :
  (exists entries,
      rootEntries
        (JObj [("a", JStr "x");
               ("b", JObj [("c", JArr [JObj [("d", JNull)]])])])
      = Some entries
      /\ WalkAll entries "" 0
           [mkField "a" "a" "{{a}}" 0 Simple;
            mkField "#b" "b (Object Start)" "{{#b}}" 0 ObjectStart;
            mkField "#b.c" "  c (Loop Start)" "{{#c}}" 1 LoopStart;
            mkField "c.d" "    d" "{{d}}" 2 Simple;
            mkField "/b.c" "  c (Loop End)" "{{/c}}" 1 LoopEnd;
            mkField "/b" "b (Object End)" "{{/b}}" 0 ObjectEnd])
  /\ WellNested
       [mkField "a" "a" "{{a}}" 0 Simple;
        mkField "#b" "b (Object Start)" "{{#b}}" 0 ObjectStart;
        mkField "#b.c" "  c (Loop Start)" "{{#c}}" 1 LoopStart;
        mkField "c.d" "    d" "{{d}}" 2 Simple;
        mkField "/b.c" "  c (Loop End)" "{{/c}}" 1 LoopEnd;
        mkField "/b" "b (Object End)" "{{/b}}" 0 ObjectEnd]
  /\ matchBrackets []
       [mkField "a" "a" "{{a}}" 0 Simple;
        mkField "#b" "b (Object Start)" "{{#b}}" 0 ObjectStart;
        mkField "#b.c" "  c (Loop Start)" "{{#c}}" 1 LoopStart;
        mkField "c.d" "    d" "{{d}}" 2 Simple;
        mkField "/b.c" "  c (Loop End)" "{{/c}}" 1 LoopEnd;
        mkField "/b" "b (Object End)" "{{/b}}" 0 ObjectEnd]
     = Some [].
Proof.
  apply (C2_descriptors_well_nested
           (JObj [("a", JStr "x");
                  ("b", JObj [("c", JArr [JObj [("d", JNull)]])])])).
  reflexivity.
Defined.

(** C4, amended: every descriptor is the descriptor of a property the walk
    of the data comes to; its placeholder is the marker of its type and the
    key of that property between the braces, where its name is the marker
    and the key joined to the parent path the walk has there; the
    placeholder is the name between the braces for the descriptors at
    indent level 0. *)
Theorem C4_placeholder_is_marker_and_key (data : json) (fields : list Field)
  (f : Field) :
  extractFieldsFromJson data = Ok fields ->
  In f fields ->
  exists entries key v parentPath,
    rootEntries data = Some entries
    /\ Reached entries "" 0 key v parentPath (indentLevel f)
    /\ In (type f) (descriptorTypes v)
    /\ name f = (marker (type f) ++ joinPath parentPath key)%string
    /\ placeholder f = ("{{" ++ marker (type f) ++ key ++ "}}")%string
    /\ (indentLevel f = 0 -> placeholder f = ("{{" ++ name f ++ "}}")%string).
Proof.
  intros Hextract Hin.
  destruct (extractFieldsFromJson_walk _ _ Hextract) as (entries & Hroot & Hwalk).
  destruct (WalkAll_reached _ _ _ _ Hwalk entries f (incl_refl _) Hin)
    as (key & v & parent & Hreached & Htype & Hf).
  assert (Hname : name f = (marker (type f) ++ joinPath parent key)%string).
  { exact (f_equal name Hf). }
  assert (Hph : placeholder f = ("{{" ++ marker (type f) ++ key ++ "}}")%string).
  { exact (f_equal placeholder Hf). }
  exists entries, key, v, parent.
  split; [exact Hroot|]. split; [exact Hreached|]. split; [exact Htype|].
  split; [exact Hname|]. split; [exact Hph|].
  intros Hlvl. rewrite Hname, Hph.
  destruct (Reached_level _ _ _ _ _ _ _ Hreached) as [_ Htop].
  rewrite (Htop Hlvl).
  change (joinPath "" key) with key.
  simpl. now rewrite append_assoc.
Qed.

Lemma C4_placeholder_is_marker_and_key_witness :
  exists entries key v parentPath,
    rootEntries
      (JObj [("address", JObj [("city", JStr "x");
                               ("lines", JArr [JObj [("text", JStr "y")]])])])
    = Some entries
    /\ Reached entries "" 0 key v parentPath 1
    /\ In Simple (descriptorTypes v)
    /\ "address.city" = (marker Simple ++ joinPath parentPath key)%string
    /\ "{{city}}" = ("{{" ++ marker Simple ++ key ++ "}}")%string
    /\ (1 = 0 -> "{{city}}" = ("{{" ++ "address.city" ++ "}}")%string).
Proof.
  apply (C4_placeholder_is_marker_and_key
           (JObj [("address", JObj [("city", JStr "x");
                                    ("lines", JArr [JObj [("text", JStr "y")]])])])
           [mkField "#address" "address (Object Start)" "{{#address}}" 0 ObjectStart;
            mkField "address.city" "  city" "{{city}}" 1 Simple;
            mkField "#address.lines" "  lines (Loop Start)" "{{#lines}}" 1 LoopStart;
            mkField "lines.text" "    text" "{{text}}" 2 Simple;
            mkField "/address.lines" "  lines (Loop End)" "{{/lines}}" 1 LoopEnd;
            mkField "/address" "address (Object End)" "{{/address}}" 0 ObjectEnd]
           (mkField "address.city" "  city" "{{city}}" 1 Simple)).
  - reflexivity.
  - simpl. auto.
Defined.

(** * Enumerated keys and property reads

    [processValue] and [processModel] walk the entries of an object and the
    elements of an array; the source enumerates [Object.keys(obj)] and reads
    [obj[key]] for each key.  Both give the same values. *)

Section OwnProperties.

Lemma array_index_string_of_nat (i : nat) :
  array_index (string_of_nat i) = Some i.
Proof.
  unfold array_index, string_of_nat.
  rewrite NilEmpty.usu, DecimalNat.Unsigned.of_to.
  now rewrite String.eqb_refl.
Qed.

Lemma string_of_nat_not_length (i : nat) : string_of_nat i <> "length".
Proof.
  intros H.
  pose proof (NilEmpty.usu (Nat.to_uint i)) as Husu.
  unfold string_of_nat in H. rewrite H in Husu. discriminate Husu.
Qed.

Lemma ownProp_element (items : list json) (i : nat) :
  ownProp (JArr items) (string_of_nat i) = of_option (nth_error items i).
Proof.
  cbn [ownProp].
  destruct (String.eqb_spec (string_of_nat i) "length") as [H|_].
  - now apply string_of_nat_not_length in H.
  - now rewrite array_index_string_of_nat.
Qed.

Lemma ownProp_entry (props : list (string * json)) (k : string) (v : json) :
  NoDup (map fst props) -> In (k, v) props -> ownProp (JObj props) k = Val v.
Proof.
  cbn [ownProp].
  induction props as [|[k' v'] props IH]; intros Hnodup Hin; [destruct Hin|].
  inversion Hnodup as [|? ? Hfresh Hrest]; subst.
  cbn [assoc]. destruct Hin as [Heq|Hin].
  - injection Heq as -> ->. now rewrite String.eqb_refl.
  - destruct (String.eqb_spec k' k) as [->|_]; [|now apply IH].
    exfalso. apply Hfresh. now apply (in_map fst) in Hin.
Qed.

End OwnProperties.

(** * When the extractor returns

    The only failure of the extractor is [Object.keys(null)], reached through
    an array whose first element is [null]. *)

Section Totality.

Lemma forEach_returns {A St : Type} (f : A -> St -> result St) (xs : list A) :
  (forall x, In x xs -> forall s, exists s', f x s = Ok s') ->
  forall s, exists s', forEach f xs s = Ok s'.
Proof.
  induction xs as [|x xs IH]; intros Hf s; simpl.
  - now exists s.
  - destruct (Hf x (or_introl eq_refl) s) as [s1 ->].
    apply IH. intros y Hy. apply Hf. now right.
Qed.

Lemma forEachIndexed_returns {A St : Type} (f : nat -> A -> St -> result St)
  (xs : list A) :
  (forall i x, In x xs -> forall s, exists s', f i x s = Ok s') ->
  forall i s, exists s', forEachIndexed f i xs s = Ok s'.
Proof.
  induction xs as [|x xs IH]; intros Hf i s; simpl.
  - now exists s.
  - destruct (Hf i x (or_introl eq_refl) s) as [s1 ->].
    apply IH. intros j y Hy. apply Hf. now right.
Qed.

Lemma noNullHead_children (v c : json) :
  noNullHead v = true -> In c (children v) -> noNullHead c = true.
Proof.
  destruct v as [| b | n | s | items | props]; cbn [children];
    try (intros _ []).
  - cbn [noNullHead]. intros H Hc. apply andb_prop in H as [_ H].
    now apply (proj1 (forallb_forall _ _) H).
  - cbn [noNullHead]. intros H Hc.
    apply in_map_iff in Hc as ([k x] & <- & Hx).
    now apply (proj1 (forallb_forall _ _) H (k, x)).
Qed.

Lemma processValue_returns_children (v : json) :
  (noNullHead v = true -> returns v)
  /\ (forall c, In c (children v) -> noNullHead c = true -> returns c).
Proof.
  induction v as [| b | n | s | items IH | props IH] using json_ind;
    (split; [|try (intros c []) ]);
    try (intros _ key parentPath lvl fs; eexists; reflexivity).
  - intros Hv key parentPath lvl fs.
    destruct items as [|firstItem rest]; [eexists; reflexivity|].
    destruct (IH firstItem (or_introl eq_refl)) as [_ Hchildren].
    assert (Hfirst : noNullHead firstItem = true).
    { apply (noNullHead_children _ _ Hv). now left. }
    cbn [processValue].
    destruct firstItem as [| b | n | s | elems | fprops];
      try discriminate Hv; try (eexists; reflexivity).
    + edestruct (forEachIndexed_returns
                   (fun i child fs0 =>
                      processValue child (string_of_nat i) key (S lvl) fs0) elems)
        as [fs2 E].
      * intros i x Hx fs0.
        apply (Hchildren x Hx). now apply (noNullHead_children _ _ Hfirst).
      * cbn [typeof]. simpl String.eqb. cbv iota.
        rewrite E. eexists. reflexivity.
    + edestruct (forEach_returns
                   (fun kv fs0 => processValue (snd kv) (fst kv) key (S lvl) fs0)
                   fprops) as [fs2 E].
      * intros [k x] Hx fs0.
        assert (Hc : In x (children (JObj fprops))) by exact (in_map snd _ _ Hx).
        apply (Hchildren x Hc). now apply (noNullHead_children _ _ Hfirst).
      * cbn [typeof]. simpl String.eqb. cbv iota.
        rewrite E. eexists. reflexivity.
  - intros c Hc. exact (proj1 (IH c Hc)).
  - intros Hv key parentPath lvl fs.
    cbn [processValue].
    edestruct (forEach_returns
                 (fun kv fs0 =>
                    processValue (snd kv) (fst kv) (joinPath parentPath key)
                      (S lvl) fs0) props) as [fs2 E].
    + intros [k x] Hx fs0.
      assert (Hc : In x (children (JObj props))) by exact (in_map snd _ _ Hx).
      apply (proj1 (IH k x Hx)). now apply (noNullHead_children _ _ Hv).
    + rewrite E. eexists. reflexivity.
  - intros c Hc. apply in_map_iff in Hc as ([k x] & <- & Hx).
    exact (proj1 (IH k x Hx)).
Qed.

Lemma processModel_returns (obj : json) (fs : list Field) :
  obj <> JNull -> noNullHead obj = true ->
  exists fs', processModel obj fs = Ok fs'.
Proof.
  intros Hobj Hnn.
  destruct obj as [| b | n | s | elems | props]; cbn [processModel];
    try contradiction; try (eexists; reflexivity).
  - apply forEachIndexed_returns. intros i c _ fs0.
    now apply (proj1 (processValue_returns_children _)).
  - apply forEachIndexed_returns. intros i x Hx fs0.
    apply (proj1 (processValue_returns_children x)).
    now apply (noNullHead_children _ _ Hnn).
  - apply forEach_returns. intros [k x] Hx fs0.
    apply (proj1 (processValue_returns_children x)).
    apply (noNullHead_children _ _ Hnn). exact (in_map snd _ _ Hx).
Qed.

(** X23: on data in which no array starts with [null] the extractor
    returns a descriptor sequence. *)
Lemma extractFieldsFromJson_returns (data : json) :
  noNullHead data = true -> exists fields, extractFieldsFromJson data = Ok fields.
Proof.
  intros Hnn. unfold extractFieldsFromJson.
  destruct data as [| b | n | s | [|first rest] | props]; cbn [isArray];
    try (eexists; reflexivity).
  - destruct (typeof (Val first) =? "object")%string; [|eexists; reflexivity].
    apply processModel_returns.
    + intros ->. discriminate Hnn.
    + apply (noNullHead_children _ _ Hnn). now left.
  - change ((typeof (Val (JObj props)) =? "object")%string
            && negb (isNull (Val (JObj props)))) with true.
    cbv iota.
    destruct (ownProp (JObj props) "model") as [|m] eqn:Em;
      [now apply processModel_returns|].
    destruct (truthy (Val m) && (typeof (Val m) =? "object")%string) eqn:Et;
      [|now apply processModel_returns].
    rewrite truthy_object in Et.
    apply processModel_returns; [intros ->; discriminate Et|].
    apply (noNullHead_children _ _ Hnn). cbn [children].
    cbn [ownProp] in Em. clear -Em.
    induction props as [|[k x] props IH]; [discriminate Em|].
    cbn [assoc] in Em. destruct (k =? "model")%string.
    + injection Em as ->. now left.
    + right. now apply IH.
Qed.

End Totality.

(** * More on the placeholder scan *)

Section ScanFacts.
Local Open Scope string_scope.

Lemma substring_middle (a b c : string) :
  substring (String.length a) (String.length b) (a ++ b ++ c) = b.
Proof.
  induction a as [|x a IH]; simpl; [|exact IH].
  induction b as [|y b IHb]; simpl; [now destruct c|now rewrite IHb].
Qed.

Lemma trimStart_includes (s : string) (c : ascii) :
  includes s c = false -> includes (trimStart s) c = false.
Proof.
  induction s as [|x s IH]; simpl; [reflexivity|]. intros H.
  destruct (is_space x); [|exact H].
  apply orb_false_iff in H as [_ H]. now apply IH.
Qed.

Lemma trimEnd_includes (s : string) (c : ascii) :
  includes s c = false -> includes (trimEnd s) c = false.
Proof.
  induction s as [|x s IH]; simpl; [reflexivity|]. intros H.
  apply orb_false_iff in H as [Hx H]. specialize (IH H).
  destruct (trimEnd s) as [|y kept].
  - destruct (is_space x); simpl; [reflexivity|now rewrite Hx].
  - cbn [includes] in *. now rewrite Hx.
Qed.

Lemma trimEnd_idempotent (s : string) : trimEnd (trimEnd s) = trimEnd s.
Proof.
  induction s as [|x s IH]; simpl; [reflexivity|].
  destruct (trimEnd s) as [|y kept] eqn:E.
  - destruct (is_space x) eqn:Ex; simpl; [reflexivity|now rewrite Ex].
  - cbn [trimEnd] in *. now rewrite IH.
Qed.

Lemma trimStart_trimEnd (s : string) :
  trimStart s = s -> trimStart (trimEnd s) = trimEnd s.
Proof.
  destruct s as [|x s]; simpl; [reflexivity|].
  destruct (is_space x) eqn:Ex.
  - intros H. exfalso.
    assert (Hlen : String.length (trimStart s) <= String.length s).
    { clear. induction s as [|y s IH]; simpl; [lia|].
      destruct (is_space y); simpl; lia. }
    rewrite H in Hlen. simpl in Hlen. lia.
  - intros _. destruct (trimEnd s); simpl; now rewrite Ex.
Qed.

Lemma trimStart_idempotent (s : string) : trimStart (trimStart s) = trimStart s.
Proof.
  induction s as [|x s IH]; simpl; [reflexivity|].
  destruct (is_space x) eqn:Ex; [exact IH|]. simpl. now rewrite Ex.
Qed.

Lemma trim_idempotent (s : string) : trim (trim s) = trim s.
Proof.
  unfold trim.
  rewrite (trimStart_trimEnd (trimStart s) (trimStart_idempotent s)).
  apply trimEnd_idempotent.
Qed.

Lemma exec_group (s : string) :
  forall idx m,
    exec s idx = Some m ->
    m_0 m = "{{" ++ m_1 m ++ "}}"
    /\ m_1 m <> ""
    /\ includes (m_1 m) "}"%char = false.
Proof.
  induction s as [|c s IH]; intros idx m; rewrite exec_unfold.
  - discriminate.
  - destruct (match_here (String c s)) as [[group rest]|] eqn:E.
    + intros H. injection H as <-. cbn [m_0 m_1].
      destruct (match_here_sound _ _ _ E) as (_ & Hne & Hrun). auto.
    + apply IH.
Qed.

(** What the loop collects from the rest [s] of the document, where [pre] is
    the part already consumed. *)
Lemma scan_located (fuel : nat) :
  forall pre s p,
    In p (scan fuel s (String.length pre)) ->
    substring (position p) (String.length (full p)) (pre ++ s) = full p
    /\ position p + String.length (full p) <= String.length (pre ++ s)
    /\ exists inner,
         full p = "{{" ++ inner ++ "}}"
         /\ inner <> ""
         /\ includes inner "}"%char = false
         /\ field p = trim inner.
Proof.
  induction fuel as [|fuel IH]; intros pre s p Hin; [destruct Hin|].
  simpl in Hin.
  destruct (exec s (String.length pre)) as [m|] eqn:E; [|destruct Hin].
  destruct (exec_sound _ _ _ E) as (before & Hs & _ & _ & Hidx).
  destruct (exec_group _ _ _ E) as (H0 & Hne & Hrun).
  destruct Hin as [<-|Hin].
  - cbn [position full field]. split; [|split].
    + rewrite Hidx, Hs, <- length_append, <- append_assoc.
      apply substring_middle.
    + rewrite Hidx, Hs, !length_append. lia.
    + exists (m_1 m). auto.
  - assert (Hpos : m_index m + String.length (m_0 m)
                   = String.length ((pre ++ before) ++ m_0 m)).
    { rewrite Hidx, !length_append. lia. }
    rewrite Hpos in Hin.
    specialize (IH _ _ _ Hin).
    replace (pre ++ s) with (((pre ++ before) ++ m_0 m) ++ m_rest m);
      [exact IH|].
    rewrite Hs, !append_assoc. reflexivity.
Qed.

Lemma scan_inOrder (fuel : nat) :
  forall s idx, inOrderFrom idx (scan fuel s idx).
Proof.
  induction fuel as [|fuel IH]; intros s idx; simpl; [exact I|].
  destruct (exec s idx) as [m|] eqn:E; [|exact I].
  destruct (exec_sound _ _ _ E) as (before & _ & _ & _ & Hidx).
  cbn [inOrderFrom position full]. split; [lia|apply IH].
Qed.

End ScanFacts.

(** X1: every placeholder the scan reports is the text of the document at
    the reported position, lies inside the document, and consists of two
    opening braces, a non-empty inner text without a closing brace, and two
    closing braces; its field is that inner text trimmed. *)
Theorem scanPlaceholders_located (documentText : string) (p : Placeholder) :
  In p (scanPlaceholders documentText) ->
  substring (position p) (String.length (full p)) documentText = full p
  /\ position p + String.length (full p) <= String.length documentText
  /\ exists inner,
       full p = ("{{" ++ inner ++ "}}")%string
       /\ inner <> ""
       /\ includes inner "}"%char = false
       /\ field p = trim inner.
Proof. intros Hin. exact (scan_located _ "" documentText p Hin). Qed.

Lemma scanPlaceholders_located_witness :
  substring 6 10 "Hello {{ name }}!" = "{{ name }}"
  /\ 6 + 10 <= String.length "Hello {{ name }}!"
  /\ exists inner,
       "{{ name }}" = ("{{" ++ inner ++ "}}")%string
       /\ inner <> ""
       /\ includes inner "}"%char = false
       /\ "name" = trim inner.
Proof.
  apply (scanPlaceholders_located "Hello {{ name }}!"
           (mkPlaceholder "{{ name }}" "name" 6)).
  simpl. auto.
Defined.

(** X2: the placeholders are reported from left to right and do not
    overlap: each starts at or after the end of the one before. *)
Theorem scanPlaceholders_inOrder (documentText : string) :
  inOrderFrom 0 (scanPlaceholders documentText).
Proof. apply scan_inOrder. Qed.

(** X3: the field of a reported placeholder carries no white space at
    either end and no closing brace. *)
Theorem scanPlaceholders_field_trimmed (documentText : string) (p : Placeholder) :
  In p (scanPlaceholders documentText) ->
  trim (field p) = field p /\ includes (field p) "}"%char = false.
Proof.
  intros Hin.
  destruct (scan_located _ "" documentText p Hin)
    as (_ & _ & inner & _ & _ & Hrun & ->).
  split; [apply trim_idempotent|].
  unfold trim. now apply trimEnd_includes, trimStart_includes.
Qed.

Lemma scanPlaceholders_field_trimmed_witness :
  trim "a.b" = "a.b" /\ includes "a.b" "}"%char = false.
Proof.
  apply (scanPlaceholders_field_trimmed "x {{  a.b }} y"
           (mkPlaceholder "{{  a.b }}" "a.b" 2)).
  simpl. auto.
Defined.

(** * The validator over any document *)

Section ValidatorFacts.

Lemma forEach_app {A St : Type} (f : A -> St -> result St) (xs ys : list A)
  (s : St) :
  forEach f (xs ++ ys) s = bind (forEach f xs s) (forEach f ys).
Proof.
  revert s. induction xs as [|x xs IH]; intros s; simpl; [reflexivity|].
  destruct (f x s); [apply IH|reflexivity].
Qed.

(** The callback reads nothing of a placeholder but its field. *)
Lemma forEach_visit_fields (data : json) (ps qs : list Placeholder) :
  map field ps = map field qs ->
  forall st, forEach (visit data) ps st = forEach (visit data) qs st.
Proof.
  revert qs. induction ps as [|p ps IH]; intros [|q qs] H st;
    try discriminate H; [reflexivity|].
  simpl in H. injection H as Hf H. simpl.
  unfold visit at 1 3. rewrite Hf.
  fold (visit data q st). destruct (visit data q st); [now apply IH|reflexivity].
Qed.

Lemma visit_aligned (data : json) (p : Placeholder) (st st' : State) :
  visit data p st = Ok st' -> aligned st -> aligned st'.
Proof.
  unfold visit, aligned.
  destruct (startsWith (field p) "#"%char);
    [|destruct (startsWith (field p) "/"%char)].
  - unfold openMarker.
    destruct (getNestedValue _ _) as [v|]; [|discriminate]. cbn [bind].
    destruct (isUndefined v); [|destruct (isArray v); [|destruct (isObject v)]];
      intros H Hal; injection H as <-;
      cbn [enter addIssue addWarning contextStack loopStack];
      unfold push; rewrite !length_app; simpl; lia.
  - unfold closeMarker.
    destruct (Nat.eqb (List.length (loopStack st)) 0) eqn:E0.
    + intros H Hal; injection H as <-. exact Hal.
    + apply Nat.eqb_neq in E0.
      destruct (topName (loopStack st)) as [expected|];
        [destruct (negb (expected =? substring1 (field p))%string)|];
        intros H Hal; injection H as <-; try exact Hal.
      cbn [leave contextStack loopStack]. unfold pop.
      destruct (loopStack st) as [|n ns] eqn:El using rev_ind; [contradiction|].
      destruct (contextStack st) as [|c cs] eqn:Ec using rev_ind;
        [discriminate Hal|].
      rewrite !removelast_last. rewrite !length_app in Hal. simpl in Hal. lia.
  - unfold plainField.
    destruct (isUndefined (top (contextStack st)));
      [intros H Hal; injection H as <-; exact Hal|].
    match goal with
    | |- bind ?c _ = _ -> _ => destruct c as [v|]; [|discriminate]
    end.
    cbn [bind].
    repeat match goal with
           | |- (if ?b then _ else _) = _ -> _ => destruct b
           | |- bind ?c _ = _ -> _ => destruct c as [?|]; [|discriminate]; cbn [bind]
           end;
      intros H Hal; injection H as <-; exact Hal.
Qed.

Lemma forEach_visit_aligned (data : json) (ps : list Placeholder) :
  forall st st',
    forEach (visit data) ps st = Ok st' -> aligned st -> aligned st'.
Proof.
  induction ps as [|p ps IH]; intros st st' H Hal; simpl in H.
  - now injection H as <-.
  - destruct (visit data p st) as [st1|] eqn:E; [|discriminate].
    eapply IH; [exact H|]. eapply visit_aligned; eassumption.
Qed.

End ValidatorFacts.

(** X4: the validator reads only the fields of the placeholders: two
    documents whose placeholders have the same fields in the same order get
    the same report, whatever text stands between them. *)
Theorem validateTemplate_fields_only (doc1 doc2 : string) (data : json) :
  map field (scanPlaceholders doc1) = map field (scanPlaceholders doc2) ->
  validateTemplate doc1 data = validateTemplate doc2 data.
Proof.
  intros H. unfold validateTemplate.
  assert (Hlen : List.length (scanPlaceholders doc1)
                 = List.length (scanPlaceholders doc2)).
  { now rewrite <- (length_map field), H, length_map. }
  rewrite Hlen, (forEach_visit_fields data _ _ H). reflexivity.
Qed.

Lemma validateTemplate_fields_only_witness :
  validateTemplate "{{#a}}{{b}}{{/a}}" (JObj [("a", JObj [])])
  = validateTemplate "Dear {{ #a }}, {{b }} and{{/a}}." (JObj [("a", JObj [])]).
Proof.
  apply validateTemplate_fields_only. reflexivity.
Defined.

(** X5: while the validator runs, the context stack holds exactly one entry
    more than the loop-name stack, whatever the placeholders are. *)
Theorem validator_stacks_aligned (data : json) (ps : list Placeholder)
  (st : State) :
  forEach (visit data) ps (initialState data) = Ok st ->
  List.length (contextStack st) = S (List.length (loopStack st)).
Proof.
  intros H. apply (forEach_visit_aligned _ _ _ _ H). reflexivity.
Qed.

Lemma validator_stacks_aligned_witness :
  List.length
    [Val (JObj [("a", JObj [("c", JArr [])])]); Val (JObj [("c", JArr [])]);
     Val (JObj [])]
  = S (List.length ["a"; "c"]).
Proof.
  apply (validator_stacks_aligned (JObj [("a", JObj [("c", JArr [])])])
           [mkPlaceholder "{{#a}}" "#a" 0; mkPlaceholder "{{b}}" "b" 6;
            mkPlaceholder "{{/x}}" "/x" 11; mkPlaceholder "{{#c}}" "#c" 17]
           (mkState
              [Val (JObj [("a", JObj [("c", JArr [])])]);
               Val (JObj [("c", JArr [])]); Val (JObj [])]
              ["a"; "c"]
              [msgNotInLoop "b" "a"] [msgMismatch "/x" "a"])).
  reflexivity.
Defined.


Section ValidatorBounds.

Lemma hasProp_object (k : string) (v : value) :
  isObject v = true -> exists b, hasProp k v = Ok b.
Proof.
  destruct v as [|[]]; try discriminate; intros _; eexists; reflexivity.
Qed.

Lemma getProp_object (k : string) (v : value) :
  isObject v = true -> exists w, getProp v k = Ok w.
Proof.
  destruct v as [|[]]; try discriminate; intros _; eexists; reflexivity.
Qed.

(** Without scope-open markers the stacks stay as they start, and no step
    throws. *)
Lemma visit_flat (data : json) (p : Placeholder) (st : State) :
  data <> JNull ->
  startsWith (field p) "#"%char = false ->
  contextStack st = [Val data] -> loopStack st = [] ->
  exists st',
    visit data p st = Ok st'
    /\ contextStack st' = [Val data] /\ loopStack st' = [].
Proof.
  intros Hdata Hopen Hctx Hloop. unfold visit. rewrite Hopen.
  destruct (startsWith (field p) "/"%char).
  - unfold closeMarker. rewrite Hloop. cbn [List.length Nat.eqb].
    eexists. split; [reflexivity|]. cbn [addWarning contextStack loopStack]. auto.
  - unfold plainField. rewrite Hctx, Hloop.
    cbn [top last isUndefined List.length Nat.ltb Nat.leb].
    destruct (getNestedValue_returns data (field p) Hdata) as [root Hroot].
    assert (Hvalue :
              exists v,
                (if includes (field p) "."%char
                 then getNestedValue (Val data) (field p)
                 else if isObject (Val data)
                      then found <- hasProp (field p) (Val data) ;;
                           if found then getProp (Val data) (field p)
                           else getNestedValue (Val data) (field p)
                      else getNestedValue (Val data) (field p)) = Ok v).
    { destruct (includes (field p) "."%char); [eauto|].
      destruct (isObject (Val data)) eqn:Hobj; [|eauto].
      destruct (hasProp_object (field p) _ Hobj) as [b ->]. cbn [bind].
      destruct b; [|eauto]. exact (getProp_object _ _ Hobj). }
    destruct Hvalue as [v ->]. cbn [bind]. rewrite Hroot. cbn [bind].
    destruct (isUndefined v);
      [destruct (isUndefined root)|destruct (isNull v)];
      eexists; (split; [reflexivity|]);
      cbn [addIssue addWarning contextStack loopStack]; auto.
Qed.

Lemma forEach_visit_flat (data : json) (ps : list Placeholder) :
  data <> JNull ->
  (forall p, In p ps -> startsWith (field p) "#"%char = false) ->
  forall st,
    contextStack st = [Val data] -> loopStack st = [] ->
    exists st', forEach (visit data) ps st = Ok st' /\ loopStack st' = [].
Proof.
  intros Hdata. induction ps as [|p ps IH]; intros Hps st Hctx Hloop; simpl.
  - eauto.
  - destruct (visit_flat data p st Hdata (Hps p (or_introl eq_refl)) Hctx Hloop)
      as (st1 & -> & Hctx1 & Hloop1).
    apply IH; [|assumption..]. intros q Hq. apply Hps. now right.
Qed.

(** A step adds at most one message and opens at most one scope. *)
Lemma visit_grows (data : json) (p : Placeholder) (st st' : State) :
  visit data p st = Ok st' ->
  List.length (issuesSoFar st') <= S (List.length (issuesSoFar st))
  /\ List.length (issuesSoFar st') + List.length (warningsSoFar st')
     <= S (List.length (issuesSoFar st) + List.length (warningsSoFar st))
  /\ List.length (loopStack st') <= S (List.length (loopStack st)).
Proof.
  assert (Hpop : forall (xs : list string),
             List.length (pop xs) <= S (List.length xs)).
  { intros xs. unfold pop. destruct xs as [|x xs] using rev_ind; [simpl; lia|].
    rewrite removelast_last, length_app. simpl. lia. }
  unfold visit.
  destruct (startsWith (field p) "#"%char);
    [|destruct (startsWith (field p) "/"%char)].
  - unfold openMarker.
    destruct (getNestedValue _ _) as [v|]; [|discriminate]. cbn [bind].
    destruct (isUndefined v); [|destruct (isArray v); [|destruct (isObject v)]];
      intros H; injection H as <-;
      cbn [enter addIssue addWarning issuesSoFar warningsSoFar loopStack];
      unfold push; rewrite ?length_app; simpl; lia.
  - unfold closeMarker.
    destruct (Nat.eqb (List.length (loopStack st)) 0);
      [|destruct (topName (loopStack st)) as [expected|];
        [destruct (negb (expected =? substring1 (field p))%string)|]];
      intros H; injection H as <-;
      cbn [leave addWarning issuesSoFar warningsSoFar loopStack];
      unfold push; rewrite ?length_app; simpl;
      try specialize (Hpop (loopStack st)); lia.
  - unfold plainField.
    destruct (isUndefined (top (contextStack st)));
      [intros H; injection H as <-; lia|].
    match goal with
    | |- bind ?c _ = _ -> _ => destruct c as [v|]; [|discriminate]
    end.
    cbn [bind].
    repeat match goal with
           | |- (if ?b then _ else _) = _ -> _ => destruct b
           | |- bind ?c _ = _ -> _ => destruct c as [?|]; [|discriminate]; cbn [bind]
           end;
      intros H; injection H as <-;
      cbn [addIssue addWarning issuesSoFar warningsSoFar loopStack];
      unfold push; rewrite ?length_app; simpl; lia.
Qed.

Lemma forEach_visit_grows (data : json) (ps : list Placeholder) :
  forall st st',
    forEach (visit data) ps st = Ok st' ->
    List.length (issuesSoFar st')
    <= List.length (issuesSoFar st) + List.length ps
    /\ List.length (issuesSoFar st') + List.length (warningsSoFar st')
       <= List.length (issuesSoFar st) + List.length (warningsSoFar st)
          + List.length ps
    /\ List.length (loopStack st') <= List.length (loopStack st) + List.length ps.
Proof.
  induction ps as [|p ps IH]; intros st st' H; simpl in H.
  - injection H as <-. simpl. lia.
  - destruct (visit data p st) as [st1|] eqn:E; [|discriminate].
    apply visit_grows in E. apply IH in H. simpl. lia.
Qed.

Lemma reportUnclosed_spec (st : State) :
  reportUnclosed st = warningsSoFar st ++ map msgUnclosed (loopStack st).
Proof.
  unfold reportUnclosed.
  assert (Hfold : forall names ws,
             fold_left (fun ws0 loopName => push ws0 (msgUnclosed loopName))
               names ws = ws ++ map msgUnclosed names).
  { induction names as [|n names IH]; intros ws; simpl.
    - now rewrite app_nil_r.
    - rewrite IH. unfold push. now rewrite <- app_assoc. }
  destruct (loopStack st) as [|n names]; simpl.
  - now rewrite app_nil_r.
  - apply (Hfold (n :: names)).
Qed.

End ValidatorBounds.

(** X6: on a document whose placeholders neither open a scope nor name a
    dotted path, the validator returns a report, for every data value other
    than [null]: each field is then looked up by one property read in the
    data, and a close marker only adds a warning. *)
Theorem validateTemplate_returns_without_open_markers
  (documentText : string) (data : json) :
  data <> JNull ->
  (forall p, In p (scanPlaceholders documentText) ->
             startsWith (field p) "#"%char = false
             /\ includes (field p) "."%char = false) ->
  exists report, validateTemplate documentText data = Ok report.
Proof.
  intros Hdata Hps. unfold validateTemplate.
  destruct (Nat.eqb _ 0); [eauto|].
  destruct (forEach_visit_flat data _ Hdata
              (fun p Hp => proj1 (Hps p Hp)) (initialState data)
              eq_refl eq_refl) as (st & -> & _).
  cbn [bind]. eauto.
Qed.

Lemma validateTemplate_returns_without_open_markers_witness :
  exists report,
    validateTemplate "{{a}} {{/c}} {{ d }}" (JObj [("a", JNull)]) = Ok report.
Proof.
  apply validateTemplate_returns_without_open_markers.
  - discriminate.
  - intros p [<-|[<-|[<-|[]]]]; split; reflexivity.
Defined.

(** X7: a report never holds more issues than the document has
    placeholders, and issues and warnings together are at most twice as many
    (one per placeholder and one per scope left open), and at most one for a
    document without placeholders. *)
Theorem validateTemplate_report_bounded (documentText : string) (data : json)
  (report : Report) :
  validateTemplate documentText data = Ok report ->
  List.length (issues report) <= placeholderCount report
  /\ List.length (issues report) + List.length (warnings report)
     <= Nat.max 1 (2 * placeholderCount report).
Proof.
  unfold validateTemplate.
  destruct (Nat.eqb _ 0).
  - intros H. injection H as <-. simpl. lia.
  - destruct (forEach _ _ _) as [st|] eqn:E; [|discriminate].
    cbn [bind]. intros H. injection H as <-.
    cbn [issues warnings placeholderCount].
    apply forEach_visit_grows in E.
    rewrite reportUnclosed_spec, length_app, length_map.
    cbn [initialState issuesSoFar warningsSoFar loopStack List.length] in E.
    lia.
Qed.

Lemma validateTemplate_report_bounded_witness :
  List.length [msgMissingLoop "#a" "a"] <= 2
  /\ List.length [msgMissingLoop "#a" "a"]
     + List.length [msgMismatch "/b" "a"; msgUnclosed "a"]
     <= Nat.max 1 (2 * 2).
Proof.
  apply (validateTemplate_report_bounded "{{#a}}{{/b}}" (JObj [])
           (mkReport [msgMissingLoop "#a" "a"]
              [msgMismatch "/b" "a"; msgUnclosed "a"] 2)).
  reflexivity.
Defined.

(** * More on getNestedValue *)

Section Lookup.
Local Open Scope string_scope.

Lemma split_dot_nonempty (s : string) : split_dot s <> [].
Proof.
  destruct s as [|c s]; simpl; [discriminate|].
  destruct (Ascii.eqb c "."%char); [discriminate|].
  destruct (split_dot s); discriminate.
Qed.

Lemma split_dot_join (p q : string) :
  split_dot (p ++ "." ++ q) = (split_dot p ++ split_dot q)%list.
Proof.
  induction p as [|c p IH]; [reflexivity|].
  cbn [append split_dot]. change (p ++ String "." q) with (p ++ "." ++ q).
  rewrite IH. destruct (Ascii.eqb c "."%char); [reflexivity|].
  pose proof (split_dot_nonempty p) as Hne.
  destruct (split_dot p); [contradiction|reflexivity].
Qed.

Lemma descend_app (ks1 ks2 : list string) :
  ks2 <> [] ->
  forall current,
    descend (ks1 ++ ks2) current = bind (descend ks1 current) (descend ks2).
Proof.
  intros Hne. induction ks1 as [|k ks1 IH]; intros current; [reflexivity|].
  cbn [app descend].
  destruct current as [|j]; cbn [isNull isUndefined orb].
  - destruct ks2; [contradiction|reflexivity].
  - destruct j; cbn [isNull orb getProp bind]; try apply IH.
    destruct ks2; [contradiction|reflexivity].
Qed.

End Lookup.

(** X8: for a path of one key (no dot), [getNestedValue] throws exactly
    when it is called on [null] or [undefined]: the read of [obj.model]
    throws on those, and on every other value that read and the one read of
    the key return. *)
Theorem getNestedValue_throws_iff (obj : value) (path : string) :
  includes path "."%char = false ->
  (getNestedValue obj path = Throw TypeError <-> nullish obj = true).
Proof.
  intros _. split.
  - destruct obj as [|j]; [reflexivity|].
    destruct j; try reflexivity;
      match goal with
      | |- getNestedValue (Val ?j) _ = _ -> _ =>
          let H := fresh in
          assert (H : j <> JNull) by discriminate;
          destruct (getNestedValue_returns j path H) as [v ->]; discriminate
      end.
  - destruct obj as [|[]]; try discriminate; reflexivity.
Qed.

Lemma getNestedValue_throws_iff_witness :
  getNestedValue (Val JNull) "total" = Throw TypeError
  <-> nullish (Val JNull) = true.
Proof.
  apply getNestedValue_throws_iff. reflexivity.
Defined.

Lemma getNestedValue_split (obj : value) (p q : string) :
  getNestedValue obj (p ++ "." ++ q)
  = bind (getNestedValue obj p) (descend (split_dot q)).
Proof.
  unfold getNestedValue.
  destruct (getProp obj "model") as [model|]; [|reflexivity]. cbn [bind].
  rewrite split_dot_join. apply descend_app, split_dot_nonempty.
Qed.

(** X9: a path is resolved key by key: looking up [p.q] is looking up [p]
    and then descending along the keys of [q] from what was found. *)
Theorem getNestedValue_join (obj : value) (p q : string) :
  getNestedValue obj (p ++ "." ++ q)
  = bind (getNestedValue obj p) (descend (split_dot q)).
Proof. apply getNestedValue_split. Qed.

(** X10: a lookup that runs through [null] or through a missing key gives
    [undefined] and does not throw: when [p] resolves to [null] or
    [undefined], every longer path [p.q] resolves to [undefined]. *)
Theorem getNestedValue_through_null (obj v : value) (p q : string) :
  getNestedValue obj p = Ok v ->
  nullish v = true ->
  getNestedValue obj (p ++ "." ++ q) = Ok Undefined.
Proof.
  intros Hp Hv. rewrite getNestedValue_split, Hp. cbn [bind].
  pose proof (split_dot_nonempty q) as Hne.
  destruct (split_dot q) as [|k ks]; [contradiction|].
  cbn [descend]. unfold nullish in Hv. now rewrite Hv.
Qed.

Lemma getNestedValue_through_null_witness :
  getNestedValue (Val (JObj [("customer", JObj [("address", JNull)])]))
    ("customer.address" ++ "." ++ "city.name")
  = Ok Undefined.
Proof.
  apply (getNestedValue_through_null _ (Val JNull)); reflexivity.
Defined.

(** * More on the extractor *)

Section Descriptors.

Lemma forEach_preserves {A St : Type} (f : A -> St -> result St)
  (P : St -> Prop) (xs : list A) :
  (forall x, In x xs -> forall s s', f x s = Ok s' -> P s -> P s') ->
  forall s s', forEach f xs s = Ok s' -> P s -> P s'.
Proof.
  induction xs as [|x xs IH]; intros Hf s s' H Hs; simpl in H.
  - now injection H as <-.
  - destruct (f x s) as [s1|] eqn:E; [|discriminate].
    apply (IH (fun y Hy => Hf y (or_intror Hy)) _ _ H).
    exact (Hf x (or_introl eq_refl) _ _ E Hs).
Qed.

Lemma forEachIndexed_preserves {A St : Type} (f : nat -> A -> St -> result St)
  (P : St -> Prop) (xs : list A) :
  (forall i x, In x xs -> forall s s', f i x s = Ok s' -> P s -> P s') ->
  forall i s s', forEachIndexed f i xs s = Ok s' -> P s -> P s'.
Proof.
  induction xs as [|x xs IH]; intros Hf i s s' H Hs; simpl in H.
  - now injection H as <-.
  - destruct (f i x s) as [s1|] eqn:E; [|discriminate].
    apply (IH (fun j y Hy => Hf j y (or_intror Hy)) _ _ _ H).
    exact (Hf i x (or_introl eq_refl) _ _ E Hs).
Qed.

Variable R : Field -> Prop.
Hypothesis R_descriptor :
  forall key parentPath lvl t, R (descriptorOf key parentPath lvl t).

Lemma push_descriptor (fs : list Field) (key parentPath : string) (lvl : nat)
  (t : FieldType) :
  Forall R fs -> Forall R (push fs (descriptorOf key parentPath lvl t)).
Proof.
  intros H. apply Forall_app. split; [exact H|].
  constructor; [apply R_descriptor|constructor].
Qed.

Lemma processValue_preserves_children (v : json) :
  (forall key parentPath lvl fs fs',
      processValue v key parentPath lvl fs = Ok fs' ->
      Forall R fs -> Forall R fs')
  /\ (forall c, In c (children v) ->
        forall key parentPath lvl fs fs',
          processValue c key parentPath lvl fs = Ok fs' ->
          Forall R fs -> Forall R fs').
Proof.
  induction v as [| b | n | s | items IH | props IH] using json_ind;
    (split; [|try (intros c []) ]).
  - intros key parentPath lvl fs fs' H Hfs. injection H as <-.
    exact (push_descriptor fs key parentPath lvl Simple Hfs).
  - intros key parentPath lvl fs fs' H Hfs. injection H as <-.
    exact (push_descriptor fs key parentPath lvl Simple Hfs).
  - intros key parentPath lvl fs fs' H Hfs. injection H as <-.
    exact (push_descriptor fs key parentPath lvl Simple Hfs).
  - intros key parentPath lvl fs fs' H Hfs. injection H as <-.
    exact (push_descriptor fs key parentPath lvl Simple Hfs).
  - intros key parentPath lvl fs fs' H Hfs.
    destruct items as [|firstItem rest].
    { injection H as <-.
      exact (push_descriptor fs key parentPath lvl ArraySimple Hfs). }
    destruct (IH firstItem (or_introl eq_refl)) as [_ Hchildren].
    cbn [processValue] in H.
    destruct firstItem as [| b | n | s | elems | fprops]; cbn [typeof] in H;
      simpl String.eqb in H; cbv iota in H;
      try discriminate H;
      try (injection H as <-;
           exact (push_descriptor fs key parentPath lvl ArraySimple Hfs)).
    + match type of H with
      | bind ?loop _ = _ => destruct loop as [fs2|] eqn:E; [|discriminate H]
      end.
      cbn [bind] in H. injection H as <-.
      apply (push_descriptor fs2 key parentPath lvl LoopEnd).
      apply (forEachIndexed_preserves _ (Forall R) _
               (fun i x Hx s s' => Hchildren x Hx _ _ _ s s') _ _ _ E).
      exact (push_descriptor fs key parentPath lvl LoopStart Hfs).
    + match type of H with
      | bind ?loop _ = _ => destruct loop as [fs2|] eqn:E; [|discriminate H]
      end.
      cbn [bind] in H. injection H as <-.
      apply (push_descriptor fs2 key parentPath lvl LoopEnd).
      apply (forEach_preserves _ (Forall R) _
               (fun kv Hkv s s' =>
                  Hchildren (snd kv) (in_map snd _ _ Hkv) _ _ _ s s') _ _ E).
      exact (push_descriptor fs key parentPath lvl LoopStart Hfs).
  - intros c Hc. exact (proj1 (IH c Hc)).
  - intros key parentPath lvl fs fs' H Hfs.
    cbn [processValue] in H.
    match type of H with
    | bind ?loop _ = _ => destruct loop as [fs2|] eqn:E; [|discriminate H]
    end.
    cbn [bind] in H. injection H as <-.
    apply (push_descriptor fs2 key parentPath lvl ObjectEnd).
    apply (forEach_preserves _ (Forall R) _
             (fun kv Hkv s s' =>
                proj1 (IH (fst kv) (snd kv)
                         (eq_ind _ (fun x => In x props) Hkv _
                            (surjective_pairing kv))) _ _ _ s s') _ _ E).
    exact (push_descriptor fs key parentPath lvl ObjectStart Hfs).
  - intros c Hc. apply in_map_iff in Hc as ([k x] & <- & Hx).
    exact (proj1 (IH k x Hx)).
Qed.

Lemma processModel_preserves (obj : json) (fs fs' : list Field) :
  processModel obj fs = Ok fs' -> Forall R fs -> Forall R fs'.
Proof.
  destruct obj as [| b | n | s | elems | props]; cbn [processModel]; intros H;
    try discriminate H; try (injection H as <-; exact (fun Hfs => Hfs)).
  - exact (forEachIndexed_preserves _ (Forall R) _
             (fun i c _ s0 s0' =>
                proj1 (processValue_preserves_children _) _ _ _ s0 s0') _ _ _ H).
  - exact (forEachIndexed_preserves _ (Forall R) _
             (fun i x _ s0 s0' =>
                proj1 (processValue_preserves_children x) _ _ _ s0 s0') _ _ _ H).
  - exact (forEach_preserves _ (Forall R) _
             (fun kv _ s0 s0' =>
                proj1 (processValue_preserves_children (snd kv)) _ _ _ s0 s0')
             _ _ H).
Qed.

(** Whatever holds of every descriptor of a key holds of every entry of
    the palette. *)
Lemma extractFieldsFromJson_all (data : json) (fields : list Field) :
  extractFieldsFromJson data = Ok fields -> Forall R fields.
Proof.
  assert (Hmodel : forall obj, processModel obj [] = Ok fields -> Forall R fields).
  { intros obj H. exact (processModel_preserves _ _ _ H (Forall_nil R)). }
  assert (Hnone : Ok (@nil Field) = Ok fields -> Forall R fields).
  { intros H. injection H as <-. constructor. }
  unfold extractFieldsFromJson.
  destruct data as [| b | n | s | [|first rest] | props]; cbn [isArray];
    try exact Hnone.
  - destruct (typeof (Val first) =? "object")%string; [apply Hmodel|exact Hnone].
  - change ((typeof (Val (JObj props)) =? "object")%string
            && negb (isNull (Val (JObj props)))) with true.
    cbv iota.
    destruct (ownProp (JObj props) "model") as [|m]; [apply Hmodel|].
    destruct (truthy (Val m) && (typeof (Val m) =? "object")%string);
      apply Hmodel.
Qed.

End Descriptors.

(** X11: every entry of the palette is the descriptor of some key: its name
    is the marker of its type and the dotted path of the key, its label the
    key (with the Start/End suffix of its type) behind two spaces per indent
    level, and its placeholder the marker and the key between the braces. *)
Theorem extractFieldsFromJson_descriptors (data : json) (fields : list Field)
  (f : Field) :
  extractFieldsFromJson data = Ok fields ->
  In f fields ->
  exists key parentPath,
    f = descriptorOf key parentPath (indentLevel f) (type f).
Proof.
  intros H Hin.
  apply (extractFieldsFromJson_all
           (fun f => exists key parentPath,
                f = descriptorOf key parentPath (indentLevel f) (type f)))
    in H.
  - exact (proj1 (Forall_forall _ _) H f Hin).
  - intros key parentPath lvl t. now exists key, parentPath.
Qed.

Lemma extractFieldsFromJson_descriptors_witness :
  exists key parentPath,
    mkField "#order.lines" "  lines (Loop Start)" "{{#lines}}" 1 LoopStart
    = descriptorOf key parentPath 1 LoopStart.
Proof.
  apply (extractFieldsFromJson_descriptors
           (JObj [("order", JObj [("lines", JArr [JObj [("qty", JNum 2)]])])])
           [mkField "#order" "order (Object Start)" "{{#order}}" 0 ObjectStart;
            mkField "#order.lines" "  lines (Loop Start)" "{{#lines}}" 1 LoopStart;
            mkField "lines.qty" "    qty" "{{qty}}" 2 Simple;
            mkField "/order.lines" "  lines (Loop End)" "{{/lines}}" 1 LoopEnd;
            mkField "/order" "order (Object End)" "{{/order}}" 0 ObjectEnd]).
  - reflexivity.
  - simpl. auto.
Defined.

(** X12: for every entry of the palette the editor receives the entry's
    placeholder: the fallback built from the name is never taken. *)
Theorem insertedText_is_placeholder (data : json) (fields : list Field)
  (f : Field) :
  extractFieldsFromJson data = Ok fields ->
  In f fields ->
  insertedText f = placeholder f.
Proof.
  intros H Hin.
  apply (extractFieldsFromJson_all (fun f => insertedText f = placeholder f))
    in H.
  - exact (proj1 (Forall_forall _ _) H f Hin).
  - reflexivity.
Qed.

Lemma insertedText_is_placeholder_witness :
  insertedText (mkField "a.b" "  b" "{{b}}" 1 Simple) = "{{b}}".
Proof.
  apply (insertedText_is_placeholder (JObj [("a", JObj [("b", JNull)])])
           [mkField "#a" "a (Object Start)" "{{#a}}" 0 ObjectStart;
            mkField "a.b" "  b" "{{b}}" 1 Simple;
            mkField "/a" "a (Object End)" "{{/a}}" 0 ObjectEnd]).
  - reflexivity.
  - simpl. auto.
Defined.

(** X13: when the [model] property of the root object is an object or an
    array, the palette is built from the properties of that value alone, the
    keys of an object or the indices of an array; the other properties of
    the root are ignored.  When the [model] is an object, not an array,
    whose own [model] property is neither an object nor an array, that is
    the palette of the [model] taken as the data. *)
Theorem extractFieldsFromJson_model_wrapper (props : list (string * json))
  (m : json) :
  ownProp (JObj props) "model" = Val m ->
  isObject (Val m) = true ->
  extractFieldsFromJson (JObj props) = processModel m []
  /\ (isArray (Val m) = false ->
      isObject (ownProp m "model") = false ->
      extractFieldsFromJson (JObj props) = extractFieldsFromJson m).
Proof.
  intros Hmodel Hm.
  assert (Hroot : extractFieldsFromJson (JObj props) = processModel m []).
  { unfold extractFieldsFromJson. cbn [isArray].
    change ((typeof (Val (JObj props)) =? "object")%string
            && negb (isNull (Val (JObj props)))) with true.
    cbv iota. rewrite Hmodel.
    destruct m as [| b | n | s | elems | mprops]; try discriminate Hm;
      reflexivity. }
  split; [exact Hroot|].
  intros Harr Hinner. rewrite Hroot.
  destruct m as [| b | n | s | elems | mprops]; try discriminate Hm;
    try discriminate Harr.
  unfold extractFieldsFromJson. cbn [isArray].
  change ((typeof (Val (JObj mprops)) =? "object")%string
          && negb (isNull (Val (JObj mprops)))) with true.
  cbv iota.
  destruct (ownProp (JObj mprops) "model") as [|inner]; [reflexivity|].
  now rewrite truthy_object, Hinner.
Qed.

Lemma extractFieldsFromJson_model_wrapper_witness :
  extractFieldsFromJson
    (JObj [("version", JNum 2);
           ("model", JObj [("title", JStr "Menu"); ("model", JNull)])])
  = processModel (JObj [("title", JStr "Menu"); ("model", JNull)]) []
  /\ (isArray (Val (JObj [("title", JStr "Menu"); ("model", JNull)])) = false ->
      isObject (ownProp (JObj [("title", JStr "Menu"); ("model", JNull)]) "model")
      = false ->
      extractFieldsFromJson
        (JObj [("version", JNum 2);
               ("model", JObj [("title", JStr "Menu"); ("model", JNull)])])
      = extractFieldsFromJson (JObj [("title", JStr "Menu"); ("model", JNull)])).
Proof.
  apply extractFieldsFromJson_model_wrapper; reflexivity.
Defined.

(** X14: a report has placeholderCount 0 exactly when the document holds no
    placeholder; otherwise the count is the number of placeholders found. *)
Theorem validateTemplate_count (documentText : string) (data : json)
  (report : Report) :
  validateTemplate documentText data = Ok report ->
  placeholderCount report = List.length (scanPlaceholders documentText)
  /\ (placeholderCount report = 0 <-> ~ hasPlaceholder documentText).
Proof.
  unfold validateTemplate. intros H.
  assert (Hcount : placeholderCount report
                   = List.length (scanPlaceholders documentText)).
  { destruct (Nat.eqb_spec (List.length (scanPlaceholders documentText)) 0)
      as [E|E].
    - injection H as <-. now rewrite E.
    - destruct (forEach _ _ _); [|discriminate]. now injection H as <-. }
  split; [exact Hcount|].
  rewrite Hcount, <- scanPlaceholders_nil_iff.
  destruct (scanPlaceholders documentText); simpl; split;
    intros; congruence.
Qed.

Lemma validateTemplate_count_witness :
  2 = List.length (scanPlaceholders "{{a}} and {{b}}")
  /\ (2 = 0 <-> ~ hasPlaceholder "{{a}} and {{b}}").
Proof.
  apply (validateTemplate_count "{{a}} and {{b}}" (JObj [("a", JNum 1)])
           (mkReport [msgNoData "b"] [] 2)).
  reflexivity.
Defined.

(** * Templates built from the palette *)

Section Tokens.
Local Open Scope string_scope.

Lemma match_here_not_open (c : ascii) (s : string) :
  Ascii.eqb c "{"%char = false -> match_here (String c s) = None.
Proof. intros H. destruct s; simpl; [reflexivity|now rewrite H]. Qed.

Lemma exec_skip (sep s : string) :
  includes sep "{"%char = false ->
  forall idx, exec (sep ++ s) idx = exec s (idx + String.length sep).
Proof.
  induction sep as [|c sep IH]; intros H idx; simpl.
  - now rewrite Nat.add_0_r.
  - simpl in H. apply orb_false_iff in H as [Hc H].
    change (match match_here (String c (sep ++ s)) with
            | Some (group, rest) =>
                Some (mkMatch ("{{" ++ group ++ "}}") group idx rest)
            | None => exec (sep ++ s) (S idx)
            end = exec s (idx + S (String.length sep))).
    rewrite (match_here_not_open c _ Hc), (IH H).
    f_equal. lia.
Qed.

Lemma scan_skip (fuel : nat) (sep s : string) (idx : nat) :
  includes sep "{"%char = false ->
  scan fuel (sep ++ s) idx = scan fuel s (idx + String.length sep).
Proof. intros H. destruct fuel; simpl; [reflexivity|now rewrite exec_skip]. Qed.

Lemma exec_token (inner rest : string) (idx : nat) :
  inner <> "" -> includes inner "}"%char = false ->
  exec ("{{" ++ inner ++ "}}" ++ rest) idx
  = Some (mkMatch ("{{" ++ inner ++ "}}") inner idx rest).
Proof.
  intros Hne Hrun.
  now rewrite exec_unfold, (match_here_complete inner rest Hne Hrun).
Qed.

Lemma concat_two (sep x y : string) (rest : list string) :
  String.concat sep (x :: y :: rest) = x ++ sep ++ String.concat sep (y :: rest).
Proof. reflexivity. Qed.

(** The scan of placeholders written one after the other, with [sep]
    between them, reads back the inner texts, trimmed. *)
Lemma scan_concat (sep : string) (inners : list string) :
  includes sep "{"%char = false ->
  Forall (fun inner => inner <> "" /\ includes inner "}"%char = false) inners ->
  forall fuel idx,
    String.length
      (String.concat sep (map (fun inner => "{{" ++ inner ++ "}}") inners))
    <= fuel ->
    map field
      (scan fuel
         (String.concat sep (map (fun inner => "{{" ++ inner ++ "}}") inners))
         idx)
    = map trim inners.
Proof.
  intros Hsep Hall.
  induction Hall as [|inner inners [Hne Hrun] _ IH]; intros fuel idx Hfuel.
  - destruct fuel; reflexivity.
  - destruct inners as [|inner' inners].
    + change (String.concat sep (map (fun i => "{{" ++ i ++ "}}") [inner]))
        with ("{{" ++ inner ++ "}}" ++ "") in *.
      destruct fuel as [|fuel]; [simpl in Hfuel; lia|].
      cbn [scan]. rewrite (exec_token inner "" idx Hne Hrun).
      cbn [m_0 m_1 m_index m_rest map field]. f_equal.
      destruct fuel; reflexivity.
    + revert Hfuel IH. cbn [map]. rewrite concat_two.
      set (rest := String.concat sep _). intros Hfuel IH.
      replace (("{{" ++ inner ++ "}}") ++ sep ++ rest)
        with ("{{" ++ inner ++ "}}" ++ sep ++ rest) in *
        by (simpl; now rewrite append_assoc).
      destruct fuel as [|fuel]; [simpl in Hfuel; lia|].
      cbn [scan]. rewrite (exec_token inner (sep ++ rest) idx Hne Hrun).
      cbn [m_0 m_1 m_index m_rest map field]. f_equal.
      rewrite (scan_skip _ _ _ _ Hsep). apply IH.
      change ("{{" ++ inner ++ "}}" ++ sep ++ rest)
        with (String "{" (String "{" (inner ++ "}}" ++ sep ++ rest))) in Hfuel.
      cbn [String.length] in Hfuel. rewrite !length_append in Hfuel. lia.
Qed.

Lemma substring_prefix (x y : string) :
  substring 0 (String.length x) (x ++ y) = x.
Proof. exact (substring_middle "" x y). Qed.

Lemma tokenField_braces (inner : string) (n l : string) (lvl : nat)
  (t : FieldType) :
  tokenField (mkField n l ("{{" ++ inner ++ "}}") lvl t) = trim inner.
Proof.
  unfold tokenField. cbn [placeholder]. f_equal.
  change (String.length ("{{" ++ inner ++ "}}"))
    with (S (S (String.length (inner ++ "}}")))).
  rewrite length_append. cbn [String.length].
  replace (S (S (String.length inner + 2)) - 4) with (String.length inner) by lia.
  exact (substring_prefix inner "}}").
Qed.

Lemma trimEnd_cons (c : ascii) (k : string) :
  k <> "" -> trimEnd k = k -> trimEnd (String c k) = String c k.
Proof.
  intros Hne Hk. cbn [trimEnd]. rewrite Hk.
  destruct k; [contradiction|reflexivity].
Qed.

End Tokens.


Section Keys.
Local Open Scope string_scope.

Lemma tidyKey_spec (k : string) :
  tidyKey k = true ->
  k <> "" /\ k <> "model"
  /\ includes k "."%char = false /\ includes k "}"%char = false
  /\ startsWith k "#"%char = false /\ startsWith k "/"%char = false
  /\ trimStart k = k /\ trimEnd k = k.
Proof.
  unfold tidyKey. intros H.
  repeat (apply andb_prop in H as [H ?]).
  repeat match goal with
         | H : negb _ = true |- _ => apply negb_true_iff in H
         | H : (_ =? _) = false |- _ => apply String.eqb_neq in H
         | H : (_ =? _) = true |- _ => apply String.eqb_eq in H
         end.
  repeat split; assumption.
Qed.

Lemma split_dot_plain (k : string) :
  includes k "."%char = false -> split_dot k = [k].
Proof.
  induction k as [|c k IH]; simpl; [reflexivity|]. intros H.
  apply orb_false_iff in H as [Hc H]. now rewrite Hc, (IH H).
Qed.

Lemma trim_tidy (k : string) : tidyKey k = true -> trim k = k.
Proof.
  intros H. apply tidyKey_spec in H as (_ & _ & _ & _ & _ & _ & Hs & He).
  unfold trim. now rewrite Hs, He.
Qed.

Lemma trim_marker (c : ascii) (k : string) :
  is_space c = false -> tidyKey k = true -> trim (String c k) = String c k.
Proof.
  intros Hc H. apply tidyKey_spec in H as (Hne & _ & _ & _ & _ & _ & _ & He).
  unfold trim. cbn [trimStart]. rewrite Hc. now apply trimEnd_cons.
Qed.

Lemma digit_not (c d : ascii) :
  Nat.leb 48 (nat_of_ascii c) && Nat.leb (nat_of_ascii c) 57 = true ->
  Nat.leb 48 (nat_of_ascii d) && Nat.leb (nat_of_ascii d) 57 = false ->
  Ascii.eqb c d = false.
Proof.
  intros Hc Hd. destruct (Ascii.eqb_spec c d) as [->|]; [|reflexivity].
  congruence.
Qed.

Lemma digit_not_space (c : ascii) :
  Nat.leb 48 (nat_of_ascii c) && Nat.leb (nat_of_ascii c) 57 = true ->
  is_space c = false.
Proof.
  unfold is_space. intros H. apply andb_prop in H as [H1 H2].
  apply Nat.leb_le in H1, H2.
  destruct (Nat.leb_spec (nat_of_ascii c) 13); [lia|].
  rewrite andb_false_r. cbn [orb].
  destruct (Nat.eqb_spec (nat_of_ascii c) 32); [lia|].
  destruct (Nat.eqb_spec (nat_of_ascii c) 160); [lia|reflexivity].
Qed.

Lemma digits_includes (k : string) (d : ascii) :
  digits k = true ->
  Nat.leb 48 (nat_of_ascii d) && Nat.leb (nat_of_ascii d) 57 = false ->
  includes k d = false.
Proof.
  intros Hk Hd. induction k as [|c k IH]; [reflexivity|].
  cbn [digits] in Hk. apply andb_prop in Hk as [Hc Hk].
  cbn [includes]. now rewrite (digit_not c d Hc Hd), (IH Hk).
Qed.

Lemma digits_trimEnd (k : string) : digits k = true -> trimEnd k = k.
Proof.
  induction k as [|c k IH]; [reflexivity|]. intros Hk.
  cbn [digits] in Hk. apply andb_prop in Hk as [Hc Hk].
  cbn [trimEnd]. rewrite (IH Hk), (digit_not_space c Hc).
  now destruct k.
Qed.

Lemma digits_tidyKey (k : string) :
  digits k = true -> k <> "" -> tidyKey k = true.
Proof.
  intros Hk Hne. destruct k as [|c k]; [contradiction|].
  pose proof (digits_trimEnd _ Hk) as He.
  pose proof (digits_includes _ "."%char Hk eq_refl) as Hdot.
  pose proof (digits_includes _ "}"%char Hk eq_refl) as Hbrace.
  cbn [digits] in Hk. apply andb_prop in Hk as [Hc Hk].
  unfold tidyKey. rewrite Hdot, Hbrace, He, String.eqb_refl.
  cbn [startsWith trimStart].
  rewrite (digit_not c "#"%char Hc eq_refl), (digit_not c "/"%char Hc eq_refl),
    (digit_not_space c Hc), String.eqb_refl.
  cbn [String.eqb]. rewrite (digit_not c "m"%char Hc eq_refl). reflexivity.
Qed.

Lemma string_of_uint_digits (u : Decimal.uint) :
  digits (NilEmpty.string_of_uint u) = true.
Proof. induction u; simpl; auto. Qed.

Lemma string_of_nat_tidy (i : nat) : tidyKey (string_of_nat i) = true.
Proof.
  apply digits_tidyKey; [apply string_of_uint_digits|].
  unfold string_of_nat. intros H.
  assert (Hnil : Nat.to_uint i = Decimal.Nil).
  { destruct (Nat.to_uint i); try discriminate H; reflexivity. }
  pose proof (DecimalNat.Unsigned.to_of (Nat.to_uint i)) as Hto.
  rewrite DecimalNat.Unsigned.of_to, Hnil in Hto.
  discriminate Hto.
Qed.

End Keys.


Section InPlace.
Local Open Scope string_scope.

Variable data : json.

Lemma onlyNullWarnings_refl (st : State) : onlyNullWarnings st st.
Proof.
  repeat split. exists []. split; [now rewrite app_nil_r|constructor].
Qed.

Lemma onlyNullWarnings_trans (st1 st2 st3 : State) :
  onlyNullWarnings st1 st2 -> onlyNullWarnings st2 st3 ->
  onlyNullWarnings st1 st3.
Proof.
  intros (Hc1 & Hl1 & Hi1 & ws1 & Hw1 & Hn1) (Hc2 & Hl2 & Hi2 & ws2 & Hw2 & Hn2).
  repeat split; try congruence.
  exists (ws1 ++ ws2)%list. split.
  - now rewrite Hw2, Hw1, app_assoc.
  - apply Forall_app. now split.
Qed.

Lemma holds_entry (props : list (string * json)) (k : string) (v : json) :
  distinct (map fst props) = true ->
  forallb (fun kv => tidyKey (fst kv) && tidy (snd kv)) props = true ->
  In (k, v) props ->
  holds (JObj props) k v.
Proof.
  intros Hd Ht Hin.
  assert (Hassoc : assoc k props = Some v).
  { clear Ht. induction props as [|[k' v'] props IH]; [destruct Hin|].
    cbn [map fst distinct] in Hd. apply andb_prop in Hd as [Hfresh Hd].
    cbn [assoc]. destruct Hin as [Heq|Hin].
    - injection Heq as -> ->. now rewrite String.eqb_refl.
    - destruct (String.eqb_spec k' k) as [->|_]; [|now apply IH].
      apply negb_true_iff in Hfresh.
      assert (Hex : existsb (String.eqb k) (map fst props) = true).
      { apply existsb_exists. exists k. split; [|apply String.eqb_refl].
        now apply (in_map fst) in Hin. }
      congruence. }
  assert (Hmodel : assoc "model" props = None).
  { clear Hd Hin Hassoc. induction props as [|[k' v'] props IH]; [reflexivity|].
    cbn [forallb fst snd] in Ht. apply andb_prop in Ht as [Hk Ht].
    apply andb_prop in Hk as [Hk _].
    apply tidyKey_spec in Hk as (_ & Hm & _).
    cbn [assoc]. destruct (String.eqb_spec k' "model"); [contradiction|].
    now apply IH. }
  unfold holds. cbn [hasProp ownProp]. rewrite Hassoc, Hmodel.
  repeat split.
Qed.

Lemma holds_element (elems : list json) (i : nat) (v : json) :
  nth_error elems i = Some v -> holds (JArr elems) (string_of_nat i) v.
Proof.
  intros Hnth. unfold holds.
  rewrite ownProp_element, Hnth. cbn [hasProp].
  destruct (String.eqb_spec (string_of_nat i) "length") as [H|_];
    [now apply string_of_nat_not_length in H|].
  rewrite array_index_string_of_nat.
  assert (Hlt : i < List.length elems) by (apply nth_error_Some; congruence).
  apply Nat.ltb_lt in Hlt. rewrite Hlt. repeat split.
Qed.

Lemma getNestedValue_held (ctx : json) (key : string) (v : json) :
  holds ctx key v -> tidyKey key = true ->
  getNestedValue (Val ctx) key = Ok (Val v).
Proof.
  intros (Hobj & _ & Hprop & Hmodel) Hkey.
  apply tidyKey_spec in Hkey as (_ & _ & Hdot & _).
  unfold getNestedValue.
  destruct ctx; try discriminate Hobj; cbn [getProp bind];
    rewrite truthy_object, Hmodel, (split_dot_plain _ Hdot);
    cbn [descend isNull isUndefined orb getProp bind]; now rewrite Hprop.
Qed.

(** The placeholder of a plain field of the current context adds at most a
    null-value warning. *)
Lemma visit_plain (ctx : json) (key : string) (v : json) (st : State)
  (text : string) (pos : nat) :
  holds ctx key v -> tidyKey key = true ->
  top (contextStack st) = Val ctx ->
  exists st',
    visit data (mkPlaceholder text key pos) st = Ok st'
    /\ onlyNullWarnings st st'.
Proof.
  intros (Hobj & Hhas & Hprop & Hmodel) Hkey Htop.
  apply tidyKey_spec in Hkey as (_ & _ & Hdot & _ & Hopen & Hclose & _).
  unfold visit. cbn [field]. rewrite Hopen, Hclose.
  unfold plainField. rewrite Htop. cbn [isUndefined].
  rewrite Hdot, Hobj, Hhas. cbn [bind].
  assert (Hget : getProp (Val ctx) key = Ok (Val v)).
  { destruct ctx; try discriminate Hobj; cbn [getProp]; now rewrite Hprop. }
  rewrite Hget. cbn [bind isUndefined].
  destruct (isNull (Val v)); eexists; (split; [reflexivity|]).
  - repeat split. exists [msgNull key]. split; [reflexivity|].
    constructor; [now exists key|constructor].
  - apply onlyNullWarnings_refl.
Qed.

(** The scope-open marker of an object or of an array that starts with an
    object or array enters the scope. *)
Lemma visit_open (ctx : json) (key : string) (v : json) (st : State)
  (text : string) (pos : nat) :
  holds ctx key v -> tidyKey key = true ->
  top (contextStack st) = Val ctx ->
  isObject (Val v) = true ->
  visit data (mkPlaceholder text (String "#"%char key) pos) st
  = Ok (enter st (if isArray (Val v) then itemContext (Val v) else Val v) key).
Proof.
  intros Hholds Hkey Htop Hv.
  unfold visit. cbn [field startsWith]. rewrite Ascii.eqb_refl.
  unfold openMarker. cbn [substring1]. rewrite Htop.
  rewrite (getNestedValue_held _ _ _ Hholds Hkey). cbn [bind isUndefined].
  destruct (isArray (Val v)); [reflexivity|now rewrite Hv].
Qed.

(** The scope-close marker of the scope entered last leaves it. *)
Lemma visit_close (key : string) (st : State) (names : list string)
  (text : string) (pos : nat) :
  loopStack st = push names key ->
  visit data (mkPlaceholder text (String "/"%char key) pos) st = Ok (leave st).
Proof.
  intros Hloop. unfold visit. cbn [field startsWith].
  change (Ascii.eqb "/" "#") with false. rewrite Ascii.eqb_refl.
  unfold closeMarker. cbn [substring1]. rewrite Hloop.
  unfold push, topName. rewrite length_app, map_app.
  cbn [List.length map]. rewrite last_last, Nat.add_1_r. cbn [Nat.eqb].
  now rewrite String.eqb_refl.
Qed.

Lemma leave_enter (st st2 : State) (c : value) (key : string) :
  onlyNullWarnings (enter st c key) st2 -> onlyNullWarnings st (leave st2).
Proof.
  intros (Hc & Hl & Hi & ws & Hw & Hn).
  unfold onlyNullWarnings, leave.
  cbn [contextStack loopStack issuesSoFar warningsSoFar enter] in *.
  rewrite Hc, Hl. unfold pop, push. rewrite !removelast_last.
  repeat split; try assumption. now exists ws.
Qed.

Lemma forEach_inPlace {A : Type} (f : A -> list Field -> result (list Field))
  (ctx : json) (xs : list A) :
  (forall x, In x xs ->
     forall fs fs' st,
       f x fs = Ok fs' -> top (contextStack st) = Val ctx ->
       exists out st',
         fs' = (fs ++ out)%list
         /\ Forall tokenOk out
         /\ forEach (visit data) (map asPlaceholder out) st = Ok st'
         /\ onlyNullWarnings st st') ->
  forall fs fs' st,
    forEach f xs fs = Ok fs' -> top (contextStack st) = Val ctx ->
    exists out st',
      fs' = (fs ++ out)%list
      /\ Forall tokenOk out
      /\ forEach (visit data) (map asPlaceholder out) st = Ok st'
      /\ onlyNullWarnings st st'.
Proof.
  induction xs as [|x xs IH]; intros Hf fs fs' st H Htop; simpl in H.
  - injection H as <-. exists [], st.
    split; [now rewrite app_nil_r|].
    split; [constructor|].
    split; [reflexivity|apply onlyNullWarnings_refl].
  - destruct (f x fs) as [fs1|] eqn:E; [|discriminate].
    destruct (Hf x (or_introl eq_refl) _ _ st E Htop)
      as (out1 & st1 & -> & Hok1 & Hrun1 & Hsame1).
    assert (Htop1 : top (contextStack st1) = Val ctx).
    { destruct Hsame1 as (Hc & _). now rewrite Hc. }
    destruct (IH (fun y Hy => Hf y (or_intror Hy)) _ _ st1 H Htop1)
      as (out2 & st2 & -> & Hok2 & Hrun2 & Hsame2).
    exists (out1 ++ out2)%list, st2.
    split; [now rewrite app_assoc|].
    split; [apply Forall_app; now split|].
    split; [|eapply onlyNullWarnings_trans; eassumption].
    rewrite map_app, forEach_app, Hrun1. exact Hrun2.
Qed.

Lemma forEachIndexed_inPlace {A : Type}
  (f : nat -> A -> list Field -> result (list Field))
  (ctx : json) (xs : list A) :
  forall i,
    (forall j x, nth_error xs j = Some x ->
       forall fs fs' st,
         f (i + j) x fs = Ok fs' -> top (contextStack st) = Val ctx ->
         exists out st',
           fs' = (fs ++ out)%list
           /\ Forall tokenOk out
           /\ forEach (visit data) (map asPlaceholder out) st = Ok st'
           /\ onlyNullWarnings st st') ->
    forall fs fs' st,
      forEachIndexed f i xs fs = Ok fs' -> top (contextStack st) = Val ctx ->
      exists out st',
        fs' = (fs ++ out)%list
        /\ Forall tokenOk out
        /\ forEach (visit data) (map asPlaceholder out) st = Ok st'
        /\ onlyNullWarnings st st'.
Proof.
  induction xs as [|x xs IH]; intros i Hf fs fs' st H Htop; simpl in H.
  - injection H as <-. exists [], st.
    split; [now rewrite app_nil_r|].
    split; [constructor|].
    split; [reflexivity|apply onlyNullWarnings_refl].
  - destruct (f i x fs) as [fs1|] eqn:E; [|discriminate].
    rewrite <- (Nat.add_0_r i) in E.
    destruct (Hf 0 x eq_refl _ _ st E Htop)
      as (out1 & st1 & -> & Hok1 & Hrun1 & Hsame1).
    assert (Htop1 : top (contextStack st1) = Val ctx).
    { destruct Hsame1 as (Hc & _). now rewrite Hc. }
    assert (Hf' : forall j y, nth_error xs j = Some y ->
                  forall fs fs' st,
                    f (S i + j) y fs = Ok fs' ->
                    top (contextStack st) = Val ctx ->
                    exists out st',
                      fs' = (fs ++ out)%list
                      /\ Forall tokenOk out
                      /\ forEach (visit data) (map asPlaceholder out) st = Ok st'
                      /\ onlyNullWarnings st st').
    { intros j y Hy fs0 fs0' st0 H0. apply (Hf (S j) y Hy).
      now rewrite Nat.add_succ_r. }
    destruct (IH (S i) Hf' _ _ st1 H Htop1)
      as (out2 & st2 & -> & Hok2 & Hrun2 & Hsame2).
    exists (out1 ++ out2)%list, st2.
    split; [now rewrite app_assoc|].
    split; [apply Forall_app; now split|].
    split; [|eapply onlyNullWarnings_trans; eassumption].
    rewrite map_app, forEach_app, Hrun1. exact Hrun2.
Qed.

End InPlace.


Section PaletteTemplate.
Local Open Scope string_scope.

Variable data : json.

Lemma tokenOk_key (n l : string) (lvl : nat) (t : FieldType) (m key : string) :
  tidyKey key = true -> includes m "}"%char = false ->
  tokenOk (mkField n l ("{{" ++ m ++ key ++ "}}") lvl t).
Proof.
  intros Hkey Hm. apply tidyKey_spec in Hkey as (Hne & _ & _ & Hbrace & _).
  exists (m ++ key). cbn [placeholder]. repeat split.
  - now rewrite append_assoc.
  - destruct m; [exact Hne|discriminate].
  - now rewrite includes_append, Hm, Hbrace.
Qed.

Lemma plain_inPlace (ctx : json) (key : string) (v : json) (st : State)
  (fs : list Field) (n l : string) (lvl : nat) (t : FieldType) :
  holds ctx key v -> tidyKey key = true ->
  top (contextStack st) = Val ctx ->
  exists out st',
    push fs (mkField n l ("{{" ++ key ++ "}}") lvl t) = (fs ++ out)%list
    /\ Forall tokenOk out
    /\ forEach (visit data) (map asPlaceholder out) st = Ok st'
    /\ onlyNullWarnings st st'.
Proof.
  intros Hholds Hkey Htop.
  destruct (visit_plain data ctx key v st ("{{" ++ key ++ "}}") 0
              Hholds Hkey Htop) as (st' & Hvisit & Hsame).
  exists [mkField n l ("{{" ++ key ++ "}}") lvl t], st'.
  split; [reflexivity|].
  split; [constructor; [exact (tokenOk_key n l lvl t "" key Hkey eq_refl)
                       |constructor]|].
  split; [|exact Hsame].
  cbn [map forEach]. unfold asPlaceholder.
  rewrite tokenField_braces, (trim_tidy _ Hkey). cbn [placeholder].
  now rewrite Hvisit.
Qed.

Lemma scope_inPlace (ctx : json) (key : string) (v : json) (st st2 : State)
  (fs fs2 body : list Field) (n l n' l' : string) (lvl : nat)
  (t t' : FieldType) :
  holds ctx key v -> tidyKey key = true ->
  top (contextStack st) = Val ctx ->
  isObject (Val v) = true ->
  fs2 = (push fs (mkField n l ("{{#" ++ key ++ "}}") lvl t) ++ body)%list ->
  Forall tokenOk body ->
  forEach (visit data) (map asPlaceholder body)
    (enter st (if isArray (Val v) then itemContext (Val v) else Val v) key)
  = Ok st2 ->
  onlyNullWarnings
    (enter st (if isArray (Val v) then itemContext (Val v) else Val v) key) st2 ->
  exists out st',
    push fs2 (mkField n' l' ("{{/" ++ key ++ "}}") lvl t') = (fs ++ out)%list
    /\ Forall tokenOk out
    /\ forEach (visit data) (map asPlaceholder out) st = Ok st'
    /\ onlyNullWarnings st st'.
Proof.
  intros Hholds Hkey Htop Hv -> Hbody Hrun Hsame.
  exists (mkField n l ("{{#" ++ key ++ "}}") lvl t
            :: body ++ [mkField n' l' ("{{/" ++ key ++ "}}") lvl t'])%list,
    (leave st2).
  split; [unfold push; now rewrite <- !app_assoc|].
  split.
  { constructor; [exact (tokenOk_key n l lvl t "#" key Hkey eq_refl)|].
    apply Forall_app. split; [exact Hbody|].
    constructor; [exact (tokenOk_key n' l' lvl t' "/" key Hkey eq_refl)
                 |constructor]. }
  split; [|exact (leave_enter _ _ _ _ Hsame)].
  cbn [map forEach]. unfold asPlaceholder at 1.
  change ("{{#" ++ key ++ "}}") with ("{{" ++ String "#" key ++ "}}").
  rewrite tokenField_braces, (trim_marker "#"%char key eq_refl Hkey).
  cbn [placeholder].
  rewrite (visit_open data ctx key v st _ 0 Hholds Hkey Htop Hv).
  rewrite map_app, forEach_app, Hrun. cbn [bind map forEach].
  unfold asPlaceholder.
  change ("{{/" ++ key ++ "}}") with ("{{" ++ String "/" key ++ "}}").
  rewrite tokenField_braces, (trim_marker "/"%char key eq_refl Hkey).
  cbn [placeholder].
  destruct Hsame as (_ & Hloop & _). cbn [enter loopStack] in Hloop.
  now rewrite (visit_close data key st2 _ _ 0 Hloop).
Qed.

Lemma top_enter (st : State) (c : value) (key : string) :
  top (contextStack (enter st c key)) = c.
Proof. unfold top, enter, push. cbn [contextStack]. apply last_last. Qed.

Lemma tidy_entries (props : list (string * json)) (k : string) (c : json) :
  tidy (JObj props) = true -> In (k, c) props ->
  tidyKey k = true /\ tidy c = true /\ holds (JObj props) k c.
Proof.
  cbn [tidy]. intros H Hin. apply andb_prop in H as [Hd Ht].
  pose proof (proj1 (forallb_forall _ _) Ht (k, c) Hin) as Hkc.
  cbn [fst snd] in Hkc. apply andb_prop in Hkc as [Hk Hc].
  repeat split; try assumption; now apply (holds_entry props k c Hd Ht).
Qed.

Lemma tidy_elements (elems : list json) (c : json) :
  tidy (JArr elems) = true -> In c elems -> tidy c = true.
Proof.
  cbn [tidy]. intros H Hin. apply andb_prop in H as [_ Ht].
  exact (proj1 (forallb_forall _ _) Ht c Hin).
Qed.

Lemma processValue_inPlace_children (v : json) :
  (tidy v = true -> validatesInPlace data v)
  /\ (forall c, In c (children v) -> tidy c = true -> validatesInPlace data c).
Proof.
  induction v as [| b | n | s | items IH | props IH] using json_ind;
    (split; [|try (intros c []) ]).
  - intros _ key parentPath lvl fs fs' ctx st H Hkey Htop Hholds.
    injection H as <-. now apply (plain_inPlace ctx key JNull).
  - intros _ key parentPath lvl fs fs' ctx st H Hkey Htop Hholds.
    injection H as <-. now apply (plain_inPlace ctx key (JBool b)).
  - intros _ key parentPath lvl fs fs' ctx st H Hkey Htop Hholds.
    injection H as <-. now apply (plain_inPlace ctx key (JNum n)).
  - intros _ key parentPath lvl fs fs' ctx st H Hkey Htop Hholds.
    injection H as <-. now apply (plain_inPlace ctx key (JStr s)).
  - intros Hv key parentPath lvl fs fs' ctx st H Hkey Htop Hholds.
    destruct items as [|firstItem rest].
    { injection H as <-. now apply (plain_inPlace ctx key (JArr [])). }
    destruct (IH firstItem (or_introl eq_refl)) as [_ Hchildren].
    assert (Hfirst : tidy firstItem = true).
    { apply (tidy_elements _ _ Hv). now left. }
    cbn [processValue] in H.
    destruct firstItem as [| b | n | s | elems | fprops]; cbn [typeof] in H;
      simpl String.eqb in H; cbv iota in H;
      try discriminate Hv;
      try (injection H as <-; now eapply plain_inPlace; eauto).
    + match type of H with
      | bind ?loop _ = _ => destruct loop as [fs2|] eqn:E; [|discriminate H]
      end.
      cbn [bind] in H. injection H as <-.
      eapply (forEachIndexed_inPlace data) with
        (ctx := JArr elems) (st := enter st (Val (JArr elems)) key) in E;
        [destruct E as (body & st2 & Hfs2 & Hbody & Hrun & Hsame)
        | |apply top_enter]; cycle 1.
      * intros j x Hx fs0 fs0' st0 H0 Htop0. cbn [Nat.add] in H0.
        apply (Hchildren x (nth_error_In _ _ Hx)
                 (tidy_elements _ _ Hfirst (nth_error_In _ _ Hx))
                 _ _ _ _ _ (JArr elems) st0 H0 (string_of_nat_tidy j) Htop0).
        now apply holds_element.
      * eapply (scope_inPlace ctx key (JArr (JArr elems :: rest)));
          try eassumption; reflexivity.
    + match type of H with
      | bind ?loop _ = _ => destruct loop as [fs2|] eqn:E; [|discriminate H]
      end.
      cbn [bind] in H. injection H as <-.
      eapply (forEach_inPlace data) with
        (ctx := JObj fprops) (st := enter st (Val (JObj fprops)) key) in E;
        [destruct E as (body & st2 & Hfs2 & Hbody & Hrun & Hsame)
        | |apply top_enter]; cycle 1.
      * intros [k x] Hx fs0 fs0' st0 H0 Htop0. cbn [fst snd] in H0.
        destruct (tidy_entries _ _ _ Hfirst Hx) as (Hk & Hc & Hh).
        exact (Hchildren x (in_map snd _ _ Hx) Hc
                 _ _ _ _ _ (JObj fprops) st0 H0 Hk Htop0 Hh).
      * eapply (scope_inPlace ctx key (JArr (JObj fprops :: rest)));
          try eassumption; reflexivity.
  - intros c Hc. exact (proj1 (IH c Hc)).
  - intros Hv key parentPath lvl fs fs' ctx st H Hkey Htop Hholds.
    cbn [processValue] in H.
    match type of H with
    | bind ?loop _ = _ => destruct loop as [fs2|] eqn:E; [|discriminate H]
    end.
    cbn [bind] in H. injection H as <-.
    eapply (forEach_inPlace data) with
      (ctx := JObj props) (st := enter st (Val (JObj props)) key) in E;
      [destruct E as (body & st2 & Hfs2 & Hbody & Hrun & Hsame)
      | |apply top_enter]; cycle 1.
    + intros [k x] Hx fs0 fs0' st0 H0 Htop0. cbn [fst snd] in H0.
      destruct (tidy_entries _ _ _ Hv Hx) as (Hk & Hc & Hh).
      exact (proj1 (IH k x Hx) Hc _ _ _ _ _ (JObj props) st0 H0 Hk Htop0 Hh).
    + eapply (scope_inPlace ctx key (JObj props)); try eassumption; reflexivity.
  - intros c Hc. apply in_map_iff in Hc as ([k x] & <- & Hx).
    exact (proj1 (IH k x Hx)).
Qed.

End PaletteTemplate.


Section PaletteRoundTrip.
Local Open Scope string_scope.

Lemma tidy_noNullHead (v : json) : tidy v = true -> noNullHead v = true.
Proof.
  induction v as [| b | n | s | items IH | props IH] using json_ind;
    try reflexivity; cbn [tidy noNullHead]; intros H;
    apply andb_prop in H as [H1 H2].
  - rewrite H1. cbn [andb]. apply forallb_forall. intros x Hx.
    apply (IH x Hx). exact (proj1 (forallb_forall _ _) H2 x Hx).
  - apply forallb_forall. intros [k x] Hx.
    pose proof (proj1 (forallb_forall _ _) H2 (k, x) Hx) as Hkx.
    cbn [fst snd] in *. apply andb_prop in Hkx as [_ Hkx].
    now apply (IH k x Hx).
Qed.

Lemma tidy_no_model (props : list (string * json)) :
  tidy (JObj props) = true -> ownProp (JObj props) "model" = Undefined.
Proof.
  cbn [tidy ownProp]. intros H. apply andb_prop in H as [_ Ht].
  induction props as [|[k v] props IH]; [reflexivity|].
  cbn [forallb fst snd] in Ht. apply andb_prop in Ht as [Hk Ht].
  apply andb_prop in Hk as [Hk _].
  apply tidyKey_spec in Hk as (_ & Hm & _).
  cbn [assoc]. destruct (String.eqb_spec k "model"); [contradiction|].
  now apply IH.
Qed.

Lemma tokenOk_inners (fs : list Field) :
  Forall tokenOk fs ->
  exists inners,
    map placeholder fs = map (fun inner => "{{" ++ inner ++ "}}") inners
    /\ Forall (fun inner => inner <> "" /\ includes inner "}"%char = false)
         inners
    /\ map tokenField fs = map trim inners.
Proof.
  induction 1 as [|f fs (inner & Hph & Hne & Hrun) _ (inners & Hm & Hall & Ht)].
  - exists []. repeat split. constructor.
  - exists (inner :: inners). cbn [map]. rewrite Hm, Ht.
    split; [now rewrite Hph|]. split; [now constructor|].
    f_equal. destruct f as [n l ph lvl t]. cbn [placeholder] in Hph. subst ph.
    apply tokenField_braces.
Qed.

(** The scan of the palette template reads back the fields of its
    placeholders. *)
Lemma scan_paletteTemplate (sep : string) (fs : list Field) :
  includes sep "{"%char = false ->
  Forall tokenOk fs ->
  map field (scanPlaceholders (paletteTemplate sep fs))
  = map field (map asPlaceholder fs).
Proof.
  intros Hsep Hfs.
  destruct (tokenOk_inners fs Hfs) as (inners & Hm & Hall & Ht).
  unfold scanPlaceholders, paletteTemplate. rewrite Hm.
  rewrite (scan_concat sep inners Hsep Hall _ 0 (le_n _)).
  rewrite map_map. cbn [asPlaceholder field]. now rewrite <- Ht.
Qed.

End PaletteRoundTrip.

Lemma scan_single (inner : string) :
  inner <> "" ->
  includes inner "}"%char = false ->
  scanPlaceholders ("{{" ++ inner ++ "}}")
  = [mkPlaceholder ("{{" ++ inner ++ "}}") (trim inner) 0].
Proof.
  intros Hne Hrun. unfold scanPlaceholders.
  change (String.length ("{{" ++ inner ++ "}}")%string)
    with (S (S (String.length (inner ++ "}}")%string))).
  cbn [scan].
  replace ("{{" ++ inner ++ "}}")%string with ("{{" ++ inner ++ "}}" ++ "")%string
    by reflexivity.
  rewrite (exec_token inner "" 0 Hne Hrun). cbn [m_0 m_1 m_index m_rest].
  reflexivity.
Qed.

(** X15: a placeholder written as two opening braces, a non-empty text
    without a closing brace and two closing braces is read back by the scan
    as exactly that one placeholder, at offset 0, with the trimmed text as
    its field. *)
Theorem scanPlaceholders_single (inner : string) :
  inner <> "" ->
  includes inner "}"%char = false ->
  scanPlaceholders ("{{" ++ inner ++ "}}")
  = [mkPlaceholder ("{{" ++ inner ++ "}}") (trim inner) 0].
Proof. apply scan_single. Qed.

Lemma scanPlaceholders_single_witness :
  scanPlaceholders ("{{" ++ " #order.lines " ++ "}}")
  = [mkPlaceholder ("{{" ++ " #order.lines " ++ "}}") (trim " #order.lines ") 0].
Proof.
  apply scanPlaceholders_single; [discriminate|reflexivity].
Defined.

(** X16: a template that holds the placeholders of the palette in their
    order, with any brace-free text between them, passes the validator
    against the data the palette was extracted from: for a root object whose
    keys at every level are distinct and tidy and whose arrays do not start
    with [null], the extractor returns a palette, and the report for that
    template has no issue, counts one placeholder per palette entry, and
    warns about null values only (or about the absence of placeholders, for
    the empty object). *)
Theorem paletteTemplate_validates (props : list (string * json)) (sep : string) :
  tidy (JObj props) = true ->
  includes sep "{"%char = false ->
  exists fields report,
    extractFieldsFromJson (JObj props) = Ok fields
    /\ validateTemplate (paletteTemplate sep fields) (JObj props) = Ok report
    /\ issues report = []
    /\ placeholderCount report = List.length fields
    /\ Forall (fun w => (exists fld, w = msgNull fld) \/ w = msgNoPlaceholders)
         (warnings report).
Proof.
  intros Htidy Hsep.
  assert (Hextract : extractFieldsFromJson (JObj props)
                     = processModel (JObj props) []).
  { unfold extractFieldsFromJson. cbn [isArray].
    change ((typeof (Val (JObj props)) =? "object")%string
            && negb (isNull (Val (JObj props)))) with true.
    cbv iota. now rewrite (tidy_no_model props Htidy). }
  destruct (processModel_returns (JObj props) [])
    as [fields Hfields]; [discriminate|now apply tidy_noNullHead|].
  pose proof Hfields as Hrun. cbn [processModel] in Hrun.
  eapply (forEach_inPlace (JObj props)) with
    (ctx := JObj props) (st := initialState (JObj props)) in Hrun;
    [destruct Hrun as (out & st' & Hout & Hok & Hrun & Hsame)| |reflexivity];
    cycle 1.
  { intros [k x] Hx fs0 fs0' st0 H0 Htop0. cbn [fst snd] in H0.
    destruct (tidy_entries _ _ _ Htidy Hx) as (Hk & Hc & Hh).
    exact (proj1 (processValue_inPlace_children (JObj props) x) Hc
             _ _ _ _ _ (JObj props) st0 H0 Hk Htop0 Hh). }
  cbn [app] in Hout. subst out.
  exists fields.
  pose proof (scan_paletteTemplate sep fields Hsep Hok) as Hscan.
  assert (Hlen : List.length (scanPlaceholders (paletteTemplate sep fields))
                 = List.length fields).
  { now rewrite <- (length_map field), Hscan, !length_map. }
  unfold validateTemplate. rewrite Hlen.
  destruct fields as [|f fields].
  - eexists. split; [now rewrite Hextract|].
    split; [reflexivity|]. cbn [issues placeholderCount warnings List.length].
    repeat split. constructor; [now right|constructor].
  - cbn [List.length Nat.eqb].
    rewrite (forEach_visit_fields _ _ _ Hscan), Hrun. cbn [bind].
    eexists. split; [now rewrite Hextract|].
    split; [reflexivity|]. cbn [issues placeholderCount warnings].
    destruct Hsame as (_ & Hloop & Hissues & ws & Hws & Hnull).
    rewrite reportUnclosed_spec, Hloop, Hissues, Hws.
    cbn [initialState loopStack issuesSoFar warningsSoFar map app].
    rewrite app_nil_r. repeat split.
    apply Forall_forall. intros w Hw. left.
    exact (proj1 (Forall_forall _ _) Hnull w Hw).
Qed.

Lemma paletteTemplate_validates_witness :
  exists fields report,
    extractFieldsFromJson
      (JObj [("customer", JObj [("name", JStr "Ada"); ("phone", JNull)]);
             ("items", JArr [JObj [("qty", JNum 2)]; JObj []]);
             ("tags", JArr [JStr "a"])])
    = Ok fields
    /\ validateTemplate (paletteTemplate ", " fields)
         (JObj [("customer", JObj [("name", JStr "Ada"); ("phone", JNull)]);
                ("items", JArr [JObj [("qty", JNum 2)]; JObj []]);
                ("tags", JArr [JStr "a"])])
       = Ok report
    /\ issues report = []
    /\ placeholderCount report = List.length fields
    /\ Forall (fun w => (exists fld, w = msgNull fld) \/ w = msgNoPlaceholders)
         (warnings report).
Proof.
  apply paletteTemplate_validates; reflexivity.
Defined.

(** * extractTextFromSections *)

Section TextFacts.
Local Open Scope string_scope.

Variable numberToString : Q -> string.

Lemma append_nil_r (s : string) : s ++ "" = s.
Proof. induction s as [|c s IH]; simpl; [reflexivity|now rewrite IH]. Qed.

(** A callback that appends to its accumulator can be run on the empty
    accumulator and its output appended afterwards. *)
Lemma forEach_prefix {A : Type} (f : A -> string -> result string) :
  (forall x acc, f x acc = bind (f x "") (fun t => Ok (acc ++ t))) ->
  forall xs acc,
    forEach f xs acc = bind (forEach f xs "") (fun t => Ok (acc ++ t)).
Proof.
  intros Hf. induction xs as [|x xs IH]; intros acc.
  - simpl. now rewrite append_nil_r.
  - cbn [forEach]. rewrite (Hf x acc).
    destruct (f x "") as [t|]; [|reflexivity]. cbn [bind].
    rewrite (IH (acc ++ t)), (IH t).
    destruct (forEach f xs "") as [u|]; [|reflexivity]. cbn [bind].
    now rewrite append_assoc.
Qed.

Lemma addInline_prefix (inline : json) (acc : string) :
  addInline numberToString inline acc
  = bind (addInline numberToString inline "") (fun t => Ok (acc ++ t)).
Proof.
  unfold addInline.
  destruct (getProp (Val inline) "type") as [ty|]; [|reflexivity].
  cbn [bind].
  destruct (strictEquals ty "r").
  - destruct (getProp (Val inline) "text") as [text|]; [|reflexivity].
    cbn [bind]. destruct (truthy text); cbn [bind append].
    { destruct (toStringValue numberToString text); reflexivity. }
    destruct (strictEquals ty "break/line"); cbn [bind append];
      [reflexivity|].
    destruct (strictEquals ty "break/page"); cbn [bind append];
      [reflexivity|now rewrite append_nil_r].
  - cbn [bind].
    destruct (strictEquals ty "break/line"); cbn [bind append];
      [reflexivity|].
    destruct (strictEquals ty "break/page"); cbn [bind append];
      [reflexivity|now rewrite append_nil_r].
Qed.

Lemma addElement_prefix (element : json) (acc : string) :
  addElement numberToString element acc
  = bind (addElement numberToString element "") (fun t => Ok (acc ++ t)).
Proof.
  unfold addElement.
  destruct (getProp (Val element) "type") as [ty|]; [|reflexivity].
  cbn [bind].
  destruct (strictEquals ty "p"); [|cbn [bind]; now rewrite append_nil_r].
  destruct (getProp (Val element) "elements") as [inlines|]; [|reflexivity].
  cbn [bind].
  destruct (if isArray inlines then _ else _) as [p|]; [|reflexivity].
  cbn [bind append]. now rewrite append_assoc.
Qed.

Lemma addSection_prefix (section : json) (acc : string) :
  addSection numberToString section acc
  = bind (addSection numberToString section "") (fun t => Ok (acc ++ t)).
Proof.
  unfold addSection.
  destruct (getProp (Val section) "elements") as [elements|]; [|reflexivity].
  cbn [bind].
  destruct (isArray elements); [|cbn [bind]; now rewrite append_nil_r].
  apply forEach_prefix, addElement_prefix.
Qed.

Lemma getProp_present (j : json) (k : string) :
  j <> JNull -> getProp (Val j) k = Ok (ownProp j k).
Proof. destruct j; try reflexivity. contradiction. Qed.

(** A loop returns exactly when each of its steps does, where a step
    returns or throws whatever the accumulator. *)
Lemma forEach_returns_iff {A St : Type} (f : A -> St -> result St)
  (ok : A -> bool) (xs : list A) :
  (forall x s, (exists s', f x s = Ok s') <-> ok x = true) ->
  forall s, (exists s', forEach f xs s = Ok s') <-> forallb ok xs = true.
Proof.
  intros Hf. induction xs as [|x xs IH]; intros s; cbn [forEach forallb].
  - split; eauto.
  - rewrite andb_true_iff, <- (Hf x s). split.
    + destruct (f x s) as [s1|]; [|intros [? H]; discriminate H].
      intros H. split; [eauto|]. now apply (IH s1).
    + intros [[s1 ->] H]. now apply (IH s1).
Qed.

(** ToString returns exactly on the convertible values. *)
Lemma toStringJs_convertible (j : json) :
  (exists s, toStringJs numberToString j = Ok s) <-> convertible j = true.
Proof.
  induction j as [| b | n | s | items IH | props _] using json_ind;
    try (split; [reflexivity|intros _; cbn [toStringJs]; eauto]).
  - destruct b; eauto.
  - cbn [toStringJs convertible].
    match goal with
    | |- (exists s, bind (?conv items) _ = Ok s) <-> _ =>
        assert (Hconv : (exists parts, conv items = Ok parts)
                        <-> forallb convertible items = true)
    end.
    { induction items as [|x items IHitems]; [split; eauto|].
      cbn [forallb]. rewrite andb_true_iff.
      rewrite <- (IH x (or_introl eq_refl)).
      rewrite <- (IHitems (fun y Hy => IH y (or_intror Hy))).
      assert (Hx : (exists part,
                       match x with
                       | JNull => Ok ""
                       | _ => toStringJs numberToString x
                       end = Ok part)
                   <-> (exists s, toStringJs numberToString x = Ok s)).
      { destruct x; try reflexivity. split; intros _; cbn [toStringJs]; eauto. }
      rewrite <- Hx. split.
      - intros [parts H].
        destruct (match x with JNull => Ok "" | _ => _ end) as [part|];
          [|discriminate H].
        cbn [bind] in H. split; [eauto|].
        match type of H with
        | bind ?rest _ = _ => destruct rest as [ps|]; [eauto|discriminate H]
        end.
      - intros [[part ->] [ps Hps]]. cbn [bind]. rewrite Hps. cbn [bind]. eauto. }
    rewrite <- Hconv. split.
    + intros [s H].
      match type of H with
      | bind ?c _ = _ => destruct c as [parts|]; [eauto|discriminate H]
      end.
    + intros [parts ->]. cbn [bind]. eauto.
  - cbn [toStringJs convertible].
    destruct (isUndefined (ownProp (JObj props) "toString")); split.
    + reflexivity.
    + eauto.
    + intros [s H]; discriminate H.
    + discriminate.
Qed.

Lemma addInline_returns_iff (inline : json) (acc : string) :
  (exists t, addInline numberToString inline acc = Ok t)
  <-> inlinePresent inline = true.
Proof.
  unfold inlinePresent, runText. rewrite andb_true_iff. split.
  - intros [t H].
    assert (Hne : inline <> JNull) by (intros ->; discriminate H).
    split; [now destruct inline|].
    unfold addInline in H. rewrite !(getProp_present _ _ Hne) in H.
    cbn [bind] in H.
    destruct (strictEquals (ownProp inline "type") "r"); [|reflexivity].
    cbn [bind andb] in H |- *.
    destruct (truthy (ownProp inline "text")); [|reflexivity].
    destruct (ownProp inline "text") as [|text]; [reflexivity|].
    cbn [toStringValue] in H.
    apply toStringJs_convertible.
    destruct (toStringJs numberToString text) as [s|]; [eauto|discriminate H].
  - intros [H Hconv].
    assert (Hne : inline <> JNull) by (intros ->; discriminate H).
    unfold addInline. rewrite !(getProp_present _ _ Hne). cbn [bind].
    destruct (strictEquals (ownProp inline "type") "r"); cbn [bind andb] in *.
    + destruct (truthy (ownProp inline "text")).
      * destruct (ownProp inline "text") as [|text]; cbn [toStringValue bind];
          [eauto|].
        apply toStringJs_convertible in Hconv. destruct Hconv as [s ->].
        cbn [bind]. eauto.
      * repeat (match goal with
                | |- context [if ?b then _ else _] => destruct b
                end; cbn [bind]);
          eauto.
    + repeat (match goal with
              | |- context [if ?b then _ else _] => destruct b
              end; cbn [bind]);
        eauto.
Qed.

Lemma addElement_returns_iff (element : json) (acc : string) :
  (exists t, addElement numberToString element acc = Ok t)
  <-> elementPresent element = true.
Proof.
  unfold elementPresent. rewrite andb_true_iff. split.
  - intros [t H].
    assert (Hne : element <> JNull) by (intros ->; discriminate H).
    split; [now destruct element|].
    unfold addElement in H. rewrite !(getProp_present _ _ Hne) in H.
    cbn [bind] in H.
    destruct (strictEquals (ownProp element "type") "p"); [|reflexivity].
    unfold inlinesPresent.
    apply (forEach_returns_iff (addInline numberToString) _ _
             (fun x s => addInline_returns_iff x s) "").
    destruct (ownProp element "elements") as [|[]]; cbn [isArray itemsOf] in *;
      try (now exists "").
    destruct (forEach _ _ _) as [p|]; [eauto|discriminate H].
  - intros [Hnn Hin].
    assert (Hne : element <> JNull) by (intros ->; discriminate Hnn).
    unfold addElement. rewrite !(getProp_present _ _ Hne). cbn [bind].
    destruct (strictEquals (ownProp element "type") "p"); [|eauto].
    apply (forEach_returns_iff (addInline numberToString) _ _
             (fun x s => addInline_returns_iff x s) "") in Hin.
    destruct Hin as [p Hp].
    destruct (ownProp element "elements") as [|[]]; cbn [isArray itemsOf] in *;
      cbn [bind]; eauto.
    rewrite Hp. cbn [bind]. eauto.
Qed.

Lemma addSection_returns_iff (section : json) (acc : string) :
  (exists t, addSection numberToString section acc = Ok t)
  <-> sectionPresent section = true.
Proof.
  unfold sectionPresent. rewrite andb_true_iff. split.
  - intros [t H].
    assert (Hne : section <> JNull) by (intros ->; discriminate H).
    split; [now destruct section|].
    unfold addSection in H. rewrite (getProp_present _ _ Hne) in H.
    cbn [bind] in H.
    apply (forEach_returns_iff (addElement numberToString) _ _
             (fun x s => addElement_returns_iff x s) acc).
    destruct (ownProp section "elements") as [|[]]; cbn [isArray itemsOf] in *;
      eauto.
  - intros [Hnn Hel].
    assert (Hne : section <> JNull) by (intros ->; discriminate Hnn).
    unfold addSection. rewrite (getProp_present _ _ Hne). cbn [bind].
    apply (forEach_returns_iff (addElement numberToString) _ _
             (fun x s => addElement_returns_iff x s) acc) in Hel.
    destruct (ownProp section "elements") as [|[]]; cbn [isArray itemsOf] in *;
      eauto.
Qed.

End TextFacts.

(** X17: the text of a list of sections is the text of its first part
    followed by the text of the rest; a throw in either part is a throw of
    the whole. *)
Theorem extractTextFromSections_app (numberToString : Q -> string)
  (first rest : list json) :
  extractTextFromSections numberToString (Val (JArr (first ++ rest)))
  = bind (extractTextFromSections numberToString (Val (JArr first)))
      (fun a =>
         bind (extractTextFromSections numberToString (Val (JArr rest)))
           (fun b => Ok (a ++ b)%string)).
Proof.
  unfold extractTextFromSections. cbn [isArray negb itemsOf].
  rewrite forEach_app.
  destruct (forEach _ first _) as [a|]; [|reflexivity]. cbn [bind].
  apply forEach_prefix, addSection_prefix.
Qed.

(** X18: the extraction returns a text exactly when no section, no element
    of a section and no inline element of a paragraph is [null] and the text
    of every run converts to a string; otherwise it throws. *)
Theorem extractTextFromSections_returns_iff (numberToString : Q -> string)
  (sections : value) :
  (exists text, extractTextFromSections numberToString sections = Ok text)
  <-> nodesPresent sections = true.
Proof.
  unfold extractTextFromSections, nodesPresent.
  destruct (isArray sections) eqn:Harr; cbn [negb].
  - apply (forEach_returns_iff (addSection numberToString) _ _
             (fun x s => addSection_returns_iff numberToString x s)).
  - destruct sections as [|[]]; try discriminate Harr; cbn [itemsOf forallb];
      split; eauto.
Qed.


Section TextOccurrences.
Local Open Scope string_scope.

Variable numberToString : Q -> string.

Lemma occursIn_refl (s : string) : occursIn s s.
Proof. exists "", "". now rewrite append_nil_r. Qed.

Lemma occursIn_empty (t : string) : occursIn "" t.
Proof. exists t, "". now rewrite append_nil_r. Qed.

Lemma occursIn_append (s t before after : string) :
  occursIn s t -> occursIn s (before ++ t ++ after).
Proof.
  intros (b & a & ->). exists (before ++ b), (a ++ after).
  now rewrite !append_assoc.
Qed.

Lemma hasPlaceholder_occursIn (s t : string) :
  hasPlaceholder s -> occursIn s t -> hasPlaceholder t.
Proof.
  intros (b & p & a & -> & Hp) (before & after & ->).
  exists (before ++ b), p, (a ++ after). split; [|exact Hp].
  now rewrite !append_assoc.
Qed.

(** What one step contributes occurs in the output of the loop. *)
Lemma forEach_occursIn {A : Type} (f : A -> string -> result string)
  (xs : list A) (x : A) (s : string) :
  (forall y acc, f y acc = bind (f y "") (fun t => Ok (acc ++ t))) ->
  In x xs ->
  (forall tx, f x "" = Ok tx -> occursIn s tx) ->
  forall acc t, forEach f xs acc = Ok t -> occursIn s t.
Proof.
  intros Hf Hin Hx acc t H.
  apply in_split in Hin as (l1 & l2 & ->).
  rewrite forEach_app in H.
  destruct (forEach f l1 acc) as [a|]; [|discriminate H].
  cbn [bind forEach] in H. rewrite (Hf x a) in H.
  destruct (f x "") as [tx|] eqn:Etx; [|discriminate H]. cbn [bind] in H.
  rewrite (forEach_prefix f Hf l2 (a ++ tx)) in H.
  destruct (forEach f l2 "") as [u|]; [|discriminate H].
  cbn [bind] in H. injection H as <-.
  rewrite append_assoc. now apply occursIn_append, Hx.
Qed.

Lemma itemsOf_isArray (v : value) (x : json) :
  In x (itemsOf v) -> isArray v = true.
Proof. destruct v as [|[]]; try (intros []); reflexivity. Qed.

Lemma ownProp_present (j : json) (k : string) (v : json) :
  ownProp j k = Val v -> j <> JNull.
Proof. intros H ->. discriminate H. Qed.

Lemma strictEquals_present (j : json) (k s : string) :
  strictEquals (ownProp j k) s = true -> j <> JNull.
Proof. intros H ->. discriminate H. Qed.

Lemma addInline_run (run : json) (s tx : string) :
  strictEquals (ownProp run "type") "r" = true ->
  ownProp run "text" = Val (JStr s) ->
  addInline numberToString run "" = Ok tx ->
  occursIn s tx.
Proof.
  intros Hty Htext. pose proof (ownProp_present _ _ _ Htext) as Hne.
  unfold addInline. rewrite !(getProp_present _ _ Hne). cbn [bind].
  rewrite Hty, Htext. cbn [bind truthy].
  destruct s as [|c s]; [intros _; apply occursIn_empty|].
  cbn [String.eqb negb toStringValue toStringJs bind append].
  intros H. injection H as <-. apply occursIn_refl.
Qed.

Lemma addElement_paragraph (paragraph run : json) (s tx : string) :
  strictEquals (ownProp paragraph "type") "p" = true ->
  In run (itemsOf (ownProp paragraph "elements")) ->
  strictEquals (ownProp run "type") "r" = true ->
  ownProp run "text" = Val (JStr s) ->
  addElement numberToString paragraph "" = Ok tx ->
  occursIn s tx.
Proof.
  intros Hp Hin Hty Htext.
  pose proof (strictEquals_present _ _ _ Hp) as Hne.
  unfold addElement. rewrite !(getProp_present _ _ Hne). cbn [bind].
  rewrite Hp. cbn [bind]. rewrite (itemsOf_isArray _ _ Hin).
  destruct (forEach _ _ _) as [ptext|] eqn:E; [|discriminate].
  cbn [bind append]. intros H. injection H as <-.
  apply (occursIn_append s ptext "" newline).
  apply (forEach_occursIn (addInline numberToString) _ run s
           (addInline_prefix numberToString) Hin
           (fun tx => addInline_run run s tx Hty Htext) _ _ E).
Qed.

Lemma addSection_paragraph (section paragraph run : json) (s ts : string) :
  In paragraph (itemsOf (ownProp section "elements")) ->
  strictEquals (ownProp paragraph "type") "p" = true ->
  In run (itemsOf (ownProp paragraph "elements")) ->
  strictEquals (ownProp run "type") "r" = true ->
  ownProp run "text" = Val (JStr s) ->
  addSection numberToString section "" = Ok ts ->
  occursIn s ts.
Proof.
  intros Hpar Hp Hin Hty Htext.
  assert (Hne : section <> JNull) by (intros ->; destruct Hpar).
  unfold addSection. rewrite (getProp_present _ _ Hne).
  cbn [bind]. rewrite (itemsOf_isArray _ _ Hpar).
  apply (forEach_occursIn (addElement numberToString) _ paragraph s
           (addElement_prefix numberToString) Hpar
           (fun tx => addElement_paragraph paragraph run s tx Hp Hin Hty Htext)).
Qed.

Lemma extract_keeps_run (sections : value) (run : json) (s text : string) :
  runIn sections run s ->
  extractTextFromSections numberToString sections = Ok text ->
  occursIn s text.
Proof.
  intros (section & paragraph & Hsec & Hpar & Hp & Hin & Hty & Htext).
  unfold extractTextFromSections. rewrite (itemsOf_isArray _ _ Hsec).
  cbn [negb].
  apply (forEach_occursIn (addSection numberToString) _ section s
           (addSection_prefix numberToString) Hsec
           (fun ts => addSection_paragraph section paragraph run s ts
                        Hpar Hp Hin Hty Htext)).
Qed.

Lemma optionalProp_reads (v : value) (k : string) :
  optionalProp v k = Ok (readOptional v k).
Proof. destruct v as [|[]]; reflexivity. Qed.

Lemma getProp_reads (v : value) (k : string) :
  readOptional v k <> Undefined -> getProp v k = Ok (readOptional v k).
Proof. destruct v as [|[]]; try reflexivity; contradiction. Qed.

Lemma readOptional_source (v : value) (k : string) :
  readOptional v k <> Undefined -> v <> Undefined.
Proof. intros H ->. now apply H. Qed.

(** Reading the optional chain never throws, and when what it finds is
    truthy the plain reads that follow find the same. *)
Lemma documentTextOf_reads (docObj : value) :
  optionalSections docObj
  = Ok (readOptional
          (readOptional (readOptional (readOptional docObj "container")
                           "document") "body") "sections")
  /\ documentTextOf numberToString docObj
     = if truthy (readOptional
                    (readOptional (readOptional (readOptional docObj "container")
                                     "document") "body") "sections")
       then extractTextFromSections numberToString
              (readOptional
                 (readOptional (readOptional (readOptional docObj "container")
                                  "document") "body") "sections")
       else Ok "".
Proof.
  assert (Hopt : optionalSections docObj
                 = Ok (readOptional
                         (readOptional
                            (readOptional (readOptional docObj "container")
                               "document") "body") "sections")).
  { unfold optionalSections.
    rewrite optionalProp_reads. cbn [bind].
    rewrite optionalProp_reads. cbn [bind].
    rewrite optionalProp_reads. cbn [bind].
    apply optionalProp_reads. }
  split; [exact Hopt|].
  unfold documentTextOf. rewrite Hopt. cbn [bind].
  set (container := readOptional docObj "container").
  set (document := readOptional container "document").
  set (body := readOptional document "body").
  set (sections := readOptional body "sections").
  destruct (truthy sections) eqn:Ht; [|reflexivity].
  assert (Hs : sections <> Undefined) by (intros E; rewrite E in Ht; discriminate).
  pose proof (readOptional_source _ _ Hs) as Hb.
  pose proof (readOptional_source _ _ Hb) as Hd.
  pose proof (readOptional_source _ _ Hd) as Hc.
  rewrite (getProp_reads docObj "container" Hc). cbn [bind].
  fold container. rewrite (getProp_reads container "document" Hd). cbn [bind].
  fold document. rewrite (getProp_reads document "body" Hb). cbn [bind].
  fold body. rewrite (getProp_reads body "sections" Hs). reflexivity.
Qed.

End TextOccurrences.

(** X19: the text of every run of every paragraph occurs in the extracted
    text. *)
Theorem extractTextFromSections_keeps_runs (numberToString : Q -> string)
  (sections : value) (run : json) (s text : string) :
  runIn sections run s ->
  extractTextFromSections numberToString sections = Ok text ->
  occursIn s text.
Proof. apply extract_keeps_run. Qed.

(** X20: reading [docObj?.container?.document?.body?.sections] never
    throws; the document text is the extraction of what it finds when that
    is truthy, and the empty string otherwise. *)
Theorem documentTextOf_chain (numberToString : Q -> string) (docObj : value) :
  exists sections,
    optionalSections docObj = Ok sections
    /\ documentTextOf numberToString docObj
       = if truthy sections
         then extractTextFromSections numberToString sections
         else Ok ""%string.
Proof.
  eexists. exact (documentTextOf_reads numberToString docObj).
Qed.

(** X21: a placeholder typed into a run of the document is seen by the
    validation that precedes generation: when the validation of the saved
    document returns a report, its placeholderCount is not 0. *)
Theorem validateDocument_sees_runs (numberToString : Q -> string)
  (docObj sections : value) (data run : json) (s : string) (report : Report) :
  optionalSections docObj = Ok sections ->
  runIn sections run s ->
  hasPlaceholder s ->
  validateDocument numberToString docObj data = Ok report ->
  placeholderCount report <> 0.
Proof.
  intros Hopt Hrun Hs Hvalidate.
  destruct (documentTextOf_reads numberToString docObj) as [Hopt' Htext].
  rewrite Hopt in Hopt'. injection Hopt' as Heq. rewrite <- Heq in Htext.
  assert (Htruthy : truthy sections = true).
  { destruct Hrun as (section & _ & Hsec & _).
    destruct sections as [|[]]; try destruct Hsec; reflexivity. }
  rewrite Htruthy in Htext.
  unfold validateDocument in Hvalidate. rewrite Htext in Hvalidate.
  destruct (extractTextFromSections numberToString sections) as [text|] eqn:E;
    [|discriminate Hvalidate].
  cbn [bind] in Hvalidate.
  pose proof (hasPlaceholder_occursIn _ _ Hs
                (extract_keeps_run numberToString _ _ _ _ Hrun E)) as Hhas.
  unfold validateTemplate in Hvalidate.
  destruct (scanPlaceholders text) as [|p ps] eqn:Escan.
  - apply scanPlaceholders_nil_iff in Escan. contradiction.
  - cbn [List.length Nat.eqb] in Hvalidate.
    destruct (forEach _ _ _); [|discriminate Hvalidate].
    injection Hvalidate as <-. discriminate.
Qed.


Lemma extractTextFromSections_keeps_runs_witness :
  occursIn "me}}" ("Dear {{name}}" ++ newline)%string.
Proof.
  apply (extractTextFromSections_keeps_runs (fun _ => "0"%string)
           (Val (JArr
                   [JObj [("elements",
                           JArr [JObj [("type", JStr "p");
                                       ("elements",
                                        JArr [JObj [("type", JStr "r");
                                                    ("text", JStr "Dear {{na")];
                                              JObj [("type", JStr "r");
                                                    ("text", JStr "me}}")]])]])]]))
           (JObj [("type", JStr "r"); ("text", JStr "me}}")])).
  - eexists. eexists.
    split; [left; reflexivity|]. split; [left; reflexivity|].
    split; [reflexivity|]. split; [right; left; reflexivity|].
    split; reflexivity.
  - reflexivity.
Defined.

Lemma validateDocument_sees_runs_witness : 1 <> 0.
Proof.
  apply (validateDocument_sees_runs (fun _ => "0"%string)
           (Val (JObj
                   [("container",
                     JObj [("document",
                            JObj [("body",
                                   JObj [("sections",
                                          JArr [JObj [("elements",
                                                       JArr [JObj [("type", JStr "p");
                                                                   ("elements",
                                                                    JArr [JObj [("type", JStr "r");
                                                                                ("text", JStr "{{name}}")]])]])]])])])])]))
           (Val (JArr [JObj [("elements",
                              JArr [JObj [("type", JStr "p");
                                          ("elements",
                                           JArr [JObj [("type", JStr "r");
                                                       ("text", JStr "{{name}}")]])]])]]))
           (JObj [("name", JStr "x")])
           (JObj [("type", JStr "r"); ("text", JStr "{{name}}")])
           "{{name}}" (mkReport [] [] 1)).
  - reflexivity.
  - eexists. eexists.
    split; [left; reflexivity|]. split; [left; reflexivity|].
    split; [reflexivity|]. split; [left; reflexivity|].
    split; reflexivity.
  - exists ""%string, "{{name}}"%string, ""%string. split; [reflexivity|].
    exists "name"%string. repeat split. discriminate.
  - reflexivity.
Defined.

(** * The palette depends on the shape of the data only *)

Section ShapeOfData.

Lemma forEach_map {A B St : Type} (g : A -> B) (f : B -> St -> result St)
  (xs : list A) (s : St) :
  forEach f (map g xs) s = forEach (fun x => f (g x)) xs s.
Proof.
  revert s. induction xs as [|x xs IH]; intros s; simpl; [reflexivity|].
  destruct (f (g x) s); [apply IH|reflexivity].
Qed.

Lemma forEach_ext {A St : Type} (f g : A -> St -> result St) (xs : list A) :
  (forall x, In x xs -> forall s, f x s = g x s) ->
  forall s, forEach f xs s = forEach g xs s.
Proof.
  induction xs as [|x xs IH]; intros H s; simpl; [reflexivity|].
  rewrite (H x (or_introl eq_refl) s).
  destruct (g x s); [|reflexivity].
  apply IH. intros y Hy. apply H. now right.
Qed.

Lemma forEachIndexed_map {A B St : Type} (g : A -> B)
  (f : nat -> B -> St -> result St) (xs : list A) :
  forall i s,
    forEachIndexed f i (map g xs) s
    = forEachIndexed (fun j x => f j (g x)) i xs s.
Proof.
  induction xs as [|x xs IH]; intros i s; simpl; [reflexivity|].
  destruct (f i (g x) s); [apply IH|reflexivity].
Qed.

Lemma forEachIndexed_ext {A St : Type} (f g : nat -> A -> St -> result St)
  (xs : list A) :
  (forall i x, In x xs -> forall s, f i x s = g i x s) ->
  forall i s, forEachIndexed f i xs s = forEachIndexed g i xs s.
Proof.
  induction xs as [|x xs IH]; intros H i s; simpl; [reflexivity|].
  rewrite (H i x (or_introl eq_refl) s).
  destruct (g i x s); [|reflexivity].
  apply IH. intros j y Hy. apply H. now right.
Qed.

Lemma processValue_shape_children (v : json) :
  (forall key parentPath lvl fs,
      processValue (shapeOf v) key parentPath lvl fs
      = processValue v key parentPath lvl fs)
  /\ (forall c, In c (children v) ->
        forall key parentPath lvl fs,
          processValue (shapeOf c) key parentPath lvl fs
          = processValue c key parentPath lvl fs).
Proof.
  induction v as [| b | n | s | items IH | props IH] using json_ind;
    (split; [|try (intros c []) ]); try reflexivity.
  - intros key parentPath lvl fs.
    destruct items as [|firstItem rest]; [reflexivity|].
    destruct (IH firstItem (or_introl eq_refl)) as [_ Hchildren].
    destruct firstItem as [| b | n | s | elems | fprops]; try reflexivity.
    + cbn [shapeOf processValue typeof]. simpl String.eqb. cbv iota.
      f_equal. rewrite forEachIndexed_map. apply forEachIndexed_ext.
      intros i x Hx fs0. exact (Hchildren x Hx _ _ _ _).
    + cbn [shapeOf processValue typeof]. simpl String.eqb. cbv iota.
      f_equal. rewrite forEach_map. apply forEach_ext.
      intros [k x] Hx fs0. cbn [fst snd].
      exact (Hchildren x (in_map snd _ _ Hx) _ _ _ _).
  - intros c Hc. exact (proj1 (IH c Hc)).
  - intros key parentPath lvl fs.
    cbn [shapeOf processValue]. f_equal.
    rewrite forEach_map. apply forEach_ext.
    intros [k x] Hx fs0. cbn [fst snd].
    exact (proj1 (IH k x Hx) _ _ _ _).
  - intros c Hc. apply in_map_iff in Hc as ([k x] & <- & Hx).
    exact (proj1 (IH k x Hx)).
Qed.

Lemma processValue_shape (v : json) (key parentPath : string) (lvl : nat)
  (fs : list Field) :
  processValue (shapeOf v) key parentPath lvl fs
  = processValue v key parentPath lvl fs.
Proof. apply processValue_shape_children. Qed.

Lemma processModel_entries_shape (props : list (string * json))
  (fs : list Field) :
  processModel (JObj (map (fun kv => (fst kv, shapeOf (snd kv))) props)) fs
  = processModel (JObj props) fs.
Proof.
  cbn [processModel]. rewrite forEach_map. apply forEach_ext.
  intros [k x] _ fs0. apply processValue_shape.
Qed.

Lemma processModel_elements_shape (elems : list json) (fs : list Field) :
  processModel (JArr (map shapeOf elems)) fs = processModel (JArr elems) fs.
Proof.
  cbn [processModel]. rewrite forEachIndexed_map. apply forEachIndexed_ext.
  intros i x _ fs0. apply processValue_shape.
Qed.

Lemma assoc_shape (k : string) (props : list (string * json)) :
  assoc k (map (fun kv => (fst kv, shapeOf (snd kv))) props)
  = option_map shapeOf (assoc k props).
Proof.
  induction props as [|[k' v] props IH]; [reflexivity|].
  cbn [map assoc fst snd]. destruct (k' =? k)%string; [reflexivity|exact IH].
Qed.

End ShapeOfData.

(** X22: the palette depends on the shape of the data only: replacing every
    scalar value and dropping the array elements that are not walked leaves
    it unchanged.  (An array under the [model] key of the root is walked
    element by element and is excluded.) *)
Theorem extractFieldsFromJson_shape (data : json) :
  isArray (ownProp data "model") = false ->
  extractFieldsFromJson (shapeOf data) = extractFieldsFromJson data.
Proof.
  intros Hmodel.
  destruct data as [| b | n | s | [|first rest] | props]; try reflexivity.
  - destruct first as [| b | n | s | elems | fprops]; try reflexivity.
    + exact (processModel_elements_shape elems []).
    + exact (processModel_entries_shape fprops []).
  - unfold extractFieldsFromJson. cbn [shapeOf isArray].
    change ((typeof (Val (JObj props)) =? "object")%string
            && negb (isNull (Val (JObj props)))) with true.
    change ((typeof (Val (JObj (map (fun kv => (fst kv, shapeOf (snd kv))) props)))
             =? "object")%string
            && negb (isNull
                       (Val (JObj (map (fun kv => (fst kv, shapeOf (snd kv)))
                                     props))))) with true.
    cbv iota. cbn [ownProp] in *. rewrite assoc_shape.
    destruct (assoc "model" props) as [m|]; cbn [option_map of_option] in *;
      [|apply processModel_entries_shape].
    destruct m as [| b | n | s | elems | mprops]; try discriminate Hmodel;
      cbn [shapeOf truthy typeof andb]; simpl String.eqb;
      rewrite ?andb_false_r; cbv iota;
      apply processModel_entries_shape.
Qed.

Lemma extractFieldsFromJson_shape_witness :
  extractFieldsFromJson
    (shapeOf (JObj [("title", JStr "Menu");
                    ("items", JArr [JObj [("name", JStr "Soup"); ("price", JNum 4)];
                                    JObj [("name", JStr "Cake")]])]))
  = extractFieldsFromJson
      (JObj [("title", JStr "Menu");
             ("items", JArr [JObj [("name", JStr "Soup"); ("price", JNum 4)];
                             JObj [("name", JStr "Cake")]])]).
Proof.
  apply extractFieldsFromJson_shape. reflexivity.
Defined.

Lemma extractFieldsFromJson_returns_witness :
  exists fields,
    extractFieldsFromJson
      (JObj [("rows", JArr [JArr [JNum 1; JNull]; JNull]); ("note", JNull)])
    = Ok fields.
Proof.
  apply extractFieldsFromJson_returns. reflexivity.
Defined.

(** X24: against data whose root is an array, the report for a plain
    placeholder named by a tidy key that is neither an index nor [length]
    does not depend on the elements of the array: it is the report against
    the empty array.  The validator does not look for the key in the first
    element, where the palette of a root array takes its keys from. *)
Theorem validateTemplate_root_array (items : list json) (key : string) :
  tidyKey key = true ->
  array_index key = None ->
  key <> "length" ->
  validateTemplate ("{{" ++ key ++ "}}") (JArr items)
  = validateTemplate ("{{" ++ key ++ "}}") (JArr []).
Proof.
  intros Hkey Hidx Hlen.
  pose proof (trim_tidy key Hkey) as Htrim.
  apply tidyKey_spec in Hkey as (Hne & _ & Hdot & Hbrace & Hopen & Hclose & _).
  assert (Hprop : forall elems, ownProp (JArr elems) key = Undefined).
  { intros elems. cbn [ownProp].
    destruct (String.eqb_spec key "length"); [contradiction|].
    now rewrite Hidx. }
  assert (Hlookup : forall elems,
             getNestedValue (Val (JArr elems)) key = Ok Undefined).
  { intros elems. unfold getNestedValue. cbn [getProp bind].
    change (ownProp (JArr elems) "model") with Undefined.
    cbn [truthy andb]. rewrite (split_dot_plain _ Hdot).
    cbn [descend isNull isUndefined orb getProp bind]. now rewrite Hprop. }
  assert (Hsame : forall elems,
             forEach (visit (JArr elems)) [mkPlaceholder ("{{" ++ key ++ "}}") key 0]
               (initialState (JArr elems))
             = Ok (addIssue (initialState (JArr elems)) (msgNoData key))).
  { intros elems. cbn [forEach]. unfold visit. cbn [field].
    rewrite Hopen, Hclose. unfold plainField.
    cbn [initialState contextStack loopStack top last isUndefined].
    rewrite Hdot. change (isObject (Val (JArr elems))) with true. cbv iota.
    cbn [hasProp]. destruct (String.eqb_spec key "length"); [contradiction|].
    rewrite Hidx. cbn [bind]. rewrite Hlookup. cbn [bind isUndefined].
    cbn [List.length Nat.ltb Nat.leb]. reflexivity. }
  unfold validateTemplate. rewrite (scan_single key Hne Hbrace), Htrim.
  cbn [List.length Nat.eqb]. rewrite (Hsame items), (Hsame []).
  reflexivity.
Qed.

Lemma validateTemplate_root_array_witness :
  validateTemplate ("{{" ++ "name" ++ "}}") (JArr [JObj [("name", JStr "Ada")]])
  = validateTemplate ("{{" ++ "name" ++ "}}") (JArr []).
Proof.
  apply validateTemplate_root_array; [reflexivity|reflexivity|discriminate].
Defined.

(** * File names *)

Section FileNames.
Local Open Scope string_scope.

Lemma last_split_dot (base ext : string) :
  includes ext "."%char = false ->
  last (split_dot (base ++ "." ++ ext)) "" = ext.
Proof.
  intros H. rewrite split_dot_join, (split_dot_plain _ H).
  apply last_last.
Qed.

Lemma replaceColons_clean (s : string) :
  includes (replaceColons s) ":"%char = false.
Proof.
  induction s as [|c s IH]; [reflexivity|].
  cbn [replaceColons includes]. rewrite IH.
  destruct (Ascii.eqb_spec c ":"%char) as [->|Hc]; [reflexivity|].
  destruct (Ascii.eqb_spec c ":"%char); [contradiction|reflexivity].
Qed.

Lemma replaceColons_length (s : string) :
  String.length (replaceColons s) = String.length s.
Proof. induction s as [|c s IH]; simpl; [reflexivity|now rewrite IH]. Qed.

Lemma substring_length (m : nat) (s : string) :
  String.length (substring 0 m s) = Nat.min m (String.length s).
Proof.
  revert s. induction m as [|m IH]; intros [|c s]; simpl; try reflexivity.
  now rewrite IH.
Qed.

End FileNames.

(** X25: the kind of an uploaded file is decided by the text after its last
    dot, in lower case; a name without a dot is its own extension, so that
    the part before the last dot never matters. *)
Theorem fileExtension_after_last_dot (base ext : string) :
  includes ext "."%char = false ->
  fileExtension (base ++ "." ++ ext) = toLowerCase ext
  /\ fileExtension ext = toLowerCase ext
  /\ importKind (base ++ "." ++ ext) = importKind ext.
Proof.
  intros H.
  assert (H1 : fileExtension (base ++ "." ++ ext) = toLowerCase ext).
  { unfold fileExtension. now rewrite (last_split_dot base ext H). }
  assert (H2 : fileExtension ext = toLowerCase ext).
  { unfold fileExtension. now rewrite (split_dot_plain _ H). }
  repeat split; try assumption.
  unfold importKind. now rewrite H1, H2.
Qed.

Lemma fileExtension_after_last_dot_witness :
  fileExtension ("Offer.v2" ++ "." ++ "DocX") = toLowerCase "DocX"
  /\ fileExtension "DocX" = toLowerCase "DocX"
  /\ importKind ("Offer.v2" ++ "." ++ "DocX") = importKind "DocX".
Proof.
  apply fileExtension_after_last_dot. reflexivity.
Defined.

(** X26: the name of an exported file never holds a colon (the extension
    given), whatever the clock returned, and its time stamp has at most 19
    characters. *)
Theorem exportFilename_no_colon (extension isoString : string) :
  includes extension ":"%char = false ->
  includes (exportFilename extension isoString) ":"%char = false
  /\ String.length (timestampOf isoString)
     = Nat.min 19 (String.length isoString).
Proof.
  intros H. split.
  - unfold exportFilename, timestampOf.
    rewrite !includes_append, replaceColons_clean, H. reflexivity.
  - unfold timestampOf. now rewrite replaceColons_length, substring_length.
Qed.

Lemma exportFilename_no_colon_witness :
  includes (exportFilename "docjson" "2026-11-02T09:30:15.123Z") ":"%char = false
  /\ String.length (timestampOf "2026-11-02T09:30:15.123Z")
     = Nat.min 19 (String.length "2026-11-02T09:30:15.123Z").
Proof.
  apply exportFilename_no_colon. reflexivity.
Defined.

(** * The data source of the template designer *)

Section DesignerFacts.

Lemma loadData_current (kind filename : string) (loaded : result json)
  (d : Designer) :
  paletteCurrent d -> paletteCurrent (loadData kind filename loaded d).
Proof.
  intros Hd. unfold loadData.
  destruct loaded as [jsonData|]; [|exact Hd].
  destruct (extractFieldsFromJson jsonData) as [fields|] eqn:E; [|exact Hd].
  exact E.
Qed.

Lemma handleEvent_current (d : Designer) (e : DesignerEvent) :
  paletteCurrent d -> paletteCurrent (handleEvent d e).
Proof.
  intros Hd. destruct e as [filename loaded|loaded|type prompted loaded];
    cbn [handleEvent].
  - now apply loadData_current.
  - now apply loadData_current.
  - unfold handleDataSourceChange.
    destruct (type =? "json-file")%string; [exact Hd|].
    destruct (type =? "json-static")%string.
    + destruct prompted as [filename|]; [|exact Hd].
      destruct (truthy _); [now apply loadData_current|exact Hd].
    + destruct ((type =? "api")%string || (type =? "database")%string);
        [exact Hd|reflexivity].
Qed.

End DesignerFacts.

(** X27: whatever files are chosen, loaded or refused and however the source
    type is changed, the palette is the one extracted from the data that is
    loaded: a load that fails, or data on which the extraction throws,
    leaves both as they were. *)
Theorem designer_palette_current (events : list DesignerEvent) :
  paletteCurrent (fold_left handleEvent events initialDesigner).
Proof.
  assert (H : forall d, paletteCurrent d ->
                        paletteCurrent (fold_left handleEvent events d)).
  { induction events as [|e events IH]; intros d Hd; [exact Hd|].
    cbn [fold_left]. apply IH. now apply handleEvent_current. }
  apply H. reflexivity.
Qed.
